(** * OpenAuto logger migration scripts: a shallow embedding and its properties

    Embedded sources:
    - [src/migrate_logger.py]                     (module [MigrateLogger])
    - [src/scripts/migrate_to_modern_logger.py]   (module [ModernLogger])
    - [src/fix_quotes.py]                         (module [FixQuotes])
    - [src/scripts/fix_logging_syntax.py]         (module [FixLoggingSyntax])
    - [src/scripts/fix_app_logging.py]            (module [FixAppLogging])

    Python [str] values are modelled as lists of characters with code points
    below 256 (Rocq's [ascii]); the character classes [\w], [\s] and the
    methods [lower] and [strip] follow Python 3 on that range.  The [re]
    module is modelled by a small backtracking matcher covering the constructs
    the scripts' patterns use: literals, greedy [*] and [+] over a character
    class, capture groups and concatenation. *)

From Stdlib Require Import List Ascii Arith Bool Lia.
From Stdlib Require String.
Import ListNotations String.StringSyntax.
Open Scope string_scope.

Set Implicit Arguments.

(* ================================================================== *)
(** * Python strings *)
(* ================================================================== *)

Module Py.

Definition text := list ascii.

(** A literal of the source, as a [text]. *)
Definition txt (s : String.string) : text := String.list_ascii_of_string s.

(** The double-quote character. *)
Definition dq : ascii := "034"%char.

Definition code (c : ascii) : nat := nat_of_ascii c.

Definition between (lo hi : nat) (c : ascii) : bool :=
  (lo <=? code c) && (code c <=? hi).

(** [\w] of a [str] pattern: [ch.isalnum() or ch == '_']. *)
Definition is_word (c : ascii) : bool :=
  between 48 57 c || between 65 90 c || (code c =? 95) || between 97 122 c
  || (code c =? 170) || between 178 179 c || (code c =? 181)
  || between 185 186 c || between 188 190 c || between 192 214 c
  || between 216 246 c || between 248 255 c.

(** [\s] of a [str] pattern, which is also what [str.strip()] removes. *)
Definition is_space (c : ascii) : bool :=
  between 9 13 c || between 28 32 c || (code c =? 133) || (code c =? 160).

(** [[A-Z]]. *)
Definition is_upper_AZ (c : ascii) : bool := between 65 90 c.

(** A negated one-character class such as [[^;]]. *)
Definition is_not (a : ascii) (c : ascii) : bool := negb (Ascii.eqb c a).

Definition lower_char (c : ascii) : ascii :=
  if between 65 90 c || between 192 214 c || between 216 222 c
  then ascii_of_nat (code c + 32) else c.

(** [s.lower()] *)
Definition lower (s : text) : text := map lower_char s.

(** [s == t] *)
Fixpoint teqb (s t : text) : bool :=
  match s, t with
  | [], [] => true
  | a :: s', b :: t' => Ascii.eqb a b && teqb s' t'
  | _, _ => false
  end.

(** [s.startswith(p)] *)
Fixpoint startswith (s p : text) {struct p} : bool :=
  match p, s with
  | [], _ => true
  | a :: p', b :: s' => Ascii.eqb a b && startswith s' p'
  | _ :: _, [] => false
  end.

(** [s.endswith(p)] *)
Definition endswith (s p : text) : bool := startswith (rev s) (rev p).

(** [p in s] *)
Fixpoint is_in (p s : text) : bool :=
  startswith s p ||
  match s with
  | [] => false
  | _ :: s' => is_in p s'
  end.

(** [s.lstrip()], [s.rstrip()], [s.strip()] *)
Fixpoint lstrip (s : text) : text :=
  match s with
  | c :: s' => if is_space c then lstrip s' else s
  | [] => []
  end.

Definition rstrip (s : text) : text := rev (lstrip (rev s)).

Definition strip (s : text) : text := rstrip (lstrip s).

(** [s.count(c)] for a one-character [c]. *)
Definition count (s : text) (c : ascii) : nat :=
  length (filter (Ascii.eqb c) s).

(** [s[1:-1]] *)
Definition slice_1_m1 (s : text) : text := removelast (tl s).

(** [s.replace(old, new)] for a non-empty [old]: the non-overlapping
    occurrences are replaced from left to right.  [skip] counts the
    characters of an occurrence just replaced that are still to be passed. *)
Fixpoint replace_from (old new : text) (skip : nat) (s : text) : text :=
  match s with
  | [] => []
  | c :: s' =>
      match skip with
      | S k => replace_from old new k s'
      | O =>
          if startswith s old
          then new ++ replace_from old new (length old - 1) s'
          else c :: replace_from old new 0 s'
      end
  end.

Definition replace (s old new : text) : text := replace_from old new 0 s.

(** A [dict] lookup, [key in d] and [d[key]] in one. *)
Fixpoint dict_get (d : list (text * text)) (key : text) : option text :=
  match d with
  | [] => None
  | (k, v) :: d' => if teqb k key then Some v else dict_get d' key
  end.

End Py.

(* ================================================================== *)
(** * The [re] module *)
(* ================================================================== *)

Module Re.
Import Py.

(** The pattern constructs used by the scripts. *)
Inductive regex : Type :=
| Chr (c : ascii)                    (* one literal character *)
| Lit (s : text)                     (* a run of literal characters *)
| Star (cls : ascii -> bool)         (* [cls*], greedy *)
| Plus (cls : ascii -> bool)         (* [cls+], greedy *)
| Group (n : nat) (r : regex)        (* capture group number [n] *)
| Cat (r1 r2 : regex).

Declare Scope regex_scope.
Delimit Scope regex_scope with re.
Bind Scope regex_scope with regex.
Notation "r1 ;; r2" := (Cat r1 r2) (at level 61, right associativity) : regex_scope.

(** Captured groups, most recent first. *)
Definition caps := list (nat * text).

Fixpoint cap_get (c : caps) (n : nat) : text :=
  match c with
  | [] => []
  | (k, v) :: c' => if k =? n then v else cap_get c' n
  end.

Section Matcher.
Variable R : Type.

(** Greedy repetition of a class with backtracking: the longest run is
    tried first, and one character is given back whenever the rest of
    the pattern fails. *)
Fixpoint star (cls : ascii -> bool) (s : text) (c : caps)
         (k : text -> caps -> option R) : option R :=
  match s with
  | x :: s' =>
      if cls x then
        match star cls s' c k with
        | Some r => Some r
        | None => k s c
        end
      else k s c
  | [] => k s c
  end.

(** [run r s c k]: match [r] at the head of [s], then continue with [k] on
    the remaining text; [None] when every alternative fails. *)
Fixpoint run (r : regex) (s : text) (c : caps)
         (k : text -> caps -> option R) : option R :=
  match r with
  | Chr a =>
      match s with
      | x :: s' => if Ascii.eqb x a then k s' c else None
      | [] => None
      end
  | Lit l => if startswith s l then k (skipn (length l) s) c else None
  | Star cls => star cls s c k
  | Plus cls =>
      match s with
      | x :: s' => if cls x then star cls s' c k else None
      | [] => None
      end
  | Group n r' =>
      run r' s c
          (fun s' c' => k s' ((n, firstn (length s - length s') s) :: c'))
  | Cat r1 r2 => run r1 s c (fun s' c' => run r2 s' c' k)
  end.
End Matcher.

(** A match object: [group(0)] and the numbered groups. *)
Record mobj : Type := MkMatch { group0 : text; captured : caps }.

Definition group (m : mobj) (n : nat) : text :=
  match n with
  | O => group0 m
  | _ => cap_get (captured m) n
  end.

(** [re.match(r, s)]: a match starting at the first character of [s]. *)
Definition exec (r : regex) (s : text) : option mobj :=
  run r s [] (fun s' c => Some (MkMatch (firstn (length s - length s') s) c)).

(** The scan shared by [re.finditer] and [re.sub]: the text is cut, from left
    to right, into characters outside every match and non-overlapping matches.
    [skip] counts the characters of the last match still to be passed.  None
    of the scripts' patterns matches the empty string. *)
Inductive segment : Type :=
| Keep (c : ascii)
| Hit (m : mobj).

Fixpoint scan (r : regex) (skip : nat) (s : text) : list segment :=
  match s with
  | [] => []
  | c :: s' =>
      match skip with
      | S k => scan r k s'
      | O =>
          match exec r s with
          | Some m => Hit m :: scan r (length (group0 m) - 1) s'
          | None => Keep c :: scan r 0 s'
          end
      end
  end.

Fixpoint hits (segs : list segment) : list mobj :=
  match segs with
  | [] => []
  | Keep _ :: t => hits t
  | Hit m :: t => m :: hits t
  end.

(** [list(re.finditer(r, s))] *)
Definition finditer (r : regex) (s : text) : list mobj := hits (scan r 0 s).

(** The text the segments were cut from. *)
Fixpoint original (segs : list segment) : text :=
  match segs with
  | [] => []
  | Keep c :: t => c :: original t
  | Hit m :: t => group0 m ++ original t
  end.

(** [re.sub(r, f, s)] for a callable [f] that reads and updates a state of
    the enclosing function (a [nonlocal] variable, the console). *)
Fixpoint sub_segs (St : Type) (f : mobj -> St -> text * St)
         (segs : list segment) (st : St) : text * St :=
  match segs with
  | [] => ([], st)
  | Keep c :: t =>
      let (o, st') := sub_segs f t st in (c :: o, st')
  | Hit m :: t =>
      let (rep, st1) := f m st in
      let (o, st2) := sub_segs f t st1 in
      (rep ++ o, st2)
  end.

Definition sub_st (St : Type) (r : regex) (f : mobj -> St -> text * St)
           (s : text) (st : St) : text * St :=
  sub_segs f (scan r 0 s) st.

(** [re.sub(r, template, s)] with a replacement computed from the groups. *)
Definition sub (r : regex) (f : mobj -> text) (s : text) : text :=
  fst (sub_st r (fun m (st : unit) => (f m, st)) s tt).

(** [re.sub(r, repl, s)] for a pattern [^r] (no MULTILINE flag), which can
    only match where the text starts. *)
Definition sub_at_start (r : regex) (repl : text) (s : text) : text :=
  match exec r s with
  | Some m => repl ++ skipn (length (group0 m)) s
  | None => s
  end.

End Re.

(* ================================================================== *)
(** * Files and the console *)
(* ================================================================== *)

Module Sys.
Import Py.

(** What [open] does for the file a script is run on: [read_result] is the
    content [f.read()] returns ([None] when reading raises), [write_ok] tells
    whether writing succeeds.  A write that fails leaves the file as
    [left_by_failed_write] tells: untouched ([None]) when [open(path, 'w')]
    itself raises, and otherwise with what reached it after [open] had
    emptied it, which may be nothing. *)
Record file_io : Type :=
  MkIO { read_result : option text;
         write_ok : bool;
         left_by_failed_write : option text }.

(** The lines the scripts print (the text of a caught exception is left out). *)
Inductive line : Type :=
| WarnUnknownSeverity (severity file_path : text)
| ErrorReading (file_path : text)
| ErrorWriting (file_path : text)
| Migrated (file_path : text)
| WouldReplaceInclude
| WouldConvert (n : nat)
| FixedLoggerQuotes (file_path : text)
| ErrorProcessing (file_path : text).

(** What a run on one file leaves behind: the returned value, the text the
    file holds afterwards when its content was changed ([None] when the file
    is as it was) and the printed lines. *)
Record outcome : Type :=
  MkOutcome { returned : bool; written : option text; printed : list line }.

(** [for pattern, category in table.items(): if pattern.lower() in s: return
    category]; [None] when the loop runs to its end. *)
Fixpoint category_loop (table : list (text * text)) (s : text) : option text :=
  match table with
  | [] => None
  | (pattern, category) :: rest =>
      if is_in (lower pattern) s then Some category else category_loop rest s
  end.

(** State of [process_file] seen by its nested [replace_func]. *)
Record pstate : Type := MkP { modified : bool; console : list line }.

(** ** Directories and command lines *)

(** [os.path.join(a, b)] on a POSIX system. *)
Definition path_join (a b : text) : text :=
  if startswith b (txt "/") then b
  else match a with
       | [] => a ++ b
       | _ :: _ => if endswith a (txt "/") then a ++ b else a ++ txt "/" ++ b
       end.

(** What [os.walk(root_dir)] yields: each directory below [root_dir] with the
    names of the files in it (the list of sub-directories, which the scripts
    do not use, is left out). *)
Definition walk : Type := list (text * list text).

(** The file system a script runs on.  [os.walk] lists every file once, so
    that no file is read after it was written in the same run. *)
Record filesystem : Type :=
  MkFS { isdir : text -> bool;
         os_walk : text -> walk;
         open_file : text -> file_io }.

(** [any(word in s for word in words)] *)
Definition any_in (words : list text) (s : text) : bool :=
  existsb (fun word => is_in word s) words.

(** [s.endswith((suffix1, suffix2, ...))] *)
Definition endswith_any (s : text) (suffixes : list text) : bool :=
  existsb (endswith s) suffixes.

(** The parsed command line of the two migration scripts. *)
Record arguments : Type :=
  MkArgs { args_directory : text; args_dry_run : bool; args_verbose : bool }.

(** The lines [main] prints, those of [process_file] among them. *)
Inductive main_line : Type :=
| NotADirectory (directory : text)
| FoundFiles (n : nat)
| WouldMigrate (file_path : text)
| FromFile (l : line)
| ErrorProcessingFile (file_path : text)
| Summary (dry : bool) (count : nat)
| NextSteps.

(** What [main] leaves behind: the value it returns, the last value of
    [migrated_count], the lines printed and the files written. *)
Record session : Type :=
  MkRun { exit_code : nat;
          migrated_count : nat;
          shown : list main_line;
          writes : list (text * text) }.

(** What a call of [process_file] adds to a run; [counted] tells whether
    [migrated_count] is incremented. *)
Definition record_file (file_path : text) (o : outcome) (counted : bool)
           (st : session) : session :=
  MkRun (exit_code st)
        (if counted then S (migrated_count st) else migrated_count st)
        (shown st ++ map FromFile (printed o))
        (match written o with
         | Some content => writes st ++ [(file_path, content)]
         | None => writes st
         end).

(** What a printed line adds to a run. *)
Definition record_line (l : main_line) (counted : bool) (st : session) : session :=
  MkRun (exit_code st)
        (if counted then S (migrated_count st) else migrated_count st)
        (shown st ++ [l])
        (writes st).

End Sys.

(* ================================================================== *)
(** * src/migrate_logger.py *)
(* ================================================================== *)

Module MigrateLogger.
Import Py Re Sys.
Local Open Scope regex_scope.

Definition SEVERITY_MAPPING : list (text * text) :=
  [ (txt "trace", txt "LOG_TRACE");
    (txt "debug", txt "LOG_DEBUG");
    (txt "info", txt "LOG_INFO");
    (txt "warning", txt "LOG_WARN");
    (txt "error", txt "LOG_ERROR");
    (txt "fatal", txt "LOG_FATAL") ].

Definition CATEGORY_MAPPING : list (text * text) :=
  [ (txt "btservice", txt "BLUETOOTH");
    (txt "Service", txt "ANDROID_AUTO");
    (txt "UI", txt "UI");
    (txt "Camera", txt "CAMERA");
    (txt "Video", txt "VIDEO");
    (txt "Audio", txt "AUDIO");
    (txt "Media", txt "AUDIO");
    (txt "Sensor", txt "SYSTEM");
    (txt "Navigation", txt "ANDROID_AUTO");
    (txt "Radio", txt "AUDIO");
    (txt "Phone", txt "ANDROID_AUTO");
    (txt "Wifi", txt "NETWORK");
    (txt "Network", txt "NETWORK");
    (txt "Connection", txt "NETWORK");
    (txt "Configuration", txt "CONFIG");
    (txt "Factory", txt "SYSTEM") ].

Definition determine_category (file_path context : text) : text :=
  let file_str := lower file_path in
  match category_loop CATEGORY_MAPPING file_str with
  | Some category => category
  | None =>
      let context_lower := lower context in
      match category_loop CATEGORY_MAPPING context_lower with
      | Some category => category
      | None => txt "GENERAL"
      end
  end.

(** [r'^\[[\w:]+\]\s*'] without its anchor. *)
Definition TAG_PATTERN : regex :=
  Chr "[" ;; Plus (fun c => is_word c || Ascii.eqb c ":") ;; Chr "]" ;;
  Star is_space.

Definition extract_message_from_stream (stream_content : text) : text :=
  let message := sub_at_start TAG_PATTERN [] stream_content in
  let message :=
    if startswith message [dq] && endswith message [dq]
    then slice_1_m1 message else message in
  strip message.

Definition convert_log_call (m : mobj) (file_path : text) : text * list line :=
  let severity := group m 1 in
  let content := group m 2 in
  match dict_get SEVERITY_MAPPING severity with
  | None => (group m 0, [WarnUnknownSeverity severity file_path])
  | Some new_macro =>
      let category := determine_category file_path content in
      let message := extract_message_from_stream content in
      (new_macro ++ txt "(" ++ category ++ txt ", " ++ [dq] ++ message
                 ++ [dq] ++ txt ");", [])
  end.

Definition OLD_INCLUDE : text := txt "#include <f1x/openauto/Common/Log.hpp>".
Definition NEW_INCLUDE : text := txt "#include <modern/Logger.hpp>".

(** [r'OPENAUTO_LOG\((\w+)\)\s*<<\s*([^;]+);'] *)
Definition pattern : regex :=
  Lit (txt "OPENAUTO_LOG(") ;; Group 1 (Plus is_word) ;; Chr ")" ;;
  Star is_space ;; Lit (txt "<<") ;; Star is_space ;;
  Group 2 (Plus (is_not ";")) ;; Chr ";".

Definition replace_func (file_path : text) (m : mobj) (st : pstate)
  : text * pstate :=
  let (out, warnings) := convert_log_call m file_path in
  (out, MkP true (console st ++ warnings)).

(** The part of [process_file] between reading and writing: the new content
    and the state of [modified] and of the console. *)
Definition process_content (file_path content : text) : text * pstate :=
  let (content, modified) :=
    if is_in OLD_INCLUDE content
    then (replace content OLD_INCLUDE NEW_INCLUDE, true)
    else (content, false) in
  sub_st pattern (replace_func file_path) content (MkP modified []).

Definition process_file (file_path : text) (io : file_io) : outcome :=
  match read_result io with
  | None => MkOutcome false None [ErrorReading file_path]
  | Some content =>
      let (content, st) := process_content file_path content in
      if modified st then
        if write_ok io
        then MkOutcome true (Some content) (console st ++ [Migrated file_path])
        else MkOutcome false (left_by_failed_write io)
                       (console st ++ [ErrorWriting file_path])
      else MkOutcome false None (console st)
  end.

(** The text a run leaves in a readable and writable file. *)
Definition migrate (file_path content : text) : text :=
  fst (process_content file_path content).

Definition SKIP_DIRS : list text := [txt "build"; txt ".git"; txt "cmake"].

Definition SUFFIXES : list text :=
  [txt ".cpp"; txt ".c"; txt ".cc"; txt ".cxx"].

Definition find_cpp_files (fs : filesystem) (root_dir : text) : list text :=
  flat_map
    (fun entry : text * list text =>
       let (root, files) := entry in
       if any_in SKIP_DIRS root then []
       else map (path_join root)
                (filter (fun file => endswith_any file SUFFIXES) files))
    (os_walk fs root_dir).

(** The test a dry run makes on the content of a file. *)
Definition would_migrate (content : text) : bool :=
  is_in (txt "OPENAUTO_LOG") content || is_in OLD_INCLUDE content.

(** One turn of the loop of [main] over [cpp_files]. *)
Definition main_step (fs : filesystem) (args : arguments) (st : session)
           (file_path : text) : session :=
  if args_dry_run args then
    match read_result (open_file fs file_path) with
    | Some content =>
        if would_migrate content
        then record_line (WouldMigrate file_path) true st
        else st
    | None => record_line (FromFile (ErrorReading file_path)) false st
    end
  else
    let o := process_file file_path (open_file fs file_path) in
    record_file file_path o (returned o) st.

Definition main (fs : filesystem) (args : arguments) : session :=
  if negb (isdir fs (args_directory args))
  then MkRun 1 0 [NotADirectory (args_directory args)] []
  else
    let cpp_files := find_cpp_files fs (args_directory args) in
    let start :=
      MkRun 0 0 (if args_verbose args then [FoundFiles (length cpp_files)] else [])
            [] in
    let st := fold_left (main_step fs args) cpp_files start in
    MkRun 0 (migrated_count st)
          (shown st ++ [Summary (args_dry_run args) (migrated_count st)]
                 ++ (if negb (args_dry_run args) && (0 <? migrated_count st)
                     then [NextSteps] else []))
          (writes st).

End MigrateLogger.

(* ================================================================== *)
(** * src/scripts/migrate_to_modern_logger.py *)
(* ================================================================== *)

Module ModernLogger.
Import Py Re Sys.
Local Open Scope regex_scope.

Definition SEVERITY_MAPPING : list (text * text) :=
  [ (txt "trace", txt "OPENAUTO_LOG_TRACE");
    (txt "debug", txt "OPENAUTO_LOG_DEBUG");
    (txt "info", txt "OPENAUTO_LOG_INFO");
    (txt "warning", txt "OPENAUTO_LOG_WARN");
    (txt "error", txt "OPENAUTO_LOG_ERROR");
    (txt "fatal", txt "OPENAUTO_LOG_FATAL") ].

Definition CATEGORY_MAPPING : list (text * text) :=
  [ (txt "btservice", txt "BLUETOOTH");
    (txt "Service", txt "ANDROID_AUTO");
    (txt "UI", txt "UI");
    (txt "Camera", txt "CAMERA");
    (txt "Video", txt "VIDEO");
    (txt "Audio", txt "AUDIO");
    (txt "Media", txt "AUDIO");
    (txt "Sensor", txt "SYSTEM");
    (txt "Navigation", txt "ANDROID_AUTO");
    (txt "Radio", txt "AUDIO");
    (txt "Phone", txt "ANDROID_AUTO");
    (txt "Wifi", txt "NETWORK");
    (txt "Network", txt "NETWORK");
    (txt "Connection", txt "NETWORK");
    (txt "Configuration", txt "CONFIG");
    (txt "Factory", txt "SYSTEM");
    (txt "Input", txt "INPUT");
    (txt "Projection", txt "PROJECTION");
    (txt "Settings", txt "SETTINGS") ].

Definition determine_category (file_path context : text) : text :=
  let file_str := lower file_path in
  match category_loop CATEGORY_MAPPING file_str with
  | Some category => category
  | None =>
      let context_lower := lower context in
      match category_loop CATEGORY_MAPPING context_lower with
      | Some category => category
      | None => txt "GENERAL"
      end
  end.

Definition extract_message_from_stream (stream_content : text) : text :=
  let content := strip stream_content in
  if startswith content [dq] && endswith content [dq]
     && (count content dq =? 2)
  then slice_1_m1 content
  else content.

Definition convert_log_call (m : mobj) (file_path : text) : text * list line :=
  let severity := strip (group m 1) in
  let stream_content := strip (group m 2) in
  match dict_get SEVERITY_MAPPING severity with
  | None => (group m 0, [WarnUnknownSeverity severity file_path])
  | Some new_macro =>
      let category := determine_category file_path stream_content in
      let message :=
        if startswith stream_content [dq] && endswith stream_content [dq]
        then stream_content
        else if is_in (txt "<<") stream_content
             then txt "(std::stringstream() << " ++ stream_content
                      ++ txt ").str()"
             else txt "(" ++ stream_content ++ txt ").str()" in
      (new_macro ++ txt "(" ++ category ++ txt ", " ++ message ++ txt ")", [])
  end.

Definition OLD_INCLUDE : text := txt "#include <f1x/openauto/Common/Log.hpp>".
Definition NEW_INCLUDE : text :=
  txt "#include <openauto/Common/ModernLogger.hpp>".

(** [r'OPENAUTO_LOG\s*\(\s*(\w+)\s*\)\s*<<([^;]+);'] *)
Definition pattern : regex :=
  Lit (txt "OPENAUTO_LOG") ;; Star is_space ;; Chr "(" ;; Star is_space ;;
  Group 1 (Plus is_word) ;; Star is_space ;; Chr ")" ;; Star is_space ;;
  Lit (txt "<<") ;; Group 2 (Plus (is_not ";")) ;; Chr ";".

Definition replace_func (file_path : text) (m : mobj) (st : pstate)
  : text * pstate :=
  let (out, warnings) := convert_log_call m file_path in
  (out, MkP true (console st ++ warnings)).

Definition process_content (file_path content : text) (dry_run : bool)
  : text * pstate :=
  let '(content, modified, out) :=
    if is_in OLD_INCLUDE content
    then (replace content OLD_INCLUDE NEW_INCLUDE, true,
          if dry_run then [WouldReplaceInclude] else [])
    else (content, false, []) in
  let matches := finditer pattern content in
  let out :=
    match matches with
    | _ :: _ => if dry_run then out ++ [WouldConvert (length matches)] else out
    | [] => out
    end in
  sub_st pattern (replace_func file_path) content (MkP modified out).

Definition process_file (file_path : text) (dry_run : bool) (io : file_io)
  : outcome :=
  match read_result io with
  | None => MkOutcome false None [ErrorReading file_path]
  | Some content =>
      let (content, st) := process_content file_path content dry_run in
      if modified st && negb dry_run then
        if write_ok io
        then MkOutcome true (Some content) (console st ++ [Migrated file_path])
        else MkOutcome false (left_by_failed_write io)
                       (console st ++ [ErrorWriting file_path])
      else MkOutcome (modified st) None (console st)
  end.

Definition SKIP_DIRS : list text :=
  [txt "build"; txt ".git"; txt "cmake"; txt "tests"].

Definition SUFFIXES : list text :=
  [txt ".cpp"; txt ".c"; txt ".cc"; txt ".cxx"; txt ".hpp"; txt ".h"].

Definition find_cpp_files (fs : filesystem) (root_dir : text) : list text :=
  flat_map
    (fun entry : text * list text =>
       let (root, files) := entry in
       if any_in SKIP_DIRS root then []
       else map (path_join root)
                (filter (fun file => endswith_any file SUFFIXES) files))
    (os_walk fs root_dir).

(** The test [main] makes on the content of a file before it goes on. *)
Definition would_migrate (content : text) : bool :=
  is_in (txt "OPENAUTO_LOG") content || is_in OLD_INCLUDE content.

(** One turn of the loop of [main] over [cpp_files]. *)
Definition main_step (fs : filesystem) (args : arguments) (st : session)
           (file_path : text) : session :=
  match read_result (open_file fs file_path) with
  | Some content =>
      if would_migrate content then
        if args_dry_run args then
          let st := record_line (WouldMigrate file_path) false st in
          let st :=
            if args_verbose args
            then record_file file_path
                             (process_file file_path true (open_file fs file_path))
                             false st
            else st in
          MkRun (exit_code st) (S (migrated_count st)) (shown st) (writes st)
        else
          let o := process_file file_path false (open_file fs file_path) in
          record_file file_path o (returned o) st
      else st
  | None =>
      if args_verbose args
      then record_line (ErrorProcessingFile file_path) false st
      else st
  end.

Definition main (fs : filesystem) (args : arguments) : session :=
  if negb (isdir fs (args_directory args))
  then MkRun 1 0 [NotADirectory (args_directory args)] []
  else
    let cpp_files := find_cpp_files fs (args_directory args) in
    let start :=
      MkRun 0 0 (if args_verbose args then [FoundFiles (length cpp_files)] else [])
            [] in
    let st := fold_left (main_step fs args) cpp_files start in
    MkRun 0 (migrated_count st)
          (shown st ++ [Summary (args_dry_run args) (migrated_count st)]
                 ++ (if negb (args_dry_run args) && (0 <? migrated_count st)
                     then [NextSteps] else []))
          (writes st).

End ModernLogger.

(* ================================================================== *)
(** * src/fix_quotes.py *)
(* ================================================================== *)

Module FixQuotes.
Import Py Re Sys.
Local Open Scope regex_scope.

(** In the comments below, [Q] stands for the double-quote character of the
    source pattern, and a blank separates a star from the closing parenthesis
    that follows it in the source. *)

(** [(LOG_[A-Z]+\([^,]+,\s* )], the first group of three of the patterns. *)
Definition HEAD : regex :=
  Group 1 (Lit (txt "LOG_") ;; Plus is_upper_AZ ;; Chr "(" ;;
           Plus (is_not ",") ;; Chr "," ;; Star is_space).

(** [r'(LOG_[A-Z]+\([^,]+,\s* )QQ([^Q]+)Q'] *)
Definition PATTERN1 : regex :=
  HEAD ;; Lit [dq; dq] ;; Group 2 (Plus (is_not dq)) ;; Chr dq.

(** [r'\1Q\2Q'] *)
Definition TEMPLATE1 (m : mobj) : text :=
  group m 1 ++ [dq] ++ group m 2 ++ [dq].

(** [r'(LOG_[A-Z]+\([^,]+,\s* )QQ([^Q]+)([^)]+)Q\);'] *)
Definition PATTERN2 : regex :=
  HEAD ;; Lit [dq; dq] ;; Group 2 (Plus (is_not dq)) ;;
  Group 3 (Plus (is_not ")")) ;; Chr dq ;; Lit (txt ");").

(** [r'\1Q\2\3);'] *)
Definition TEMPLATE2 (m : mobj) : text :=
  group m 1 ++ [dq] ++ group m 2 ++ group m 3 ++ txt ");".

(** [r'Q\);Q;'] *)
Definition PATTERN3 : regex := Chr dq ;; Lit (txt ");") ;; Chr dq ;; Chr ";".

(** [r'Q);'] *)
Definition TEMPLATE3 (m : mobj) : text := [dq] ++ txt ");".

(** [r'(LOG_[A-Z]+\([^,]+,\s* )QQ([^Q]+<<[^)]* )\);Q']; the flags MULTILINE and
    DOTALL change nothing for a pattern without [^], [$] and [.]. *)
Definition PATTERN4 : regex :=
  HEAD ;; Lit [dq; dq] ;;
  Group 2 (Plus (is_not dq) ;; Lit (txt "<<") ;; Star (is_not ")")) ;;
  Lit (txt ");") ;; Chr dq.

(** [r'\1Q\2);'] *)
Definition TEMPLATE4 (m : mobj) : text :=
  group m 1 ++ [dq] ++ group m 2 ++ txt ");".

(** The four substitutions of [fix_logger_quotes], in the order of the source. *)
Definition fix_content (content : text) : text :=
  let content := sub PATTERN1 TEMPLATE1 content in
  let content := sub PATTERN2 TEMPLATE2 content in
  let content := sub PATTERN3 TEMPLATE3 content in
  let content := sub PATTERN4 TEMPLATE4 content in
  content.

Definition fix_logger_quotes (filepath : text) (io : file_io) : outcome :=
  match read_result io with
  | None => MkOutcome false None [ErrorProcessing filepath]
  | Some original_content =>
      let content := fix_content original_content in
      if negb (teqb content original_content) then
        if write_ok io
        then MkOutcome true (Some content) [FixedLoggerQuotes filepath]
        else MkOutcome false (left_by_failed_write io)
                       [ErrorProcessing filepath]
      else MkOutcome false None []
  end.

End FixQuotes.

(* ================================================================== *)
(** * src/scripts/fix_logging_syntax.py *)
(* ================================================================== *)

Module FixLoggingSyntax.
Import Py Re Sys.
Local Open Scope regex_scope.

(** [r'(OPENAUTO_LOG_\w+\([^,]+,\s*\(std::stringstream\(\)[^;]* );(\s*<<[^)]*\)\.str\(\)\))'],
    a blank standing between the star and the parenthesis that closes the
    first group; the flags MULTILINE and DOTALL change nothing for a pattern
    without [^], [$] and [.]. *)
Definition pattern : regex :=
  Group 1 (Lit (txt "OPENAUTO_LOG_") ;; Plus is_word ;; Chr "(" ;;
           Plus (is_not ",") ;; Chr "," ;; Star is_space ;;
           Lit (txt "(std::stringstream()") ;; Star (is_not ";")) ;;
  Chr ";" ;;
  Group 2 (Star is_space ;; Lit (txt "<<") ;; Star (is_not ")") ;;
           Lit (txt ").str())")).

Definition fix_match (m : mobj) : text :=
  let first_part := group m 1 in
  let second_part := group m 2 in
  first_part ++ second_part ++ txt ";".

(** The substitution of [fix_logging_syntax]. *)
Definition fixed_content (content : text) : text := sub pattern fix_match content.

(** What a call leaves behind: an exception of [open] or of [f.write]
    escapes the function, after the line about the fix was printed or not,
    and leaves the file untouched or with what reached it. *)
Inductive result : Type :=
| Raised (fixed_printed : bool) (left : option text)
| Returned (value : bool) (written : option text).

Definition fix_logging_syntax (file_path : text) (io : file_io) : result :=
  match read_result io with
  | None => Raised false None
  | Some content =>
      let original_content := content in
      let fixed_content := fixed_content content in
      if negb (teqb fixed_content original_content) then
        if write_ok io then Returned true (Some fixed_content)
        else Raised true (left_by_failed_write io)
      else Returned false None
  end.

End FixLoggingSyntax.

(* ================================================================== *)
(** * src/scripts/fix_app_logging.py *)
(* ================================================================== *)

Module FixAppLogging.
Import Py Re Sys.
Local Open Scope regex_scope.

(** In the comments below, [Q] stands for the double-quote character of the
    source. *)

(** [r'OPENAUTO_LOG_ERROR\(([^,]+),\s*\(Q\(([^)]+)\)\.str\(\)Q\);'] *)
Definition pattern : regex :=
  Lit (txt "OPENAUTO_LOG_ERROR(") ;; Group 1 (Plus (is_not ",")) ;; Chr "," ;;
  Star is_space ;; Lit (txt "(" ++ [dq] ++ txt "(") ;;
  Group 2 (Plus (is_not ")")) ;; Lit (txt ").str()" ++ [dq] ++ txt ");").

(** [r'OPENAUTO_LOG_ERROR(\1, Q\2Q);'] *)
Definition replacement (m : mobj) : text :=
  txt "OPENAUTO_LOG_ERROR(" ++ group m 1 ++ txt ", " ++ [dq] ++ group m 2
      ++ [dq] ++ txt ");".

(** [r'OPENAUTO_LOG_ERROR\(([^,]+),\s*\(\[([^\]]+)\]\)\.str\(\)\)Q;'] *)
Definition pattern2 : regex :=
  Lit (txt "OPENAUTO_LOG_ERROR(") ;; Group 1 (Plus (is_not ",")) ;; Chr "," ;;
  Star is_space ;; Lit (txt "([") ;; Group 2 (Plus (is_not "]")) ;;
  Lit (txt "]).str())" ++ [dq] ++ txt ";").

(** [r'OPENAUTO_LOG_ERROR(\1, Q[\2]Q);'] *)
Definition replacement2 (m : mobj) : text :=
  txt "OPENAUTO_LOG_ERROR(" ++ group m 1 ++ txt ", " ++ [dq] ++ txt "["
      ++ group m 2 ++ txt "]" ++ [dq] ++ txt ");".

(** The two entries of [patterns_to_fix]:
    [(r'\(Q\[([^\]]+)\]\)\.str\(\)\)Q;', r';Q[\1]Q;')] and
    [(r'\(([^)]+)\)\.str\(\)\)Q;', r'Q\1Q;')]. *)
Definition patterns_to_fix : list (regex * (mobj -> text)) :=
  [ (Lit (txt "(" ++ [dq] ++ txt "[") ;; Group 1 (Plus (is_not "]")) ;;
     Lit (txt "]).str())" ++ [dq] ++ txt ";"),
     fun m => txt ";" ++ [dq] ++ txt "[" ++ group m 1 ++ txt "]" ++ [dq]
                  ++ txt ";");
    (Chr "(" ;; Group 1 (Plus (is_not ")")) ;;
     Lit (txt ").str())" ++ [dq] ++ txt ";"),
     fun m => [dq] ++ group m 1 ++ [dq] ++ txt ";") ].

(** The text the script writes back for the text it read. *)
Definition fixed_content (content : text) : text :=
  let fixed_content := sub pattern replacement content in
  let fixed_content := sub pattern2 replacement2 fixed_content in
  fold_left (fun fixed_content entry =>
               sub (fst entry) (snd entry) fixed_content)
            patterns_to_fix fixed_content.

End FixAppLogging.

(* ================================================================== *)
(** * Notions used to state the properties *)
(* ================================================================== *)

Import Py Re Sys.

(** [matches r w c c']: the pattern [r] can consume exactly the word [w],
    turning the captured groups [c] into [c']. *)
Inductive matches : regex -> text -> caps -> caps -> Prop :=
| M_chr : forall a c, matches (Chr a) [a] c c
| M_lit : forall l c, matches (Lit l) l c c
| M_star : forall cls w c, forallb cls w = true -> matches (Star cls) w c c
| M_plus : forall cls w c,
    w <> [] -> forallb cls w = true -> matches (Plus cls) w c c
| M_group : forall n r w c c',
    matches r w c c' -> matches (Group n r) w c ((n, w) :: c')
| M_cat : forall r1 r2 w1 w2 c c1 c2,
    matches r1 w1 c c1 -> matches r2 w2 c1 c2 ->
    matches (Cat r1 r2) (w1 ++ w2) c c2.

(** The least number of characters a pattern consumes. *)
Fixpoint min_len (r : regex) : nat :=
  match r with
  | Chr _ => 1
  | Lit l => length l
  | Star _ => 0
  | Plus _ => 1
  | Group _ r' => min_len r'
  | Cat r1 r2 => min_len r1 + min_len r2
  end.

(** [spliced site s o]: the text [o] is the text [s] in which some disjoint
    ranges, each related to its replacement by [site], were replaced in place;
    every character outside these ranges is kept, in the same order. *)
Inductive spliced (site : text -> text -> Prop) : text -> text -> Prop :=
| spliced_nil : spliced site [] []
| spliced_keep : forall c s o,
    spliced site s o -> spliced site (c :: s) (c :: o)
| spliced_site : forall old new s o,
    old <> [] -> site old new -> spliced site s o ->
    spliced site (old ++ s) (new ++ o).

(** [s] contains the word [p] nowhere. *)
Definition free_of (p s : text) : Prop := is_in p s = false.

(** The characters of [s] that are statement terminators. *)
Definition terminators (s : text) : nat := count s ";".

(** The characters of [s] that are double quotes. *)
Definition quotes (s : text) : nat := count s dq.

(** What a conversion function makes of one segment of a scan: the text put
    in the output and the lines printed. *)
Section Rendering.
Variable convert : mobj -> text * list line.

Definition render (seg : segment) : text :=
  match seg with
  | Keep c => [c]
  | Hit m => fst (convert m)
  end.

Definition report (seg : segment) : list line :=
  match seg with
  | Keep _ => []
  | Hit m => snd (convert m)
  end.
End Rendering.

Definition is_hit (seg : segment) : bool :=
  match seg with
  | Hit _ => true
  | Keep _ => false
  end.

(** A call site of [pattern] and its replacement by [convert]. *)
Definition call_site (pattern : regex) (convert : mobj -> text * list line)
           (old new : text) : Prop :=
  exists m, group0 m = old /\ matches pattern old [] (captured m) /\
            new = fst (convert m).

(** An occurrence of the legacy include directive and its replacement. *)
Definition include_site (old_include new_include old new : text) : Prop :=
  old = old_include /\ new = new_include.

(** [severity not in mapping] *)
Definition unrecognized (mapping : list (text * text)) (severity : text) : bool :=
  match dict_get mapping severity with
  | None => true
  | Some _ => false
  end.

(** The Unknown report of a run: the warnings about unrecognized severities
    among the printed lines. *)
Definition is_unknown_warning (l : line) : bool :=
  match l with
  | WarnUnknownSeverity _ _ => true
  | _ => false
  end.

Definition unknown_report (out : list line) : list line :=
  filter is_unknown_warning out.

(** No pattern of [entries] occurs in [s], letter case apart. *)
Definition no_entry_in (entries : list (text * text)) (s : text) : bool :=
  forallb (fun entry => negb (is_in (lower (fst entry)) (lower s))) entries.

(** A text on which [migrate_logger.py] has nothing left to convert: it holds
    no legacy include directive, and every call the pattern still matches has
    an unrecognized severity. *)
Definition settled (content : text) : Prop :=
  free_of MigrateLogger.OLD_INCLUDE content /\
  forall m, In m (finditer MigrateLogger.pattern content) ->
            unrecognized MigrateLogger.SEVERITY_MAPPING (group m 1) = true.

(** Migration followed by the repair pass of [fix_quotes.py]. *)
Definition migrate_and_repair (file_path content : text) : text :=
  FixQuotes.fix_content (MigrateLogger.migrate file_path content).

(** The text in which [process_file] looks for calls: the content read, with
    the legacy include directive replaced. *)
Definition migrate_includes (content : text) : text :=
  if is_in MigrateLogger.OLD_INCLUDE content
  then replace content MigrateLogger.OLD_INCLUDE MigrateLogger.NEW_INCLUDE
  else content.

Definition modern_includes (content : text) : text :=
  if is_in ModernLogger.OLD_INCLUDE content
  then replace content ModernLogger.OLD_INCLUDE ModernLogger.NEW_INCLUDE
  else content.

(** ** Inputs of the scenarios *)

(** A double-quoted literal. *)
Definition quoted (s : text) : text := [dq] ++ s ++ [dq].

(** A legacy call as the scripts' comments write it. *)
Definition legacy_call (severity argument : text) : text :=
  txt "OPENAUTO_LOG(" ++ severity ++ txt ") << " ++ argument ++ txt ";".

(** Scenario D: a call with the unknown severity [critical]. *)
Definition scenarioD : text := legacy_call (txt "critical") (quoted (txt "x")).

(** A call with an unknown severity whose message is the legacy include
    directive, and a call with an unknown severity that follows a call
    without terminator. *)
Definition call_holding_include : text :=
  legacy_call (txt "critical") (quoted MigrateLogger.OLD_INCLUDE).

Definition call_after_unterminated : text :=
  txt "OPENAUTO_LOG(info) << old " ++ scenarioD.

(** The line-feed character. *)
Definition lf : ascii := "010"%char.

(** An argument that spans two lines and holds parentheses and quotes. *)
Definition two_line_argument : text :=
  quoted (txt "lost (again) ") ++ [lf] ++ txt "    << describe(peer, 1)".

(** A call whose message holds a semicolon inside its string literal. *)
Definition semicolon_call : text := legacy_call (txt "info") (quoted (txt "a;b")).

(** A statement whose string literal holds the text of a call. *)
Definition call_in_literal : text :=
  txt "puts(" ++ quoted (txt "OPENAUTO_LOG(error) << e;") ++ txt ");".

(** Scenario A: an error with a plain literal message. *)
Definition scenarioA : text :=
  legacy_call (txt "error") (quoted (txt "connection lost")).

(** A call whose message names the legacy macro. *)
Definition nested_call : text :=
  legacy_call (txt "info") (quoted (txt "use OPENAUTO_LOG(debug) << msg")).

(** The call Scenario A expects. *)
Definition scenarioA_expected : text :=
  txt "LOG_ERROR(NETWORK, " ++ quoted (txt "connection lost") ++ txt ");".

(** The entries of the category table listed before [Network]. *)
Definition entries_before_network : list (text * text) :=
  firstn 12 MigrateLogger.CATEGORY_MAPPING.

(** A chain that starts with a literal and ends with an expression. *)
Definition chain_open : text := quoted (txt "peer ") ++ txt " << id".

(** A chain whose literals start and end with a blank. *)
Definition chain_blanks : text :=
  quoted (txt " a") ++ txt " << x << " ++ quoted (txt "b ").

(** Scenario E: an already migrated call with doubled quotes, and its
    canonical form. *)
Definition scenarioE : text :=
  txt "LOG_ERROR(AUDIO, " ++ [dq; dq] ++ txt "clip" ++ [dq; dq] ++ txt ");".

Definition scenarioE_expected : text :=
  txt "LOG_ERROR(AUDIO, " ++ quoted (txt "clip") ++ txt ");".

(** A file that can be read and written. *)
Definition file_with (content : text) : file_io :=
  MkIO (Some content) true None.

(** ** Notions for the scripts as a whole *)

(** [takes r w s c c']: in front of the text [s] the matcher lets [r] consume
    [w], turning the groups [c] into [c'], whenever the rest of the pattern
    accepts what follows. *)
Definition takes (r : regex) (w s : text) (c c' : caps) : Prop :=
  forall (R : Type) (k : text -> caps -> option R) (res : R),
    k s c' = Some res -> run r (w ++ s) c k = Some res.

(** The next character, if any, is outside the class. *)
Definition stops (cls : ascii -> bool) (s : text) : Prop :=
  match s with
  | x :: _ => cls x = false
  | [] => True
  end.

(** Every word the pattern matches contains the word [x]. *)
Definition requires (r : regex) (x : text) : Prop :=
  forall w c c', matches r w c c' -> is_in x w = true.

(** What [re.sub] with the replacement [f] puts for one segment of a scan. *)
Definition rendered (f : mobj -> text) (seg : segment) : text :=
  match seg with
  | Keep c => [c]
  | Hit m => f m
  end.

(** The class of [[\w:]]. *)
Definition is_tag_char (c : ascii) : bool := is_word c || Ascii.eqb c ":".

(** What [extract_message_from_stream] of [migrate_logger.py] does once the
    leading tag is gone. *)
Definition unquote_and_strip (message : text) : text :=
  strip (if startswith message [dq] && endswith message [dq]
         then slice_1_m1 message else message).

(** The files [main] counts: in a dry run those that can be read and pass
    the test on their content, otherwise those [process_file] returns [True]
    for. *)
Definition migrate_counts (fs : filesystem) (dry : bool) (file_path : text)
  : bool :=
  if dry then
    match read_result (open_file fs file_path) with
    | Some content => MigrateLogger.would_migrate content
    | None => false
    end
  else returned (MigrateLogger.process_file file_path (open_file fs file_path)).

Definition modern_counts (fs : filesystem) (dry : bool) (file_path : text)
  : bool :=
  match read_result (open_file fs file_path) with
  | Some content =>
      ModernLogger.would_migrate content &&
      (dry || returned (ModernLogger.process_file file_path false
                                                  (open_file fs file_path)))
  | None => false
  end.

(** A file system with one directory. *)
Definition one_directory (root : text) (files : list (text * text))
  : filesystem :=
  MkFS (fun _ => true)
       (fun _ => [(root, map fst files)])
       (fun file_path =>
          match find (fun entry => teqb (path_join root (fst entry)) file_path)
                     files with
          | Some entry => MkIO (Some (snd entry)) true None
          | None => MkIO None false None
          end).

(** The two marks [fix_quotes.py] looks for: a doubled quote, and a quote
    and a terminator after the end of a call. *)
Definition doubled_quote : text := [dq; dq].

Definition stray_terminator : text := [dq] ++ txt ");" ++ [dq] ++ txt ";".

(** A migrated call whose message opens with a doubled quote. *)
Definition doubled_call (macro category ws body : text) : text :=
  txt "LOG_" ++ macro ++ txt "(" ++ category ++ txt "," ++ ws
      ++ doubled_quote ++ body ++ [dq].

(** The same call with a single quote. *)
Definition single_call (macro category ws body : text) : text :=
  txt "LOG_" ++ macro ++ txt "(" ++ category ++ txt "," ++ ws
      ++ [dq] ++ body ++ [dq].

(** A call as [fix_logging_syntax.py] expects to find it, with a terminator
    in the middle of the stream, and the same call with the terminator at
    its end. *)
Definition broken_call (name category ws first ws2 second : text) : text :=
  txt "OPENAUTO_LOG_" ++ name ++ txt "(" ++ category ++ txt "," ++ ws
      ++ txt "(std::stringstream()" ++ first ++ txt ";"
      ++ ws2 ++ txt "<<" ++ second ++ txt ").str())".

Definition mended_call (name category ws first ws2 second : text) : text :=
  txt "OPENAUTO_LOG_" ++ name ++ txt "(" ++ category ++ txt "," ++ ws
      ++ txt "(std::stringstream()" ++ first
      ++ ws2 ++ txt "<<" ++ second ++ txt ").str())" ++ txt ";".

(** ** Words a substitution cannot bring in *)

Section NewOccurrences.
Variable x : text.

(** No occurrence of [x] starts before [new] and runs into it. *)
Definition fresh (new : text) : Prop :=
  forall pre o, startswith (pre ++ new ++ o) x = true -> startswith pre x = true.

(** No occurrence of [x] starts inside [new]. *)
Definition sealed (new : text) : Prop :=
  forall o, free_of x o -> free_of x (new ++ o).

Variable f : mobj -> text.

(** Segments in which [x] starts at no kept character and whose matches are
    replaced by texts that are fresh and sealed. *)
Fixpoint clean (segs : list segment) : Prop :=
  match segs with
  | [] => True
  | Keep c :: t => startswith (c :: original t) x = false /\ clean t
  | Hit m :: t => fresh (f m) /\ sealed (f m) /\ clean t
  end.
End NewOccurrences.

(** [x] and [h] agree as far as both go. *)
Fixpoint compatible (x h : text) : bool :=
  match x, h with
  | a :: x', b :: h' => Ascii.eqb a b && compatible x' h'
  | _, _ => true
  end.

(** [u] is a part of [s]. *)
Definition part_of (u s : text) : Prop := exists a b, s = a ++ u ++ b.

(** The literal the pattern of [migrate_logger.py] opens with. *)
Definition LEGACY_OPENING : text := txt "OPENAUTO_LOG(".

(** An ordinary source: in the segments of the scan, the legacy macro is
    opened at no kept character, every call found has a recognized severity,
    and no call found names the legacy macro in its argument. *)
Fixpoint ordinary_segments (segs : list segment) : bool :=
  match segs with
  | [] => true
  | Keep c :: t =>
      negb (startswith (c :: original t) LEGACY_OPENING) && ordinary_segments t
  | Hit m :: t =>
      negb (unrecognized MigrateLogger.SEVERITY_MAPPING (group m 1))
      && negb (is_in LEGACY_OPENING (group m 2))
      && ordinary_segments t
  end.

Definition ordinary (content : text) : bool :=
  ordinary_segments (scan MigrateLogger.pattern 0 (migrate_includes content)).

(** A source file with the legacy include directive and the call of
    Scenario A inside a function. *)
Definition ordinary_file : text :=
  MigrateLogger.OLD_INCLUDE ++ [lf] ++ txt "void lost() { " ++ scenarioA
                            ++ txt " }" ++ [lf].

(* ================================================================== *)
(** * Facts about Python strings *)
(* ================================================================== *)

Unset Implicit Arguments.

Lemma eqb_ascii_refl (a : ascii) : Ascii.eqb a a = true.
Proof. apply Ascii.eqb_eq. reflexivity. Qed.

Lemma startswith_app (p s : text) : startswith (p ++ s) p = true.
Proof.
  induction p as [|a p IH]; simpl.
  - reflexivity.
  - rewrite eqb_ascii_refl. exact IH.
Qed.

Lemma startswith_split (s p : text) :
  startswith s p = true -> s = p ++ skipn (length p) s.
Proof.
  revert s. induction p as [|a p IH]; intros s H.
  - reflexivity.
  - destruct s as [|b s]; simpl in H; [discriminate|].
    apply andb_true_iff in H. destruct H as [Hab Hs].
    apply Ascii.eqb_eq in Hab. subst b. simpl.
    f_equal. apply IH. exact Hs.
Qed.

Lemma startswith_is_in (p s : text) : startswith s p = true -> is_in p s = true.
Proof. intros H. destruct s; simpl in *; rewrite H; reflexivity. Qed.

Lemma is_in_app (p a b : text) : is_in p (a ++ p ++ b) = true.
Proof.
  induction a as [|c a IH]; simpl.
  - apply startswith_is_in, startswith_app.
  - rewrite IH. apply orb_true_r.
Qed.

Lemma is_in_split (p s : text) :
  is_in p s = true -> exists a b, s = a ++ p ++ b.
Proof.
  induction s as [|c s IH]; intros H.
  - simpl in H. rewrite orb_false_r in H.
    apply startswith_split in H. exists [], (skipn (length p) []). exact H.
  - simpl in H. apply orb_true_iff in H. destruct H as [H|H].
    + apply startswith_split in H.
      exists [], (skipn (length p) (c :: s)). exact H.
    + destruct (IH H) as (a & b & E). exists (c :: a), b. rewrite E. reflexivity.
Qed.

Lemma free_of_cons (p : text) (c : ascii) (s : text) :
  free_of p (c :: s) -> startswith (c :: s) p = false /\ free_of p s.
Proof.
  unfold free_of. simpl. intros H. apply orb_false_iff in H. exact H.
Qed.

Lemma lower_app (a b : text) : lower (a ++ b) = lower a ++ lower b.
Proof. apply map_app. Qed.

Lemma is_in_lower (p s : text) :
  is_in p s = true -> is_in (lower p) (lower s) = true.
Proof.
  intros H. destruct (is_in_split _ _ H) as (a & b & ->).
  rewrite !lower_app. apply is_in_app.
Qed.

Lemma count_app (a b : text) (c : ascii) : count (a ++ b) c = count a c + count b c.
Proof. unfold count. rewrite filter_app, length_app. reflexivity. Qed.

Lemma count_forallb_not (s : text) (c : ascii) :
  forallb (is_not c) s = true -> count s c = 0.
Proof.
  unfold count. induction s as [|x s IH]; simpl; intros H.
  - reflexivity.
  - apply andb_true_iff in H. destruct H as [Hx Hs].
    unfold is_not in Hx. apply negb_true_iff in Hx.
    rewrite Ascii.eqb_sym, Hx. apply IH, Hs.
Qed.

Lemma forallb_weaken (P Q : ascii -> bool) (s : text) :
  (forall x, P x = true -> Q x = true) ->
  forallb P s = true -> forallb Q s = true.
Proof.
  intros HPQ. induction s as [|x s IH]; simpl; intros H.
  - reflexivity.
  - apply andb_true_iff in H. destruct H as [Hx Hs].
    rewrite (HPQ _ Hx), (IH Hs). reflexivity.
Qed.

(* ================================================================== *)
(** * Facts about the matcher *)
(* ================================================================== *)

Lemma firstn_consumed (w s' : text) :
  firstn (length (w ++ s') - length s') (w ++ s') = w.
Proof.
  rewrite length_app.
  replace (length w + length s' - length s') with (length w) by lia.
  rewrite firstn_app, Nat.sub_diag, firstn_all. simpl. apply app_nil_r.
Qed.

Lemma skipn_consumed (w s' : text) : skipn (length w) (w ++ s') = s'.
Proof. rewrite skipn_app, skipn_all, Nat.sub_diag. reflexivity. Qed.

Section MatcherFacts.
Variable R : Type.
Implicit Types (k : text -> caps -> option R) (s w : text) (c : caps).

(** Whatever [star] returns was returned by the continuation after a run
    of characters of the class. *)
Lemma star_sound cls s c k res :
  star cls s c k = Some res ->
  exists w s', s = w ++ s' /\ forallb cls w = true /\ k s' c = Some res.
Proof.
  induction s as [|x s IH]; simpl; intros H.
  - exists [], []. auto.
  - destruct (cls x) eqn:Hx.
    + destruct (star cls s c k) as [r|] eqn:Hs.
      * inversion H; subst r.
        destruct (IH eq_refl) as (w & s' & -> & Hw & Hk).
        exists (x :: w), s'. simpl. rewrite Hx, Hw. auto.
      * exists [], (x :: s). auto.
    + exists [], (x :: s). auto.
Qed.

(** Greedy choice: when the continuation accepts what follows the longest
    run of the class, that is the answer. *)
Lemma star_max cls w s c k res :
  forallb cls w = true ->
  match s with x :: _ => cls x = false | [] => True end ->
  k s c = Some res ->
  star cls (w ++ s) c k = Some res.
Proof.
  intros Hw Hs Hk. induction w as [|x w IH]; simpl in *.
  - destruct s as [|y s]; simpl; [exact Hk|]. rewrite Hs. exact Hk.
  - apply andb_true_iff in Hw. destruct Hw as [Hx Hw].
    rewrite Hx, (IH Hw). reflexivity.
Qed.

Lemma run_sound r : forall s c k res,
  run r s c k = Some res ->
  exists w s' c', s = w ++ s' /\ matches r w c c' /\ k s' c' = Some res.
Proof.
  induction r as [a|l|cls|cls|n r IH|r1 IH1 r2 IH2]; intros s c k res H;
    simpl in H.
  - destruct s as [|x s]; [discriminate|].
    destruct (Ascii.eqb x a) eqn:E; [|discriminate].
    apply Ascii.eqb_eq in E. subst x.
    exists [a], s, c. repeat split; [constructor | exact H].
  - destruct (startswith s l) eqn:E; [|discriminate].
    exists l, (skipn (length l) s), c.
    repeat split; [apply startswith_split, E | constructor | exact H].
  - destruct (star_sound _ _ _ _ _ H) as (w & s' & -> & Hw & Hk).
    exists w, s', c. repeat split; [constructor; exact Hw | exact Hk].
  - destruct s as [|x s]; [discriminate|].
    destruct (cls x) eqn:Hx; [|discriminate].
    destruct (star_sound _ _ _ _ _ H) as (w & s' & -> & Hw & Hk).
    exists (x :: w), s', c. repeat split; [|exact Hk].
    constructor; [discriminate | simpl; rewrite Hx, Hw; reflexivity].
  - destruct (IH _ _ _ _ H) as (w & s' & c' & -> & Hm & Hk).
    rewrite firstn_consumed in Hk.
    exists w, s', ((n, w) :: c'). repeat split; [constructor; exact Hm | exact Hk].
  - destruct (IH1 _ _ _ _ H) as (w1 & s1 & c1 & -> & Hm1 & Hk1).
    destruct (IH2 _ _ _ _ Hk1) as (w2 & s2 & c2 & -> & Hm2 & Hk2).
    exists (w1 ++ w2), s2, c2. rewrite app_assoc.
    repeat split; [econstructor; eassumption | exact Hk2].
Qed.
End MatcherFacts.

Lemma exec_sound (r : regex) (s : text) (m : mobj) :
  exec r s = Some m ->
  exists rest, s = group0 m ++ rest /\ matches r (group0 m) [] (captured m).
Proof.
  unfold exec. intros H.
  destruct (run_sound _ _ _ _ _ _ H) as (w & s' & c' & -> & Hm & Hk).
  rewrite firstn_consumed in Hk. inversion Hk; subst; simpl.
  exists s'. auto.
Qed.

Lemma matches_min_len (r : regex) (w : text) (c c' : caps) :
  matches r w c c' -> min_len r <= length w.
Proof.
  induction 1; simpl; try lia.
  - destruct w; [congruence | simpl; lia].
  - rewrite length_app. lia.
Qed.

Lemma exec_nonempty (r : regex) (s : text) (m : mobj) :
  0 < min_len r -> exec r s = Some m -> group0 m <> [].
Proof.
  intros Hr H. destruct (exec_sound _ _ _ H) as (rest & _ & Hm).
  apply matches_min_len in Hm. destruct (group0 m); [simpl in Hm; lia | discriminate].
Qed.

(** A pattern that opens with a literal matches only where the literal stands. *)
Lemma matches_lit_prefix (l : text) (r : regex) (w : text) (c c' : caps) :
  matches (Cat (Lit l) r) w c c' -> exists w', w = l ++ w'.
Proof.
  intros H. inversion H; subst.
  match goal with H1 : matches (Lit _) _ _ _ |- _ => inversion H1; subst end.
  eauto.
Qed.

Lemma exec_lit_prefix (l : text) (r : regex) (s : text) (m : mobj) :
  exec (Cat (Lit l) r) s = Some m -> startswith s l = true.
Proof.
  intros H. destruct (exec_sound _ _ _ H) as (rest & E & Hm).
  destruct (matches_lit_prefix _ _ _ _ _ Hm) as (w' & Ew).
  rewrite E, Ew, <- app_assoc. apply startswith_app.
Qed.

(** ** The scan *)

Lemma scan_skip (r : regex) : forall (k : nat) (s : text),
  scan r k s = scan r 0 (skipn k s).
Proof.
  intros k s. revert k. induction s as [|c s IH]; intros k.
  - destruct k; reflexivity.
  - destruct k as [|k]; [reflexivity|]. simpl. apply IH.
Qed.

Lemma scan_hit (r : regex) (s : text) (m : mobj) (rest : text) :
  exec r s = Some m -> group0 m <> [] -> s = group0 m ++ rest ->
  scan r 0 s = Hit m :: scan r 0 rest.
Proof.
  intros He Hne Es. destruct s as [|c s'].
  - destruct (group0 m); [congruence | discriminate].
  - simpl. rewrite He. f_equal.
    destruct (group0 m) as [|c0 w] eqn:Ew; [congruence|].
    simpl in Es. inversion Es; subst. simpl.
    rewrite Nat.sub_0_r, scan_skip, skipn_consumed. reflexivity.
Qed.

(** Induction along the scan of a pattern that never matches the empty word. *)
Lemma scan_induction (r : regex) (P : text -> list segment -> Prop) :
  0 < min_len r ->
  P [] [] ->
  (forall c s, exec r (c :: s) = None ->
               P s (scan r 0 s) -> P (c :: s) (Keep c :: scan r 0 s)) ->
  (forall m rest, exec r (group0 m ++ rest) = Some m -> group0 m <> [] ->
                  P rest (scan r 0 rest) ->
                  P (group0 m ++ rest) (Hit m :: scan r 0 rest)) ->
  forall s, P s (scan r 0 s).
Proof.
  intros Hr Hnil Hkeep Hhit s.
  remember (length s) as n eqn:Hn. revert s Hn.
  induction n as [n IH] using lt_wf_ind. intros s Hn.
  destruct s as [|c s'].
  - exact Hnil.
  - destruct (exec r (c :: s')) as [m|] eqn:He.
    + destruct (exec_sound _ _ _ He) as (rest & Es & _).
      pose proof (exec_nonempty _ _ _ Hr He) as Hne.
      rewrite (scan_hit _ _ _ _ He Hne Es), Es.
      apply Hhit; [rewrite <- Es; exact He | exact Hne |].
      apply (IH (length rest)); [|reflexivity].
      subst n. rewrite Es, length_app.
      destruct (group0 m); [congruence | simpl; lia].
    + simpl. rewrite He. apply Hkeep; [exact He|].
      apply (IH (length s')); [subst n; simpl; lia | reflexivity].
Qed.

Lemma scan_original (r : regex) (s : text) :
  0 < min_len r -> original (scan r 0 s) = s.
Proof.
  intros Hr. apply (scan_induction r (fun s segs => original segs = s) Hr).
  - reflexivity.
  - intros c s0 _ IH. simpl. rewrite IH. reflexivity.
  - intros m rest _ _ IH. simpl. rewrite IH. reflexivity.
Qed.

(** Every match the scan reports is a match of the pattern. *)
Lemma scan_hits_match (r : regex) (s : text) :
  0 < min_len r ->
  Forall (fun m => group0 m <> [] /\ matches r (group0 m) [] (captured m))
         (hits (scan r 0 s)).
Proof.
  intros Hr.
  apply (scan_induction r
           (fun _ segs => Forall (fun m => group0 m <> [] /\
                                 matches r (group0 m) [] (captured m)) (hits segs)) Hr).
  - constructor.
  - intros c s0 _ IH. exact IH.
  - intros m rest He Hne IH. simpl. constructor; [|exact IH].
    split; [exact Hne|]. destruct (exec_sound _ _ _ He) as (rest' & _ & Hm). exact Hm.
Qed.


Lemma finditer_matches (r : regex) (s : text) (m : mobj) :
  0 < min_len r -> In m (finditer r s) ->
  matches r (group0 m) [] (captured m).
Proof.
  intros Hr Hin. pose proof (scan_hits_match r s Hr) as H.
  rewrite Forall_forall in H. apply (H m Hin).
Qed.

(** ** Substitution through [replace_func] *)

Section ReplaceFunc.
Variable convert : mobj -> text * list line.
Variable f : mobj -> pstate -> text * pstate.
Hypothesis f_spec : forall m st,
  f m st = (fst (convert m), MkP true (console st ++ snd (convert m))).

Lemma sub_segs_replace_func (segs : list segment) : forall st,
  sub_segs f segs st =
  (flat_map (render convert) segs,
   MkP (modified st || existsb is_hit segs)
       (console st ++ flat_map (report convert) segs)).
Proof.
  induction segs as [|seg segs IH]; intros st.
  - simpl. rewrite orb_false_r, app_nil_r. destruct st; reflexivity.
  - destruct seg as [c|m]; simpl.
    + rewrite IH. reflexivity.
    + rewrite f_spec, IH. simpl. rewrite orb_true_r, app_assoc. reflexivity.
Qed.

(** The output of the substitution is the input with call sites replaced. *)
Lemma sub_st_spliced (r : regex) (s : text) (st : pstate) :
  0 < min_len r ->
  spliced (call_site r convert) s (fst (sub_st r f s st)).
Proof.
  intros Hr. unfold sub_st. rewrite sub_segs_replace_func. simpl.
  apply (scan_induction r
           (fun s segs => spliced (call_site r convert) s
                                  (flat_map (render convert) segs)) Hr).
  - constructor.
  - intros c s0 _ IH. simpl. constructor. exact IH.
  - intros m rest He Hne IH. simpl. constructor; [exact Hne | | exact IH].
    exists m. destruct (exec_sound _ _ _ He) as (rest' & _ & Hm). auto.
Qed.
End ReplaceFunc.

Lemma migrate_replace_func_spec (p : text) (m : mobj) (st : pstate) :
  MigrateLogger.replace_func p m st =
  (fst (MigrateLogger.convert_log_call m p),
   MkP true (console st ++ snd (MigrateLogger.convert_log_call m p))).
Proof.
  unfold MigrateLogger.replace_func.
  destruct (MigrateLogger.convert_log_call m p); reflexivity.
Qed.

Lemma modern_replace_func_spec (p : text) (m : mobj) (st : pstate) :
  ModernLogger.replace_func p m st =
  (fst (ModernLogger.convert_log_call m p),
   MkP true (console st ++ snd (ModernLogger.convert_log_call m p))).
Proof.
  unfold ModernLogger.replace_func.
  destruct (ModernLogger.convert_log_call m p); reflexivity.
Qed.

Lemma migrate_pattern_min_len : 0 < min_len MigrateLogger.pattern.
Proof. simpl. lia. Qed.

Lemma modern_pattern_min_len : 0 < min_len ModernLogger.pattern.
Proof. simpl. lia. Qed.

(* ================================================================== *)
(** * Unknown severities (C5, C10) *)
(* ================================================================== *)

Lemma migrate_convert_unknown (m : mobj) (p : text) :
  unrecognized MigrateLogger.SEVERITY_MAPPING (group m 1) = true ->
  MigrateLogger.convert_log_call m p =
  (group m 0, [WarnUnknownSeverity (group m 1) p]).
Proof.
  unfold unrecognized, MigrateLogger.convert_log_call. intros H.
  destruct (dict_get MigrateLogger.SEVERITY_MAPPING (group m 1));
    [discriminate | reflexivity].
Qed.

Lemma modern_convert_unknown (m : mobj) (p : text) :
  unrecognized ModernLogger.SEVERITY_MAPPING (strip (group m 1)) = true ->
  ModernLogger.convert_log_call m p =
  (group m 0, [WarnUnknownSeverity (strip (group m 1)) p]).
Proof.
  unfold unrecognized, ModernLogger.convert_log_call. intros H.
  destruct (dict_get ModernLogger.SEVERITY_MAPPING (strip (group m 1)));
    [discriminate | reflexivity].
Qed.

Lemma existsb_is_hit (segs : list segment) :
  hits segs <> [] -> existsb is_hit segs = true.
Proof.
  induction segs as [|[c|m] segs IH]; simpl; intros H.
  - congruence.
  - apply IH, H.
  - reflexivity.
Qed.

(** Segments whose matches are all rendered as themselves give the text back. *)
Lemma render_identity (convert : mobj -> text * list line) (segs : list segment) :
  (forall m, In m (hits segs) -> fst (convert m) = group0 m) ->
  flat_map (render convert) segs = original segs.
Proof.
  induction segs as [|[c|m] segs IH]; simpl; intros H.
  - reflexivity.
  - rewrite IH; [reflexivity | exact H].
  - rewrite (H m (or_introl eq_refl)), IH; [reflexivity|].
    intros m' Hm'. apply H. right. exact Hm'.
Qed.

Section UnknownSites.
Variable convert : mobj -> text * list line.
Variable unknown : mobj -> bool.
Variable warning : mobj -> line.
Hypothesis warning_is_warning : forall m, is_unknown_warning (warning m) = true.
Hypothesis convert_unknown : forall m,
  unknown m = true -> convert m = (group0 m, [warning m]).
Hypothesis convert_known : forall m,
  unknown m = false -> snd (convert m) = [].

(** One warning per match with an unknown severity, in the order of the text. *)
Lemma report_unknown (segs : list segment) :
  unknown_report (flat_map (report convert) segs) =
  map warning (filter unknown (hits segs)).
Proof.
  unfold unknown_report.
  induction segs as [|[c|m] segs IH]; simpl.
  - reflexivity.
  - exact IH.
  - rewrite filter_app, IH. destruct (unknown m) eqn:Hu.
    + rewrite (convert_unknown m Hu). simpl.
      rewrite warning_is_warning. reflexivity.
    + rewrite (convert_known m Hu). reflexivity.
Qed.

(** A match with an unknown severity is put back as it was. *)
Lemma render_unknown (segs : list segment) :
  flat_map (render convert) segs =
  flat_map (fun seg => match seg with
                       | Keep c => [c]
                       | Hit m => if unknown m then group0 m
                                  else fst (convert m)
                       end) segs.
Proof.
  induction segs as [|[c|m] segs IH]; simpl.
  - reflexivity.
  - rewrite IH. reflexivity.
  - rewrite IH. destruct (unknown m) eqn:Hu; [|reflexivity].
    rewrite (convert_unknown m Hu). reflexivity.
Qed.
End UnknownSites.

Lemma migrate_convert_known (m : mobj) (p : text) :
  unrecognized MigrateLogger.SEVERITY_MAPPING (group m 1) = false ->
  snd (MigrateLogger.convert_log_call m p) = [].
Proof.
  unfold unrecognized, MigrateLogger.convert_log_call. intros H.
  destruct (dict_get MigrateLogger.SEVERITY_MAPPING (group m 1));
    [reflexivity | discriminate].
Qed.

Lemma modern_convert_known (m : mobj) (p : text) :
  unrecognized ModernLogger.SEVERITY_MAPPING (strip (group m 1)) = false ->
  snd (ModernLogger.convert_log_call m p) = [].
Proof.
  unfold unrecognized, ModernLogger.convert_log_call. intros H.
  destruct (dict_get ModernLogger.SEVERITY_MAPPING (strip (group m 1)));
    [reflexivity | discriminate].
Qed.

Lemma migrate_process_content_eq (file_path content : text) :
  MigrateLogger.process_content file_path content =
  sub_st MigrateLogger.pattern (MigrateLogger.replace_func file_path)
         (migrate_includes content)
         (MkP (is_in MigrateLogger.OLD_INCLUDE content) []).
Proof.
  unfold MigrateLogger.process_content, migrate_includes.
  destruct (is_in MigrateLogger.OLD_INCLUDE content); reflexivity.
Qed.

Lemma modern_process_content_eq (file_path content : text) (dry_run : bool) :
  exists notes,
    unknown_report notes = [] /\
    ModernLogger.process_content file_path content dry_run =
    sub_st ModernLogger.pattern (ModernLogger.replace_func file_path)
           (modern_includes content)
           (MkP (is_in ModernLogger.OLD_INCLUDE content) notes).
Proof.
  unfold ModernLogger.process_content, modern_includes.
  destruct (is_in ModernLogger.OLD_INCLUDE content).
  - destruct (finditer ModernLogger.pattern
                (replace content ModernLogger.OLD_INCLUDE ModernLogger.NEW_INCLUDE));
      destruct dry_run; eexists; split; try reflexivity; reflexivity.
  - destruct (finditer ModernLogger.pattern content);
      destruct dry_run; eexists; split; try reflexivity; reflexivity.
Qed.

(** C5, as the code has it: [convert_log_call] returns a match whose severity
    token is not a key of [SEVERITY_MAPPING] as it was matched
    ([match.group(0)]), with exactly one warning printed.  The call sites of a
    run are the matches of the pattern, from left to right and without
    overlap, in the text in which the legacy include directive has already
    been replaced: in the text [process_file] produces every such site with
    an unknown severity stands as it was matched, and the warnings about
    unknown severities of a run are one per such site, in the order of the
    text.  A call written in the source that holds the include directive, or
    that lies inside the match of an earlier call, is not such a site.  This
    holds of [migrate_logger.py] and of [migrate_to_modern_logger.py]. *)
Theorem unknown_severity_preserved_and_reported :
  (forall (m : mobj) (file_path : text),
      unrecognized MigrateLogger.SEVERITY_MAPPING (group m 1) = true ->
      MigrateLogger.convert_log_call m file_path =
      (group m 0, [WarnUnknownSeverity (group m 1) file_path])) /\
  (forall (file_path content : text),
      let unknown m := unrecognized MigrateLogger.SEVERITY_MAPPING (group m 1) in
      let sites := scan MigrateLogger.pattern 0 (migrate_includes content) in
      let result := MigrateLogger.process_content file_path content in
      fst result =
      flat_map (fun seg => match seg with
                           | Keep c => [c]
                           | Hit m =>
                               if unknown m then group0 m
                               else fst (MigrateLogger.convert_log_call m file_path)
                           end) sites /\
      unknown_report (console (snd result)) =
      map (fun m => WarnUnknownSeverity (group m 1) file_path)
          (filter unknown (hits sites))) /\
  (forall (m : mobj) (file_path : text),
      unrecognized ModernLogger.SEVERITY_MAPPING (strip (group m 1)) = true ->
      ModernLogger.convert_log_call m file_path =
      (group m 0, [WarnUnknownSeverity (strip (group m 1)) file_path])) /\
  (forall (file_path content : text) (dry_run : bool),
      let unknown m :=
        unrecognized ModernLogger.SEVERITY_MAPPING (strip (group m 1)) in
      let sites := scan ModernLogger.pattern 0 (modern_includes content) in
      let result := ModernLogger.process_content file_path content dry_run in
      fst result =
      flat_map (fun seg => match seg with
                           | Keep c => [c]
                           | Hit m =>
                               if unknown m then group0 m
                               else fst (ModernLogger.convert_log_call m file_path)
                           end) sites /\
      unknown_report (console (snd result)) =
      map (fun m => WarnUnknownSeverity (strip (group m 1)) file_path)
          (filter unknown (hits sites))).
Proof.
  split; [exact migrate_convert_unknown|].
  split; [|split; [exact modern_convert_unknown|]].
  - intros file_path content unknown sites result.
    unfold result. rewrite migrate_process_content_eq. unfold sub_st.
    rewrite (sub_segs_replace_func _ _ (migrate_replace_func_spec file_path)).
    cbn [fst snd console app]. fold sites. split.
    + apply (render_unknown (fun m => MigrateLogger.convert_log_call m file_path)
               unknown (fun m => WarnUnknownSeverity (group m 1) file_path)).
      intros m0 Hu. apply (migrate_convert_unknown m0 file_path Hu).
    + apply (report_unknown (fun m => MigrateLogger.convert_log_call m file_path)
               unknown (fun m => WarnUnknownSeverity (group m 1) file_path)).
      * reflexivity.
      * intros m0 Hu. apply (migrate_convert_unknown m0 file_path Hu).
      * intros m0 Hu. apply (migrate_convert_known m0 file_path Hu).
  - intros file_path content dry_run unknown sites result.
    unfold result.
    destruct (modern_process_content_eq file_path content dry_run)
      as (notes & Hnotes & ->).
    unfold sub_st.
    rewrite (sub_segs_replace_func _ _ (modern_replace_func_spec file_path)).
    cbn [fst snd console]. fold sites. split.
    + apply (render_unknown (fun m => ModernLogger.convert_log_call m file_path)
               unknown (fun m => WarnUnknownSeverity (strip (group m 1)) file_path)).
      intros m0 Hu. apply (modern_convert_unknown m0 file_path Hu).
    + unfold unknown_report at 1. rewrite filter_app.
      fold (unknown_report notes). rewrite Hnotes. cbn [app].
      apply (report_unknown (fun m => ModernLogger.convert_log_call m file_path)
               unknown (fun m => WarnUnknownSeverity (strip (group m 1)) file_path)).
      * reflexivity.
      * intros m0 Hu. apply (modern_convert_unknown m0 file_path Hu).
      * intros m0 Hu. apply (modern_convert_known m0 file_path Hu).
Qed.

Lemma unknown_severity_preserved_and_reported_witness :
  MigrateLogger.process_content (txt "App.cpp") scenarioD =
  (scenarioD, MkP true [WarnUnknownSeverity (txt "critical") (txt "App.cpp")]) /\
  MigrateLogger.convert_log_call
    (MkMatch scenarioD [(2, quoted (txt "x")); (1, txt "critical")])
    (txt "App.cpp") =
  (scenarioD, [WarnUnknownSeverity (txt "critical") (txt "App.cpp")]) /\
  ModernLogger.convert_log_call
    (MkMatch scenarioD [(2, txt " " ++ quoted (txt "x")); (1, txt "critical")])
    (txt "App.cpp") =
  (scenarioD, [WarnUnknownSeverity (txt "critical") (txt "App.cpp")]).
Proof.
  destruct unknown_severity_preserved_and_reported as (Hmig & _ & Hmod & _).
  split; [vm_compute; reflexivity|]. split.
  - apply (Hmig (MkMatch scenarioD [(2, quoted (txt "x")); (1, txt "critical")])
                (txt "App.cpp")).
    vm_compute. reflexivity.
  - apply (Hmod (MkMatch scenarioD [(2, txt " " ++ quoted (txt "x"));
                                    (1, txt "critical")])
                (txt "App.cpp")).
    vm_compute. reflexivity.
Defined.

(** C5 as stated fails: a call with an unknown severity is altered when its
    text holds the legacy include directive, which is replaced before calls
    are looked for; and when it follows a call without terminator it lies
    inside the match of that call, is rewritten with it and is never
    warned about. *)
Lemma unknown_severity_counterexample :
  is_in call_holding_include
        (MigrateLogger.migrate (txt "App.cpp") call_holding_include) = false /\
  is_in call_holding_include
        (fst (ModernLogger.process_content (txt "App.cpp") call_holding_include
                                           false)) = false /\
  is_in scenarioD call_after_unterminated = true /\
  is_in scenarioD
        (MigrateLogger.migrate (txt "App.cpp") call_after_unterminated) = false /\
  unknown_report
    (console (snd (MigrateLogger.process_content (txt "App.cpp")
                                                 call_after_unterminated))) = [] /\
  is_in scenarioD
        (fst (ModernLogger.process_content (txt "App.cpp")
                                           call_after_unterminated false)) = false /\
  unknown_report
    (console (snd (ModernLogger.process_content (txt "App.cpp")
                                                call_after_unterminated false)))
  = [].
Proof.
  repeat split; vm_compute; reflexivity.
Qed.

(** C10 (implicit): [modified] is set by [replace_func] for every match, before
    [convert_log_call] looks at the severity.  For a readable and writable
    file without the legacy include whose matching calls (at least one) all
    carry an unrecognized severity, [process_file] of [migrate_logger.py]
    returns [True] and writes back the very text it read;
    [process_file] of [migrate_to_modern_logger.py] returns [True] too, and
    writes that text back unless it is a dry run. *)
Theorem process_file_true_on_unknown_severity :
  (forall (file_path content : text) (io : file_io),
      read_result io = Some content ->
      write_ok io = true ->
      free_of MigrateLogger.OLD_INCLUDE content ->
      finditer MigrateLogger.pattern content <> [] ->
      (forall m, In m (finditer MigrateLogger.pattern content) ->
                 unrecognized MigrateLogger.SEVERITY_MAPPING (group m 1) = true) ->
      returned (MigrateLogger.process_file file_path io) = true /\
      written (MigrateLogger.process_file file_path io) = Some content) /\
  (forall (file_path content : text) (dry_run : bool) (io : file_io),
      read_result io = Some content ->
      write_ok io = true ->
      free_of ModernLogger.OLD_INCLUDE content ->
      finditer ModernLogger.pattern content <> [] ->
      (forall m, In m (finditer ModernLogger.pattern content) ->
                 unrecognized ModernLogger.SEVERITY_MAPPING
                              (strip (group m 1)) = true) ->
      returned (ModernLogger.process_file file_path dry_run io) = true /\
      written (ModernLogger.process_file file_path dry_run io) =
      if dry_run then None else Some content).
Proof.
  split.
  - intros p content io Hread Hwrite Hfree Hsome Hunk.
    unfold MigrateLogger.process_file, MigrateLogger.process_content.
    unfold free_of in Hfree. rewrite Hread, Hfree.
    unfold sub_st.
    rewrite (sub_segs_replace_func
               (fun m => MigrateLogger.convert_log_call m p)
               (MigrateLogger.replace_func p)
               (migrate_replace_func_spec p)).
    cbn [modified console].
    rewrite (existsb_is_hit _ Hsome). cbn [orb]. rewrite Hwrite.
    cbn [returned written]. split; [reflexivity|]. f_equal.
    rewrite render_identity.
    + apply scan_original, migrate_pattern_min_len.
    + intros m Hm. rewrite (migrate_convert_unknown m p (Hunk m Hm)).
      reflexivity.
  - intros p content dry_run io Hread Hwrite Hfree Hsome Hunk.
    unfold ModernLogger.process_file, ModernLogger.process_content.
    unfold free_of in Hfree. rewrite Hread, Hfree.
    unfold sub_st.
    rewrite (sub_segs_replace_func
               (fun m => ModernLogger.convert_log_call m p)
               (ModernLogger.replace_func p)
               (modern_replace_func_spec p)).
    cbn [modified console].
    rewrite (existsb_is_hit _ Hsome). cbn [orb andb].
    destruct dry_run; cbn [negb].
    + cbn [returned written]. auto.
    + rewrite Hwrite. cbn [returned written]. split; [reflexivity|]. f_equal.
      rewrite render_identity.
      * apply scan_original, modern_pattern_min_len.
      * intros m Hm. rewrite (modern_convert_unknown m p (Hunk m Hm)).
        reflexivity.
Qed.

Lemma process_file_true_on_unknown_severity_witness :
  (returned (MigrateLogger.process_file (txt "App.cpp") (file_with scenarioD)) = true /\
   written (MigrateLogger.process_file (txt "App.cpp") (file_with scenarioD)) =
   Some scenarioD) /\
  (returned (ModernLogger.process_file (txt "App.cpp") false (file_with scenarioD)) = true /\
   written (ModernLogger.process_file (txt "App.cpp") false (file_with scenarioD)) =
   Some scenarioD).
Proof.
  destruct process_file_true_on_unknown_severity as [Hmigrate Hmodern].
  split.
  - apply (Hmigrate (txt "App.cpp") scenarioD (file_with scenarioD)).
    + reflexivity.
    + reflexivity.
    + vm_compute. reflexivity.
    + vm_compute. discriminate.
    + vm_compute. intros m [<-|[]]. reflexivity.
  - apply (Hmodern (txt "App.cpp") scenarioD false (file_with scenarioD)).
    + reflexivity.
    + reflexivity.
    + vm_compute. reflexivity.
    + vm_compute. discriminate.
    + vm_compute. intros m [<-|[]]. reflexivity.
Defined.

(* ================================================================== *)
(** * Category resolution (C6) *)
(* ================================================================== *)

Lemma category_loop_first (before after : list (text * text))
      (pattern category s : text) :
  no_entry_in before s = true ->
  is_in (lower pattern) (lower s) = true ->
  category_loop (before ++ (pattern, category) :: after) (lower s) = Some category.
Proof.
  induction before as [|[q d] before IH]; simpl; intros Hb Hp.
  - rewrite Hp. reflexivity.
  - apply andb_true_iff in Hb. destruct Hb as [Hq Hb].
    apply negb_true_iff in Hq. rewrite Hq. apply IH; assumption.
Qed.

Lemma category_loop_none (table : list (text * text)) (s : text) :
  no_entry_in table s = true -> category_loop table (lower s) = None.
Proof.
  induction table as [|[q d] table IH]; simpl; intros Hb.
  - reflexivity.
  - apply andb_true_iff in Hb. destruct Hb as [Hq Hb].
    apply negb_true_iff in Hq. rewrite Hq. apply IH, Hb.
Qed.

(** Every result of the loop is the category of an entry of the table. *)
Lemma category_loop_in (table : list (text * text)) (s category : text) :
  category_loop table s = Some category ->
  exists pattern, In (pattern, category) table.
Proof.
  induction table as [|[q d] table IH]; simpl; intros H.
  - discriminate.
  - destruct (is_in (lower q) s).
    + inversion H; subst. eauto.
    + destruct (IH H) as (pattern & Hin). eauto.
Qed.

(** C6: [determine_category] checks the whole ordered table against the file
    path first, where the earliest entry whose pattern occurs in the path
    (both in lower case) wins; only when no pattern occurs in the path is the
    table checked, in the same way, against the message; and when no pattern
    occurs in either, the result is GENERAL.  The result is a function of
    (path, message).  This holds of both scripts, each with its own table. *)
Theorem determine_category_path_first :
  forall (file_path message : text),
    (forall before pattern category after,
        MigrateLogger.CATEGORY_MAPPING = before ++ (pattern, category) :: after ->
        no_entry_in before file_path = true ->
        is_in (lower pattern) (lower file_path) = true ->
        MigrateLogger.determine_category file_path message = category) /\
    (forall before pattern category after,
        MigrateLogger.CATEGORY_MAPPING = before ++ (pattern, category) :: after ->
        no_entry_in MigrateLogger.CATEGORY_MAPPING file_path = true ->
        no_entry_in before message = true ->
        is_in (lower pattern) (lower message) = true ->
        MigrateLogger.determine_category file_path message = category) /\
    (no_entry_in MigrateLogger.CATEGORY_MAPPING file_path = true ->
     no_entry_in MigrateLogger.CATEGORY_MAPPING message = true ->
     MigrateLogger.determine_category file_path message = txt "GENERAL") /\
    (forall before pattern category after,
        ModernLogger.CATEGORY_MAPPING = before ++ (pattern, category) :: after ->
        no_entry_in before file_path = true ->
        is_in (lower pattern) (lower file_path) = true ->
        ModernLogger.determine_category file_path message = category) /\
    (forall before pattern category after,
        ModernLogger.CATEGORY_MAPPING = before ++ (pattern, category) :: after ->
        no_entry_in ModernLogger.CATEGORY_MAPPING file_path = true ->
        no_entry_in before message = true ->
        is_in (lower pattern) (lower message) = true ->
        ModernLogger.determine_category file_path message = category) /\
    (no_entry_in ModernLogger.CATEGORY_MAPPING file_path = true ->
     no_entry_in ModernLogger.CATEGORY_MAPPING message = true ->
     ModernLogger.determine_category file_path message = txt "GENERAL").
Proof.
  intros file_path message.
  unfold MigrateLogger.determine_category, ModernLogger.determine_category.
  repeat split.
  - intros before pattern category after -> Hb Hp.
    rewrite (category_loop_first _ _ _ _ _ Hb Hp). reflexivity.
  - intros before pattern category after E Hpath Hb Hp.
    rewrite (category_loop_none _ _ Hpath), E.
    rewrite (category_loop_first _ _ _ _ _ Hb Hp). reflexivity.
  - intros Hpath Hmsg.
    rewrite (category_loop_none _ _ Hpath), (category_loop_none _ _ Hmsg).
    reflexivity.
  - intros before pattern category after -> Hb Hp.
    rewrite (category_loop_first _ _ _ _ _ Hb Hp). reflexivity.
  - intros before pattern category after E Hpath Hb Hp.
    rewrite (category_loop_none _ _ Hpath), E.
    rewrite (category_loop_first _ _ _ _ _ Hb Hp). reflexivity.
  - intros Hpath Hmsg.
    rewrite (category_loop_none _ _ Hpath), (category_loop_none _ _ Hmsg).
    reflexivity.
Qed.

Lemma determine_category_path_first_witness :
  MigrateLogger.determine_category
    (txt "src/autoapp/Service/NetworkManager.cpp") (txt "Camera ready") =
  txt "ANDROID_AUTO" /\
  MigrateLogger.determine_category (txt "src/main.cpp") (txt "Camera ready") =
  txt "CAMERA" /\
  MigrateLogger.determine_category (txt "src/main.cpp") (txt "started") =
  txt "GENERAL".
Proof.
  split; [|split].
  - destruct (determine_category_path_first
                (txt "src/autoapp/Service/NetworkManager.cpp")
                (txt "Camera ready")) as (Hpath & _).
    apply (Hpath [(txt "btservice", txt "BLUETOOTH")] (txt "Service")
                 (txt "ANDROID_AUTO") (skipn 2 MigrateLogger.CATEGORY_MAPPING));
      vm_compute; reflexivity.
  - destruct (determine_category_path_first (txt "src/main.cpp")
                                            (txt "Camera ready"))
      as (_ & Hmsg & _).
    apply (Hmsg (firstn 3 MigrateLogger.CATEGORY_MAPPING) (txt "Camera")
                (txt "CAMERA") (skipn 4 MigrateLogger.CATEGORY_MAPPING));
      vm_compute; reflexivity.
  - destruct (determine_category_path_first (txt "src/main.cpp") (txt "started"))
      as (_ & _ & Hnone & _).
    apply Hnone; vm_compute; reflexivity.
Defined.

(* ================================================================== *)
(** * Conservation (C7) *)
(* ================================================================== *)

Lemma replace_from_skip (old new : text) : forall (k : nat) (s : text),
  replace_from old new k s = replace_from old new 0 (skipn k s).
Proof.
  intros k s. revert k. induction s as [|c s IH]; intros k.
  - destruct k; reflexivity.
  - destruct k as [|k]; [reflexivity|]. simpl. apply IH.
Qed.

(** [str.replace] keeps every character outside the occurrences it replaces. *)
Lemma replace_spliced (old new : text) :
  old <> [] ->
  forall s, spliced (include_site old new) s (replace s old new).
Proof.
  intros Hold s. unfold replace.
  remember (length s) as n eqn:Hn. revert s Hn.
  induction n as [n IH] using lt_wf_ind. intros s Hn.
  destruct s as [|c s'].
  - constructor.
  - simpl. destruct (startswith (c :: s') old) eqn:Hsw.
    + apply startswith_split in Hsw.
      destruct old as [|o0 old']; [congruence|].
      simpl in Hsw. inversion Hsw as [[Hc Hs']]. subst o0.
      remember (skipn (length old') s') as rest eqn:Hrest.
      clear Hrest Hsw. subst s'.
      cbn [length]. rewrite Nat.sub_succ, Nat.sub_0_r.
      rewrite replace_from_skip, skipn_consumed.
      apply (@spliced_site (include_site (c :: old') new) (c :: old') new);
        [discriminate | split; reflexivity |].
      apply (IH (length rest)); [|reflexivity].
      subst n. simpl. rewrite length_app. lia.
    + constructor. apply (IH (length s')); [subst n; simpl; lia | reflexivity].
Qed.

(** Where the legacy macro is written nowhere, a text has no call site. *)
Lemma spliced_free (l : text) (r : regex) (convert : mobj -> text * list line)
      (s o : text) :
  free_of l s ->
  spliced (call_site (Cat (Lit l) r) convert) s o -> o = s.
Proof.
  intros Hf Hsp. induction Hsp as [|c s o Hsp IH|old new s o Hne Hsite Hsp IH].
  - reflexivity.
  - f_equal. apply IH. apply (free_of_cons _ _ _ Hf).
  - exfalso. destruct Hsite as (m & _ & Hm & _).
    destruct (matches_lit_prefix _ _ _ _ _ Hm) as (w' & ->).
    unfold free_of in Hf.
    rewrite <- app_assoc in Hf.
    rewrite (startswith_is_in _ _ (startswith_app l (w' ++ s))) in Hf.
    discriminate.
Qed.

(** C7, as the code has it: [process_file] first replaces the legacy include
    directive wherever it occurs, then the call sites of the resulting text;
    every character outside an occurrence of the directive and outside a call
    site is kept, in the same relative order.  This holds of both scripts. *)
Theorem conservation_outside_includes_and_call_sites :
  forall (file_path content : text),
    (exists mid,
        spliced (include_site MigrateLogger.OLD_INCLUDE MigrateLogger.NEW_INCLUDE)
                content mid /\
        spliced (call_site MigrateLogger.pattern
                           (fun m => MigrateLogger.convert_log_call m file_path))
                mid (MigrateLogger.migrate file_path content)) /\
    (forall dry_run, exists mid,
        spliced (include_site ModernLogger.OLD_INCLUDE ModernLogger.NEW_INCLUDE)
                content mid /\
        spliced (call_site ModernLogger.pattern
                           (fun m => ModernLogger.convert_log_call m file_path))
                mid (fst (ModernLogger.process_content file_path content dry_run))).
Proof.
  intros file_path content. split.
  - unfold MigrateLogger.migrate, MigrateLogger.process_content.
    exists (replace content MigrateLogger.OLD_INCLUDE MigrateLogger.NEW_INCLUDE).
    split; [apply replace_spliced; discriminate|].
    destruct (is_in MigrateLogger.OLD_INCLUDE content) eqn:Hin.
    + apply (sub_st_spliced _ _ (migrate_replace_func_spec file_path)).
      apply migrate_pattern_min_len.
    + assert (E : replace content MigrateLogger.OLD_INCLUDE
                          MigrateLogger.NEW_INCLUDE = content).
      { clear -Hin. unfold replace.
        induction content as [|c s IH]; [reflexivity|].
        destruct (free_of_cons _ _ _ Hin) as [Hsw Hf].
        cbn [replace_from]. rewrite Hsw, (IH Hf). reflexivity. }
      rewrite E.
      apply (sub_st_spliced _ _ (migrate_replace_func_spec file_path)).
      apply migrate_pattern_min_len.
  - intros dry_run. unfold ModernLogger.process_content.
    exists (replace content ModernLogger.OLD_INCLUDE ModernLogger.NEW_INCLUDE).
    split; [apply replace_spliced; discriminate|].
    destruct (is_in ModernLogger.OLD_INCLUDE content) eqn:Hin.
    + apply (sub_st_spliced _ _ (modern_replace_func_spec file_path)).
      apply modern_pattern_min_len.
    + assert (E : replace content ModernLogger.OLD_INCLUDE
                          ModernLogger.NEW_INCLUDE = content).
      { clear -Hin. unfold replace.
        induction content as [|c s IH]; [reflexivity|].
        destruct (free_of_cons _ _ _ Hin) as [Hsw Hf].
        cbn [replace_from]. rewrite Hsw, (IH Hf). reflexivity. }
      rewrite E.
      apply (sub_st_spliced _ _ (modern_replace_func_spec file_path)).
      apply modern_pattern_min_len.
Qed.

(** C7 as stated fails: a file made of the legacy include directive has no
    call site, and yet its text is changed. *)
Lemma conservation_counterexample :
  finditer MigrateLogger.pattern MigrateLogger.OLD_INCLUDE = [] /\
  ~ spliced (call_site MigrateLogger.pattern
                       (fun m => MigrateLogger.convert_log_call m (txt "App.cpp")))
            MigrateLogger.OLD_INCLUDE
            (MigrateLogger.migrate (txt "App.cpp") MigrateLogger.OLD_INCLUDE).
Proof.
  split; [vm_compute; reflexivity|].
  intros H. apply spliced_free in H; [|vm_compute; reflexivity].
  vm_compute in H. discriminate.
Qed.

(* ================================================================== *)
(** * The call-site locator (C2) *)
(* ================================================================== *)

Section RunSteps.
Variable R : Type.
Implicit Types (k : text -> caps -> option R) (s w : text) (c : caps).

Lemma run_cat r1 r2 s c k :
  run (Cat r1 r2) s c k = run r1 s c (fun s' c' => run r2 s' c' k).
Proof. reflexivity. Qed.

Lemma run_lit_app l s c k : run (Lit l) (l ++ s) c k = k s c.
Proof. simpl. rewrite startswith_app, skipn_consumed. reflexivity. Qed.

Lemma run_chr_cons a s c k : run (Chr a) (a :: s) c k = k s c.
Proof. simpl. rewrite eqb_ascii_refl. reflexivity. Qed.

Lemma run_star_max cls w s c k res :
  forallb cls w = true ->
  match s with x :: _ => cls x = false | [] => True end ->
  k s c = Some res ->
  run (Star cls) (w ++ s) c k = Some res.
Proof. apply star_max. Qed.

Lemma run_plus_max cls w s c k res :
  w <> [] ->
  forallb cls w = true ->
  match s with x :: _ => cls x = false | [] => True end ->
  k s c = Some res ->
  run (Plus cls) (w ++ s) c k = Some res.
Proof.
  intros Hne Hw Hs Hk. destruct w as [|x w]; [congruence|].
  simpl in *. apply andb_true_iff in Hw. destruct Hw as [Hx Hw].
  rewrite Hx. apply star_max; assumption.
Qed.

Lemma run_group_plus_max n cls w s c k res :
  w <> [] ->
  forallb cls w = true ->
  match s with x :: _ => cls x = false | [] => True end ->
  k s ((n, w) :: c) = Some res ->
  run (Group n (Plus cls)) (w ++ s) c k = Some res.
Proof.
  intros Hne Hw Hs Hk. cbn [run].
  apply run_plus_max; try assumption.
  rewrite firstn_consumed. exact Hk.
Qed.
End RunSteps.

Lemma is_space_not_word (c : ascii) : is_space c = true -> is_word c = false.
Proof.
  destruct c as [[] [] [] [] [] [] [] []]; vm_compute; congruence.
Qed.

Lemma is_word_not_space (c : ascii) : is_word c = true -> is_space c = false.
Proof.
  intros H. destruct (is_space c) eqn:E; [|reflexivity].
  rewrite (is_space_not_word c E) in H. discriminate.
Qed.

(** What [migrate_logger.py]'s pattern takes from a text that starts with a
    call: the severity is the word between the parentheses, the argument runs
    from the first character after [<<] that is not white space to the first
    semicolon. *)
Lemma migrate_pattern_on_call (sev ws1 ws2 : text) (c0 : ascii) (cs rest : text) :
  sev <> [] ->
  forallb is_word sev = true ->
  forallb is_space ws1 = true ->
  forallb is_space ws2 = true ->
  is_space c0 = false ->
  forallb (is_not ";") (c0 :: cs) = true ->
  exec MigrateLogger.pattern
       (txt "OPENAUTO_LOG(" ++ sev ++ txt ")" ++ ws1 ++ txt "<<" ++ ws2
            ++ (c0 :: cs) ++ txt ";" ++ rest) =
  Some (MkMatch (txt "OPENAUTO_LOG(" ++ sev ++ txt ")" ++ ws1 ++ txt "<<" ++ ws2
                     ++ (c0 :: cs) ++ txt ";")
                [(2, c0 :: cs); (1, sev)]).
Proof.
  intros Hsev Hword Hws1 Hws2 Hc0 Hcont.
  unfold exec, MigrateLogger.pattern.
  set (input := txt "OPENAUTO_LOG(" ++ _).
  set (final := fun (s' : text) (c : caps) => Some _).
  unfold input.
  rewrite run_cat, run_lit_app. cbv beta.
  rewrite run_cat.
  apply run_group_plus_max; [exact Hsev | exact Hword | reflexivity |].
  cbv beta. rewrite run_cat.
  change (txt ")" ++ ws1 ++ txt "<<" ++ ws2 ++ (c0 :: cs) ++ txt ";" ++ rest)
    with (")"%char :: ws1 ++ txt "<<" ++ ws2 ++ (c0 :: cs) ++ txt ";" ++ rest).
  rewrite run_chr_cons. cbv beta. rewrite run_cat.
  apply run_star_max; [exact Hws1 | reflexivity |].
  cbv beta. rewrite run_cat, run_lit_app. cbv beta. rewrite run_cat.
  apply run_star_max; [exact Hws2 | exact Hc0 |].
  cbv beta. rewrite run_cat.
  apply run_group_plus_max; [discriminate | exact Hcont | reflexivity |].
  cbv beta.
  change (txt ";" ++ rest) with (";"%char :: rest).
  rewrite run_chr_cons. unfold final. f_equal. f_equal.
  replace input
    with ((txt "OPENAUTO_LOG(" ++ sev ++ txt ")" ++ ws1 ++ txt "<<" ++ ws2
               ++ (c0 :: cs) ++ txt ";") ++ rest).
  - apply firstn_consumed.
  - unfold input. rewrite <- !app_assoc. reflexivity.
Qed.

(** The same for [migrate_to_modern_logger.py]'s pattern, which allows white
    space around the parentheses and takes as argument everything between
    [<<] and the first semicolon. *)
Lemma modern_pattern_on_call (ws0 ws1 sev ws2 ws3 : text) (c0 : ascii)
      (cs rest : text) :
  sev <> [] ->
  forallb is_word sev = true ->
  forallb is_space ws0 = true ->
  forallb is_space ws1 = true ->
  forallb is_space ws2 = true ->
  forallb is_space ws3 = true ->
  forallb (is_not ";") (c0 :: cs) = true ->
  exec ModernLogger.pattern
       (txt "OPENAUTO_LOG" ++ ws0 ++ txt "(" ++ ws1 ++ sev ++ ws2 ++ txt ")"
            ++ ws3 ++ txt "<<" ++ (c0 :: cs) ++ txt ";" ++ rest) =
  Some (MkMatch (txt "OPENAUTO_LOG" ++ ws0 ++ txt "(" ++ ws1 ++ sev ++ ws2
                     ++ txt ")" ++ ws3 ++ txt "<<" ++ (c0 :: cs) ++ txt ";")
                [(2, c0 :: cs); (1, sev)]).
Proof.
  intros Hsev Hword Hws0 Hws1 Hws2 Hws3 Hcont.
  unfold exec, ModernLogger.pattern.
  set (input := txt "OPENAUTO_LOG" ++ _).
  set (final := fun (s' : text) (c : caps) => Some _).
  unfold input.
  rewrite run_cat, run_lit_app. cbv beta. rewrite run_cat.
  apply run_star_max; [exact Hws0 | reflexivity |].
  cbv beta. rewrite run_cat.
  change (txt "(" ++ ws1 ++ sev ++ ws2 ++ txt ")" ++ ws3 ++ txt "<<"
              ++ (c0 :: cs) ++ txt ";" ++ rest)
    with ("("%char :: ws1 ++ sev ++ ws2 ++ txt ")" ++ ws3 ++ txt "<<"
              ++ (c0 :: cs) ++ txt ";" ++ rest).
  rewrite run_chr_cons. cbv beta. rewrite run_cat.
  apply run_star_max; [exact Hws1 | |].
  { destruct sev as [|x sev']; [congruence|]. simpl in Hword |- *.
    apply andb_true_iff in Hword. apply is_word_not_space, Hword. }
  cbv beta. rewrite run_cat.
  apply run_group_plus_max; [exact Hsev | exact Hword | |].
  { destruct ws2 as [|y ws2']; [reflexivity|]. simpl in Hws2 |- *.
    apply andb_true_iff in Hws2. apply is_space_not_word, Hws2. }
  cbv beta. rewrite run_cat.
  apply run_star_max; [exact Hws2 | reflexivity |].
  cbv beta. rewrite run_cat.
  change (txt ")" ++ ws3 ++ txt "<<" ++ (c0 :: cs) ++ txt ";" ++ rest)
    with (")"%char :: ws3 ++ txt "<<" ++ (c0 :: cs) ++ txt ";" ++ rest).
  rewrite run_chr_cons. cbv beta. rewrite run_cat.
  apply run_star_max; [exact Hws3 | reflexivity |].
  cbv beta. rewrite run_cat, run_lit_app. cbv beta. rewrite run_cat.
  apply run_group_plus_max; [discriminate | exact Hcont | reflexivity |].
  cbv beta.
  change (txt ";" ++ rest) with (";"%char :: rest).
  rewrite run_chr_cons. unfold final. f_equal. f_equal.
  replace input
    with ((txt "OPENAUTO_LOG" ++ ws0 ++ txt "(" ++ ws1 ++ sev ++ ws2
               ++ txt ")" ++ ws3 ++ txt "<<" ++ (c0 :: cs) ++ txt ";") ++ rest).
  - apply firstn_consumed.
  - unfold input. rewrite <- !app_assoc. reflexivity.
Qed.

(** C2, as the code has it: the locator is one regular expression, without
    a count of parentheses and without knowledge of string literals.  On a
    text that starts with the macro name, a severity word in parentheses,
    [<<] and an argument, it takes the severity word and, as argument, the
    characters up to the first semicolon, whatever they are (line breaks,
    parentheses and quotes included); the match ends with that semicolon.
    In [migrate_logger.py] white space is allowed around [<<] and is not part
    of the argument; in [migrate_to_modern_logger.py] white space is also
    allowed around the parentheses, and the argument starts right after
    [<<]. *)
Theorem locator_takes_up_to_first_semicolon :
  (forall (sev ws1 ws2 : text) (c0 : ascii) (cs rest : text),
      sev <> [] ->
      forallb is_word sev = true ->
      forallb is_space ws1 = true ->
      forallb is_space ws2 = true ->
      is_space c0 = false ->
      forallb (is_not ";") (c0 :: cs) = true ->
      exec MigrateLogger.pattern
           (txt "OPENAUTO_LOG(" ++ sev ++ txt ")" ++ ws1 ++ txt "<<" ++ ws2
                ++ (c0 :: cs) ++ txt ";" ++ rest) =
      Some (MkMatch (txt "OPENAUTO_LOG(" ++ sev ++ txt ")" ++ ws1 ++ txt "<<"
                         ++ ws2 ++ (c0 :: cs) ++ txt ";")
                    [(2, c0 :: cs); (1, sev)])) /\
  (forall (ws0 ws1 sev ws2 ws3 : text) (c0 : ascii) (cs rest : text),
      sev <> [] ->
      forallb is_word sev = true ->
      forallb is_space ws0 = true ->
      forallb is_space ws1 = true ->
      forallb is_space ws2 = true ->
      forallb is_space ws3 = true ->
      forallb (is_not ";") (c0 :: cs) = true ->
      exec ModernLogger.pattern
           (txt "OPENAUTO_LOG" ++ ws0 ++ txt "(" ++ ws1 ++ sev ++ ws2 ++ txt ")"
                ++ ws3 ++ txt "<<" ++ (c0 :: cs) ++ txt ";" ++ rest) =
      Some (MkMatch (txt "OPENAUTO_LOG" ++ ws0 ++ txt "(" ++ ws1 ++ sev ++ ws2
                         ++ txt ")" ++ ws3 ++ txt "<<" ++ (c0 :: cs) ++ txt ";")
                    [(2, c0 :: cs); (1, sev)])).
Proof.
  split.
  - exact migrate_pattern_on_call.
  - exact modern_pattern_on_call.
Qed.

Lemma locator_takes_up_to_first_semicolon_witness :
  exec MigrateLogger.pattern
       (txt "OPENAUTO_LOG(error) << " ++ two_line_argument ++ txt "; return;") =
  Some (MkMatch (txt "OPENAUTO_LOG(error) << " ++ two_line_argument ++ txt ";")
                [(2, two_line_argument); (1, txt "error")]).
Proof.
  destruct locator_takes_up_to_first_semicolon as [Hmigrate _].
  apply (Hmigrate (txt "error") (txt " ") (txt " ") dq
                  (tl two_line_argument) (txt " return;")).
  - discriminate.
  - reflexivity.
  - reflexivity.
  - reflexivity.
  - reflexivity.
  - vm_compute. reflexivity.
Defined.

(** C2 as stated fails: a semicolon inside a string literal ends the argument
    the locator extracts, and a call written inside a string literal is
    matched as an invocation. *)
Lemma locator_counterexample :
  map (fun m => group m 2) (finditer MigrateLogger.pattern semicolon_call)
  <> [quoted (txt "a;b")] /\
  map (fun m => strip (group m 2)) (finditer ModernLogger.pattern semicolon_call)
  <> [quoted (txt "a;b")] /\
  finditer MigrateLogger.pattern call_in_literal <> [] /\
  finditer ModernLogger.pattern call_in_literal <> [].
Proof.
  repeat split; vm_compute; discriminate.
Qed.

(* ================================================================== *)
(** * Idempotence (C1) *)
(* ================================================================== *)

(** On a settled text the migration changes nothing. *)
Lemma migrate_settled_noop (file_path content : text) :
  settled content -> MigrateLogger.migrate file_path content = content.
Proof.
  intros [Hfree Hunk].
  unfold MigrateLogger.migrate, MigrateLogger.process_content.
  unfold free_of in Hfree. rewrite Hfree. unfold sub_st.
  rewrite (sub_segs_replace_func _ _ (migrate_replace_func_spec file_path)).
  cbn [fst]. rewrite render_identity.
  - apply scan_original, migrate_pattern_min_len.
  - intros m Hm.
    rewrite (migrate_convert_unknown m file_path (Hunk m Hm)). reflexivity.
Qed.


(* ================================================================== *)
(** * Scenario A (C8) *)
(* ================================================================== *)

Lemma is_in_prefix (a b s : text) : is_in (a ++ b) s = true -> is_in a s = true.
Proof.
  intros H. destruct (is_in_split _ _ H) as (x & y & ->).
  rewrite <- app_assoc. apply is_in_app.
Qed.

(** C8, as the code has it: for the call of Scenario A in a file whose path
    contains [NetworkManager.cpp] and none of the patterns listed before
    [Network] in the category table (letter case apart), [migrate_logger.py]
    writes [LOG_ERROR(NETWORK, <the quoted message>);], with one terminator. *)
Theorem scenarioA_network :
  forall file_path : text,
    is_in (txt "NetworkManager.cpp") file_path = true ->
    no_entry_in entries_before_network file_path = true ->
    MigrateLogger.migrate file_path scenarioA = scenarioA_expected /\
    terminators (MigrateLogger.migrate file_path scenarioA) = 1.
Proof.
  intros file_path Hname Hbefore.
  assert (E : MigrateLogger.migrate file_path scenarioA = scenarioA_expected).
  { unfold MigrateLogger.migrate, MigrateLogger.process_content.
    assert (Hinc : is_in MigrateLogger.OLD_INCLUDE scenarioA = false)
      by (vm_compute; reflexivity).
    rewrite Hinc. unfold sub_st.
    rewrite (sub_segs_replace_func _ _ (migrate_replace_func_spec file_path)).
    cbn [fst].
    assert (Hscan : scan MigrateLogger.pattern 0 scenarioA =
                    [Hit (MkMatch scenarioA
                                  [(2, quoted (txt "connection lost"));
                                   (1, txt "error")])])
      by (vm_compute; reflexivity).
    rewrite Hscan. cbn [flat_map render].
    unfold MigrateLogger.convert_log_call. cbv zeta.
    assert (Hsev : dict_get MigrateLogger.SEVERITY_MAPPING
                     (group (MkMatch scenarioA
                                     [(2, quoted (txt "connection lost"));
                                      (1, txt "error")]) 1) =
                   Some (txt "LOG_ERROR"))
      by (vm_compute; reflexivity).
    rewrite Hsev.
    assert (Hcat : MigrateLogger.determine_category file_path
                     (group (MkMatch scenarioA
                                     [(2, quoted (txt "connection lost"));
                                      (1, txt "error")]) 2) = txt "NETWORK").
    { unfold MigrateLogger.determine_category.
      change MigrateLogger.CATEGORY_MAPPING
        with (entries_before_network ++ (txt "Network", txt "NETWORK")
                :: skipn 13 MigrateLogger.CATEGORY_MAPPING).
      rewrite (category_loop_first _ _ _ _ _ Hbefore); [reflexivity|].
      apply is_in_lower in Hname.
      apply (is_in_prefix (txt "network") (txt "manager.cpp")). exact Hname. }
    rewrite Hcat. vm_compute. reflexivity. }
  split; [exact E|]. rewrite E. vm_compute. reflexivity.
Qed.

Lemma scenarioA_network_witness :
  MigrateLogger.migrate (txt "src/autoapp/NetworkManager.cpp") scenarioA =
  scenarioA_expected /\
  terminators (MigrateLogger.migrate (txt "src/autoapp/NetworkManager.cpp")
                                     scenarioA) = 1.
Proof.
  apply (scenarioA_network (txt "src/autoapp/NetworkManager.cpp")).
  - vm_compute. reflexivity.
  - vm_compute. reflexivity.
Defined.

(** C8 as stated fails: a path that contains [NetworkManager.cpp] and, before
    it, a directory named after an earlier pattern of the table gets that
    entry's category. *)
Lemma scenarioA_counterexample :
  is_in (txt "NetworkManager.cpp")
        (txt "src/autoapp/Service/NetworkManager.cpp") = true /\
  MigrateLogger.migrate (txt "src/autoapp/Service/NetworkManager.cpp") scenarioA
  <> scenarioA_expected /\
  MigrateLogger.migrate (txt "src/autoapp/Service/NetworkManager.cpp") scenarioA
  = txt "LOG_ERROR(ANDROID_AUTO, " ++ quoted (txt "connection lost") ++ txt ");".
Proof.
  repeat split; vm_compute; try reflexivity; discriminate.
Qed.

(* ================================================================== *)
(** * The shape of a call site *)
(* ================================================================== *)

Ltac invert_matches :=
  repeat match goal with
         | H : matches (Cat _ _) _ _ _ |- _ => inversion H; subst; clear H
         | H : matches (Group _ _) _ _ _ |- _ => inversion H; subst; clear H
         | H : matches (Lit _) _ _ _ |- _ => inversion H; subst; clear H
         | H : matches (Chr _) _ _ _ |- _ => inversion H; subst; clear H
         | H : matches (Star _) _ _ _ |- _ => inversion H; subst; clear H
         | H : matches (Plus _) _ _ _ |- _ => inversion H; subst; clear H
         end.

Lemma migrate_pattern_shape (w : text) (c c' : caps) :
  matches MigrateLogger.pattern w c c' ->
  exists sev ws1 ws2 content,
    w = txt "OPENAUTO_LOG(" ++ sev ++ txt ")" ++ ws1 ++ txt "<<" ++ ws2
            ++ content ++ txt ";" /\
    c' = (2, content) :: (1, sev) :: c /\
    sev <> [] /\ forallb is_word sev = true /\
    forallb is_space ws1 = true /\ forallb is_space ws2 = true /\
    content <> [] /\ forallb (is_not ";") content = true.
Proof.
  unfold MigrateLogger.pattern. intros H. invert_matches.
  match goal with
  | |- context [(2, ?content) :: (1, ?sev) :: _] =>
      exists sev; match goal with
                  | H1 : forallb is_space ?a = true,
                    H2 : forallb is_space ?b = true |- context [?a ++ _ ++ ?b ++ _] =>
                      exists a, b, content
                  | H1 : forallb is_space ?a = true |- context [?a ++ _ ++ ?a ++ _] =>
                      exists a, a, content
                  end
  end.
  repeat split; try assumption; reflexivity.
Qed.

Lemma modern_pattern_shape (w : text) (c c' : caps) :
  matches ModernLogger.pattern w c c' ->
  exists ws0 ws1 sev ws2 ws3 content,
    w = txt "OPENAUTO_LOG" ++ ws0 ++ txt "(" ++ ws1 ++ sev ++ ws2 ++ txt ")"
            ++ ws3 ++ txt "<<" ++ content ++ txt ";" /\
    c' = (2, content) :: (1, sev) :: c /\
    sev <> [] /\ forallb is_word sev = true /\
    forallb is_space ws0 = true /\ forallb is_space ws1 = true /\
    forallb is_space ws2 = true /\ forallb is_space ws3 = true /\
    content <> [] /\ forallb (is_not ";") content = true.
Proof.
  unfold ModernLogger.pattern. intros H. invert_matches.
  do 6 eexists. split; [reflexivity|]. split; [reflexivity|].
  repeat split; assumption.
Qed.

(** ** Characters that an operation cannot add *)

Lemma count_zero_forall (s : text) (c : ascii) :
  count s c = 0 <-> (forall x, In x s -> x <> c).
Proof.
  unfold count. induction s as [|y s IH]; simpl.
  - split; [intros _ x [] | reflexivity].
  - destruct (Ascii.eqb c y) eqn:E.
    + split; [discriminate|]. intros H. exfalso.
      apply Ascii.eqb_eq in E. apply (H y); auto.
    + rewrite IH. split.
      * intros H x [<-|Hx]; [|apply H, Hx].
        intros ->. rewrite eqb_ascii_refl in E. discriminate.
      * intros H x Hx. apply H. right. exact Hx.
Qed.

Lemma count_zero_incl (a b : text) (c : ascii) :
  incl a b -> count b c = 0 -> count a c = 0.
Proof.
  intros Hincl Hb. apply count_zero_forall. intros x Hx.
  apply (proj1 (count_zero_forall b c) Hb). apply Hincl, Hx.
Qed.

Lemma incl_lstrip (s : text) : incl (lstrip s) s.
Proof.
  induction s as [|c s IH]; simpl.
  - apply incl_refl.
  - destruct (is_space c); [apply incl_tl, IH | apply incl_refl].
Qed.

Lemma incl_rstrip (s : text) : incl (rstrip s) s.
Proof.
  unfold rstrip. intros x Hx. apply in_rev in Hx.
  apply incl_lstrip in Hx. apply in_rev. exact Hx.
Qed.

Lemma incl_strip (s : text) : incl (strip s) s.
Proof.
  unfold strip. intros x Hx. apply incl_lstrip, incl_rstrip, Hx.
Qed.

Lemma incl_removelast (s : text) : incl (removelast s) s.
Proof.
  induction s as [|c s IH]; [apply incl_refl|].
  destruct s as [|d s]; [intros x []|].
  change (removelast (c :: d :: s)) with (c :: removelast (d :: s)).
  intros x [<-|Hx]; [left; reflexivity | right; apply IH, Hx].
Qed.

Lemma incl_slice (s : text) : incl (slice_1_m1 s) s.
Proof.
  unfold slice_1_m1. intros x Hx. apply incl_removelast in Hx.
  destruct s; [exact Hx | right; exact Hx].
Qed.

Lemma incl_skipn (n : nat) (s : text) : incl (skipn n s) s.
Proof.
  revert s. induction n as [|n IH]; intros s; [apply incl_refl|].
  destruct s as [|c s]; [apply incl_refl|]. simpl. apply incl_tl, IH.
Qed.

Lemma incl_extract_message (content : text) :
  incl (MigrateLogger.extract_message_from_stream content) content.
Proof.
  unfold MigrateLogger.extract_message_from_stream.
  assert (H : incl (sub_at_start MigrateLogger.TAG_PATTERN [] content) content).
  { unfold sub_at_start.
    destruct (exec MigrateLogger.TAG_PATTERN content);
      [apply incl_skipn | apply incl_refl]. }
  intros x Hx. apply incl_strip in Hx. apply H.
  destruct (startswith _ _ && endswith _ _); [apply incl_slice, Hx | exact Hx].
Qed.

Lemma dict_get_in (d : list (text * text)) (key v : text) :
  dict_get d key = Some v -> In v (map snd d).
Proof.
  induction d as [|[k0 v0] d IH]; simpl; intros H; [discriminate|].
  destruct (teqb k0 key).
  - inversion H; subst. left. reflexivity.
  - right. apply IH, H.
Qed.

Lemma migrate_category_values (p context : text) :
  In (MigrateLogger.determine_category p context)
     (txt "GENERAL" :: map snd MigrateLogger.CATEGORY_MAPPING).
Proof.
  unfold MigrateLogger.determine_category.
  destruct (category_loop _ (lower p)) as [c1|] eqn:E1.
  - right. destruct (category_loop_in _ _ _ E1) as (q & Hq).
    apply (in_map snd) in Hq. exact Hq.
  - destruct (category_loop _ (lower context)) as [c2|] eqn:E2.
    + right. destruct (category_loop_in _ _ _ E2) as (q & Hq).
      apply (in_map snd) in Hq. exact Hq.
    + left. reflexivity.
Qed.

Lemma modern_category_values (p context : text) :
  In (ModernLogger.determine_category p context)
     (txt "GENERAL" :: map snd ModernLogger.CATEGORY_MAPPING).
Proof.
  unfold ModernLogger.determine_category.
  destruct (category_loop _ (lower p)) as [c1|] eqn:E1.
  - right. destruct (category_loop_in _ _ _ E1) as (q & Hq).
    apply (in_map snd) in Hq. exact Hq.
  - destruct (category_loop _ (lower context)) as [c2|] eqn:E2.
    + right. destruct (category_loop_in _ _ _ E2) as (q & Hq).
      apply (in_map snd) in Hq. exact Hq.
    + left. reflexivity.
Qed.

Lemma forallb_In_true (A : Type) (f : A -> bool) (l : list A) (x : A) :
  forallb f l = true -> In x l -> f x = true.
Proof. intros H Hx. apply (proj1 (forallb_forall f l) H x Hx). Qed.

Lemma no_terminator_in_names (v : text) :
  In v (txt "GENERAL" :: map snd MigrateLogger.CATEGORY_MAPPING
            ++ map snd ModernLogger.CATEGORY_MAPPING
            ++ map snd MigrateLogger.SEVERITY_MAPPING
            ++ map snd ModernLogger.SEVERITY_MAPPING) ->
  terminators v = 0.
Proof.
  intros H. apply Nat.eqb_eq.
  revert H.
  apply (forallb_In_true text (fun v => terminators v =? 0)).
  vm_compute. reflexivity.
Qed.

(* ================================================================== *)
(** * Statement terminators (C4) *)
(* ================================================================== *)

Lemma word_has_no_terminator (sev : text) :
  forallb is_word sev = true -> terminators sev = 0.
Proof.
  intros H. apply count_forallb_not. revert H. apply forallb_weaken.
  intros x Hx. unfold is_not. apply negb_true_iff.
  destruct (Ascii.eqb x ";") eqn:E; [|reflexivity].
  apply Ascii.eqb_eq in E. subst x. vm_compute in Hx. discriminate.
Qed.

Lemma space_has_no_terminator (ws : text) :
  forallb is_space ws = true -> terminators ws = 0.
Proof.
  intros H. apply count_forallb_not. revert H. apply forallb_weaken.
  intros x Hx. unfold is_not. apply negb_true_iff.
  destruct (Ascii.eqb x ";") eqn:E; [|reflexivity].
  apply Ascii.eqb_eq in E. subst x. vm_compute in Hx. discriminate.
Qed.

(** The sibling script gets it right: whatever [migrate_logger.py] puts in
    place of a call site, converted or not, holds exactly one terminator. *)
Lemma migrate_rewriter_one_terminator (source : text) (m : mobj)
      (file_path : text) :
  In m (finditer MigrateLogger.pattern source) ->
  terminators (fst (MigrateLogger.convert_log_call m file_path)) = 1.
Proof.
  intros Hsite.
  pose proof (finditer_matches _ _ _ migrate_pattern_min_len Hsite) as Hm.
  destruct (migrate_pattern_shape _ _ _ Hm)
    as (sev & ws1 & ws2 & content & Hw & Hc & _ & Hsev & Hws1 & Hws2 & _ & Hcont).
  unfold MigrateLogger.convert_log_call. cbv zeta.
  assert (Hg2 : group m 2 = content) by (unfold group; rewrite Hc; reflexivity).
  assert (Hg0 : group m 0 = group0 m) by reflexivity.
  destruct (dict_get MigrateLogger.SEVERITY_MAPPING (group m 1)) as [macro|] eqn:Hd.
  - cbn [fst]. unfold terminators. rewrite !count_app, Hg2.
    fold (terminators macro).
    fold (terminators (MigrateLogger.determine_category file_path content)).
    rewrite (no_terminator_in_names macro).
    + rewrite (no_terminator_in_names
                 (MigrateLogger.determine_category file_path content)).
      * rewrite (count_zero_incl _ _ _ (incl_extract_message content)
                                 (count_forallb_not _ _ Hcont)).
        reflexivity.
      * destruct (migrate_category_values file_path content) as [<-|Hin].
        -- left. reflexivity.
        -- right. apply in_or_app. left. exact Hin.
    + right. apply in_or_app. right. apply in_or_app. right.
      apply in_or_app. left. apply (dict_get_in _ _ _ Hd).
  - cbn [fst]. rewrite Hg0, Hw. unfold terminators. rewrite !count_app.
    fold (terminators sev) (terminators ws1) (terminators ws2).
    rewrite (word_has_no_terminator _ Hsev), (space_has_no_terminator _ Hws1),
      (space_has_no_terminator _ Hws2), (count_forallb_not _ _ Hcont).
    reflexivity.
Qed.

(** C4 on [migrate_to_modern_logger.py]: the pattern consumes the terminator
    of the call, and the replacement [convert_log_call] builds for a
    recognized severity ends with the closing parenthesis: it holds no
    terminator at all. *)
Theorem modern_rewriter_drops_terminator :
  forall (source : text) (m : mobj) (file_path : text),
    In m (finditer ModernLogger.pattern source) ->
    unrecognized ModernLogger.SEVERITY_MAPPING (strip (group m 1)) = false ->
    terminators (group0 m) = 1 /\
    terminators (fst (ModernLogger.convert_log_call m file_path)) = 0.
Proof.
  intros source m file_path Hsite Hknown.
  pose proof (finditer_matches _ _ _ modern_pattern_min_len Hsite) as Hm.
  destruct (modern_pattern_shape _ _ _ Hm)
    as (ws0 & ws1 & sev & ws2 & ws3 & content & Hw & Hc & _ & Hsev
        & Hws0 & Hws1 & Hws2 & Hws3 & _ & Hcont).
  split.
  - rewrite Hw. unfold terminators. rewrite !count_app.
    fold (terminators sev) (terminators ws0) (terminators ws1)
         (terminators ws2) (terminators ws3).
    rewrite (word_has_no_terminator _ Hsev), (space_has_no_terminator _ Hws0),
      (space_has_no_terminator _ Hws1), (space_has_no_terminator _ Hws2),
      (space_has_no_terminator _ Hws3), (count_forallb_not _ _ Hcont).
    reflexivity.
  - unfold ModernLogger.convert_log_call. cbv zeta.
    assert (Hg2 : group m 2 = content) by (unfold group; rewrite Hc; reflexivity).
    unfold unrecognized in Hknown.
    destruct (dict_get ModernLogger.SEVERITY_MAPPING (strip (group m 1)))
      as [macro|] eqn:Hd; [|discriminate].
    cbn [fst]. rewrite Hg2.
    assert (Hstrip : count (strip content) ";" = 0).
    { apply (count_zero_incl _ _ _ (incl_strip content)).
      apply count_forallb_not, Hcont. }
    assert (Hmacro : terminators macro = 0).
    { apply no_terminator_in_names. right. apply in_or_app. right.
      apply in_or_app. right. apply in_or_app. right.
      apply (dict_get_in _ _ _ Hd). }
    assert (Hcat : terminators
                     (ModernLogger.determine_category file_path (strip content)) = 0).
    { apply no_terminator_in_names.
      destruct (modern_category_values file_path (strip content)) as [<-|Hin].
      - left. reflexivity.
      - right. apply in_or_app. right. apply in_or_app. left. exact Hin. }
    unfold terminators in *. rewrite !count_app, Hmacro, Hcat.
    destruct (startswith (strip content) [dq] && endswith (strip content) [dq]).
    + rewrite Hstrip. reflexivity.
    + destruct (is_in (txt "<<") (strip content));
        rewrite !count_app, Hstrip; reflexivity.
Qed.

Lemma modern_rewriter_drops_terminator_witness :
  terminators scenarioA = 1 /\
  terminators
    (fst (ModernLogger.convert_log_call
            (MkMatch scenarioA [(2, txt " " ++ quoted (txt "connection lost"));
                                (1, txt "error")])
            (txt "NetworkManager.cpp"))) = 0.
Proof.
  apply (modern_rewriter_drops_terminator
           scenarioA
           (MkMatch scenarioA [(2, txt " " ++ quoted (txt "connection lost"));
                               (1, txt "error")])
           (txt "NetworkManager.cpp")).
  - vm_compute. left. reflexivity.
  - vm_compute. reflexivity.
Defined.

(** The text [migrate_to_modern_logger.py] leaves for Scenario A, without a
    terminator, next to the text [migrate_logger.py] leaves. *)
Lemma modern_scenarioA_unterminated :
  fst (ModernLogger.process_content (txt "NetworkManager.cpp") scenarioA false) =
  txt "OPENAUTO_LOG_ERROR(NETWORK, " ++ quoted (txt "connection lost") ++ txt ")" /\
  MigrateLogger.migrate (txt "NetworkManager.cpp") scenarioA =
  txt "LOG_ERROR(NETWORK, " ++ quoted (txt "connection lost") ++ txt ");".
Proof.
  split; vm_compute; reflexivity.
Qed.

(* ================================================================== *)
(** * Chains (C3) *)
(* ================================================================== *)

(** The sibling script gets it right: [migrate_to_modern_logger.py] passes
    the argument of a call, white space around it apart, either as it is or
    inside [(std::stringstream() << ...).str()] or [(...).str()], and adds no
    quote. *)
Lemma modern_chain_verbatim (m : mobj) (file_path macro : text) :
  dict_get ModernLogger.SEVERITY_MAPPING (strip (group m 1)) = Some macro ->
  let chain := strip (group m 2) in
  let category := ModernLogger.determine_category file_path chain in
  exists before after,
    fst (ModernLogger.convert_log_call m file_path) =
    macro ++ txt "(" ++ category ++ txt ", " ++ before ++ chain ++ after ++ txt ")" /\
    quotes before = 0 /\ quotes after = 0.
Proof.
  intros Hd chain category.
  unfold ModernLogger.convert_log_call. cbv zeta. rewrite Hd. cbn [fst].
  fold chain. fold category.
  destruct (startswith chain [dq] && endswith chain [dq]).
  - exists [], []. repeat split; reflexivity.
  - destruct (is_in (txt "<<") chain).
    + exists (txt "(std::stringstream() << "), (txt ").str()").
      repeat split; try reflexivity.
      repeat rewrite <- app_assoc. reflexivity.
    + exists (txt "("), (txt ").str()").
      repeat split; try reflexivity.
      repeat rewrite <- app_assoc. reflexivity.
Qed.

(** C3 on [migrate_logger.py]: [convert_log_call] puts every message between
    two quotes of its own, and [extract_message_from_stream] strips the white
    space at both ends of what is left once the outer quotes are removed.  A
    chain that ends with an expression comes out with two quotes more than it
    had, and a chain whose literals start or end with a blank loses them. *)
Theorem migrate_chain_not_verbatim :
  MigrateLogger.migrate (txt "App.cpp") (legacy_call (txt "info") chain_open) =
  txt "LOG_INFO(GENERAL, " ++ [dq] ++ chain_open ++ [dq] ++ txt ");" /\
  quotes (MigrateLogger.extract_message_from_stream chain_open) = quotes chain_open /\
  quotes (MigrateLogger.migrate (txt "App.cpp") (legacy_call (txt "info") chain_open))
  = quotes chain_open + 2 /\
  MigrateLogger.migrate (txt "App.cpp") (legacy_call (txt "info") chain_blanks) =
  txt "LOG_INFO(GENERAL, " ++ quoted (txt "a") ++ txt " << x << "
      ++ quoted (txt "b") ++ txt ");" /\
  is_in chain_blanks
        (MigrateLogger.migrate (txt "App.cpp")
                               (legacy_call (txt "info") chain_blanks)) = false.
Proof.
  repeat split; vm_compute; reflexivity.
Qed.

(* ================================================================== *)
(** * Repair of doubled quotes (C9) *)
(* ================================================================== *)

(** C9 on [fix_quotes.py]: the first substitution removes the doubled leading
    quote of Scenario E and with it the only place where the second
    substitution, which alone would give the canonical call, could match; the
    doubled trailing quote is left in the text. *)
Theorem fix_quotes_leaves_trailing_quote :
  FixQuotes.fix_content scenarioE =
  txt "LOG_ERROR(AUDIO, " ++ [dq] ++ txt "clip" ++ [dq; dq] ++ txt ");" /\
  FixQuotes.fix_content scenarioE <> scenarioE_expected /\
  sub FixQuotes.PATTERN1 FixQuotes.TEMPLATE1 scenarioE =
  FixQuotes.fix_content scenarioE /\
  sub FixQuotes.PATTERN2 FixQuotes.TEMPLATE2 scenarioE = scenarioE_expected /\
  returned (FixQuotes.fix_logger_quotes (txt "Audio.cpp") (file_with scenarioE))
  = true /\
  written (FixQuotes.fix_logger_quotes (txt "Audio.cpp") (file_with scenarioE))
  <> Some scenarioE_expected.
Proof.
  repeat split; vm_compute; try reflexivity; discriminate.
Qed.

(* ================================================================== *)
(** * The scripts beyond the call rewriter *)
(* ================================================================== *)

(** ** More on strings *)

Lemma teqb_eq (s t : text) : teqb s t = true <-> s = t.
Proof.
  revert t. induction s as [|a s IH]; intros [|b t]; simpl;
    try (split; [discriminate | congruence]).
  - split; reflexivity.
  - rewrite andb_true_iff, Ascii.eqb_eq, IH.
    split; [intros [-> ->]; reflexivity | intros H; inversion H; auto].
Qed.

Lemma teqb_refl (s : text) : teqb s s = true.
Proof. apply teqb_eq. reflexivity. Qed.

Lemma is_in_inside (x w a b : text) :
  is_in x w = true -> is_in x (a ++ w ++ b) = true.
Proof.
  intros H. destruct (is_in_split _ _ H) as (u & v & ->).
  replace (a ++ (u ++ x ++ v) ++ b) with ((a ++ u) ++ x ++ (v ++ b))
    by (repeat rewrite <- app_assoc; reflexivity).
  apply is_in_app.
Qed.

Lemma is_in_app_r (x a w : text) : is_in x w = true -> is_in x (a ++ w) = true.
Proof.
  intros H. pose proof (is_in_inside x w a [] H) as H'.
  rewrite app_nil_r in H'. exact H'.
Qed.

Lemma is_in_app_l (x w b : text) : is_in x w = true -> is_in x (w ++ b) = true.
Proof. intros H. apply (is_in_inside x w [] b H). Qed.

Lemma free_of_suffix (x a b : text) : free_of x (a ++ b) -> free_of x b.
Proof.
  unfold free_of. intros H. destruct (is_in x b) eqn:E; [|reflexivity].
  rewrite (is_in_app_r x a b E) in H. discriminate.
Qed.

Lemma startswith_app_l (s p t : text) :
  startswith s p = true -> startswith (s ++ t) p = true.
Proof.
  intros H. rewrite (startswith_split _ _ H), <- app_assoc.
  apply startswith_app.
Qed.

Lemma endswith_app (a b : text) : endswith (a ++ b) b = true.
Proof. unfold endswith. rewrite rev_app_distr. apply startswith_app. Qed.

Lemma endswith_app_r (a s e : text) :
  endswith s e = true -> endswith (a ++ s) e = true.
Proof.
  unfold endswith. intros H. rewrite rev_app_distr.
  apply startswith_app_l, H.
Qed.

Lemma lstrip_spaces (ws s : text) :
  forallb is_space ws = true -> lstrip (ws ++ s) = lstrip s.
Proof.
  induction ws as [|x ws IH]; simpl; intros H; [reflexivity|].
  apply andb_true_iff in H. destruct H as [Hx Hws]. rewrite Hx. apply IH, Hws.
Qed.

Lemma lstrip_stops (s : text) : stops is_space s -> lstrip s = s.
Proof. destruct s as [|x s]; simpl; intros H; [reflexivity | rewrite H; reflexivity]. Qed.

Lemma forallb_rev_space (ws : text) :
  forallb is_space ws = true -> forallb is_space (rev ws) = true.
Proof.
  intros H. apply forallb_forall. intros x Hx. apply in_rev in Hx.
  apply (proj1 (forallb_forall _ _) H x Hx).
Qed.

(** [strip] removes the white space around a text that neither starts nor
    ends with white space. *)
Lemma strip_around (ws1 u ws2 : text) :
  forallb is_space ws1 = true ->
  forallb is_space ws2 = true ->
  stops is_space u ->
  stops is_space (rev u) ->
  strip (ws1 ++ u ++ ws2) = u.
Proof.
  intros H1 H2 Hu Hr. unfold strip, rstrip.
  rewrite (lstrip_spaces _ _ H1).
  destruct u as [|x u].
  - assert (E : lstrip ([] ++ ws2) = []).
    { simpl. rewrite <- (app_nil_r ws2). apply (lstrip_spaces ws2 [] H2). }
    rewrite E. reflexivity.
  - rewrite (lstrip_stops ((x :: u) ++ ws2) Hu).
    rewrite rev_app_distr, (lstrip_spaces _ _ (forallb_rev_space _ H2)).
    rewrite (lstrip_stops _ Hr). apply rev_involutive.
Qed.

Lemma strip_lstrip (ws s : text) :
  forallb is_space ws = true -> strip (ws ++ s) = strip s.
Proof. intros H. unfold strip. rewrite (lstrip_spaces _ _ H). reflexivity. Qed.

Lemma lower_char_idempotent (c : ascii) : lower_char (lower_char c) = lower_char c.
Proof. destruct c as [[] [] [] [] [] [] [] []]; vm_compute; reflexivity. Qed.

Lemma lower_idempotent (s : text) : lower (lower s) = lower s.
Proof.
  unfold lower. rewrite map_map. apply map_ext. apply lower_char_idempotent.
Qed.

(** ** More on the matcher *)

Lemma takes_lit (l s : text) (c : caps) : takes (Lit l) l s c c.
Proof. intros R k res Hk. rewrite run_lit_app. exact Hk. Qed.

Lemma takes_chr (a : ascii) (s : text) (c : caps) : takes (Chr a) [a] s c c.
Proof. intros R k res Hk. simpl app. rewrite run_chr_cons. exact Hk. Qed.

Lemma takes_star (cls : ascii -> bool) (w s : text) (c : caps) :
  forallb cls w = true -> stops cls s -> takes (Star cls) w s c c.
Proof. intros Hw Hs R k res Hk. apply run_star_max; assumption. Qed.

Lemma takes_plus (cls : ascii -> bool) (w s : text) (c : caps) :
  w <> [] -> forallb cls w = true -> stops cls s -> takes (Plus cls) w s c c.
Proof. intros Hne Hw Hs R k res Hk. apply run_plus_max; assumption. Qed.

Lemma takes_group (n : nat) (r : regex) (w s : text) (c c' : caps) :
  takes r w s c c' -> takes (Group n r) w s c ((n, w) :: c').
Proof.
  intros H R k res Hk. cbn [run]. apply H.
  rewrite firstn_consumed. exact Hk.
Qed.

Lemma takes_cat (r1 r2 : regex) (w1 w2 s : text) (c c1 c2 : caps) :
  takes r1 w1 (w2 ++ s) c c1 -> takes r2 w2 s c1 c2 ->
  takes (Cat r1 r2) (w1 ++ w2) s c c2.
Proof.
  intros H1 H2 R k res Hk. rewrite run_cat, <- app_assoc.
  apply H1. apply H2. exact Hk.
Qed.

Lemma takes_exec (r : regex) (w s : text) (c' : caps) :
  takes r w s [] c' -> exec r (w ++ s) = Some (MkMatch w c').
Proof.
  intros H. unfold exec. apply H. rewrite firstn_consumed. reflexivity.
Qed.

(** [re.sub] as a rendering of the scan. *)
Lemma sub_rendered (r : regex) (f : mobj -> text) (s : text) :
  sub r f s = flat_map (rendered f) (scan r 0 s).
Proof.
  unfold sub, sub_st. generalize (scan r 0 s). intros segs.
  induction segs as [|[c|m] segs IH]; simpl.
  - reflexivity.
  - destruct (sub_segs _ segs tt) as [o st]. simpl in *. rewrite IH. reflexivity.
  - destruct (sub_segs _ segs tt) as [o st]. simpl in *. rewrite IH. reflexivity.
Qed.

(** A match at the head of the text is replaced, and the substitution goes on
    after it. *)
Lemma sub_head (r : regex) (f : mobj -> text) (w rest : text) (c' : caps) :
  w <> [] -> takes r w rest [] c' ->
  sub r f (w ++ rest) = f (MkMatch w c') ++ sub r f rest.
Proof.
  intros Hne Ht. rewrite !sub_rendered.
  rewrite (scan_hit r (w ++ rest) (MkMatch w c') rest (takes_exec _ _ _ _ Ht) Hne
                    eq_refl).
  reflexivity.
Qed.

(** Where a word every match contains occurs nowhere, nothing is replaced. *)
Lemma scan_without (r : regex) (x s : text) :
  requires r x -> free_of x s -> scan r 0 s = map Keep s.
Proof.
  intros Hreq. induction s as [|c s IH]; intros Hf; [reflexivity|].
  simpl scan. destruct (exec r (c :: s)) as [m|] eqn:He.
  - exfalso. destruct (exec_sound _ _ _ He) as (rest & Es & Hm).
    apply Hreq in Hm. unfold free_of in Hf.
    rewrite Es, (is_in_app_l _ _ rest Hm) in Hf. discriminate.
  - simpl map. f_equal. apply IH. apply (free_of_cons _ _ _ Hf).
Qed.

Lemma sub_without (r : regex) (f : mobj -> text) (x s : text) :
  requires r x -> free_of x s -> sub r f s = s.
Proof.
  intros Hreq Hf. rewrite sub_rendered, (scan_without r x s Hreq Hf).
  clear. induction s as [|c s IH]; simpl; [reflexivity | rewrite IH; reflexivity].
Qed.

(** A literal inside a pattern is required by it. *)
Lemma requires_lit (l x : text) : is_in x l = true -> requires (Lit l) x.
Proof. intros H w c c' Hm. inversion Hm; subst. exact H. Qed.

Lemma requires_cat_l (r1 r2 : regex) (x : text) :
  requires r1 x -> requires (Cat r1 r2) x.
Proof.
  intros H w c c' Hm. inversion Hm; subst.
  apply is_in_app_l. eapply H. eassumption.
Qed.

Lemma requires_cat_r (r1 r2 : regex) (x : text) :
  requires r2 x -> requires (Cat r1 r2) x.
Proof.
  intros H w c c' Hm. inversion Hm; subst.
  apply is_in_app_r. eapply H. eassumption.
Qed.

Lemma requires_group (n : nat) (r : regex) (x : text) :
  requires r x -> requires (Group n r) x.
Proof. intros H w c c' Hm. inversion Hm; subst. eapply H. eassumption. Qed.

(** Every match of a scan lies in the text. *)
Lemma hits_inside (r : regex) (s : text) (m : mobj) :
  0 < min_len r -> In m (hits (scan r 0 s)) ->
  exists a b, s = a ++ group0 m ++ b.
Proof.
  intros Hr. revert m.
  apply (scan_induction r
           (fun s segs => forall m, In m (hits segs) ->
                                    exists a b, s = a ++ group0 m ++ b) Hr).
  - intros m [].
  - intros c s0 _ IH m Hm. destruct (IH m Hm) as (a & b & ->).
    exists (c :: a), b. reflexivity.
  - intros m0 rest _ _ IH m [<-|Hm].
    + exists [], rest. reflexivity.
    + destruct (IH m Hm) as (a & b & ->).
      exists (group0 m0 ++ a), b. rewrite <- app_assoc. reflexivity.
Qed.

Lemma existsb_is_hit_length (segs : list segment) :
  existsb is_hit segs = (0 <? length (hits segs)).
Proof.
  induction segs as [|[c|m] segs IH]; simpl; auto.
Qed.

(** A substitution whose replacements keep the count of a character keeps it
    for the whole text; likewise for the length. *)
Lemma sub_count (r : regex) (f : mobj -> text) (c : ascii) (s : text) :
  0 < min_len r ->
  (forall m, matches r (group0 m) [] (captured m) ->
             count (f m) c = count (group0 m) c) ->
  count (sub r f s) c = count s c.
Proof.
  intros Hr Hf. rewrite sub_rendered.
  apply (scan_induction r
           (fun s segs => count (flat_map (rendered f) segs) c = count s c) Hr).
  - reflexivity.
  - intros x s0 _ IH. simpl. change (x :: flat_map (rendered f) (scan r 0 s0))
      with ([x] ++ flat_map (rendered f) (scan r 0 s0)).
    change (x :: s0) with ([x] ++ s0). rewrite !count_app, IH. reflexivity.
  - intros m rest He _ IH. simpl. rewrite !count_app, IH. f_equal.
    apply Hf. destruct (exec_sound _ _ _ He) as (rest' & _ & Hm). exact Hm.
Qed.

Lemma sub_length_le (r : regex) (f : mobj -> text) (s : text) :
  0 < min_len r ->
  (forall m, matches r (group0 m) [] (captured m) ->
             length (f m) <= length (group0 m)) ->
  length (sub r f s) <= length s.
Proof.
  intros Hr Hf. rewrite sub_rendered.
  apply (scan_induction r
           (fun s segs => length (flat_map (rendered f) segs) <= length s) Hr).
  - simpl. lia.
  - intros x s0 _ IH. simpl. lia.
  - intros m rest He _ IH. simpl. rewrite !length_app.
    destruct (exec_sound _ _ _ He) as (rest' & _ & Hm).
    specialize (Hf m Hm). lia.
Qed.

(* ================================================================== *)
(** * [process_file] as a whole *)
(* ================================================================== *)

Lemma migrate_process_content_modified (file_path content : text) :
  modified (snd (MigrateLogger.process_content file_path content)) =
  is_in MigrateLogger.OLD_INCLUDE content ||
  (0 <? length (finditer MigrateLogger.pattern (migrate_includes content))).
Proof.
  rewrite migrate_process_content_eq. unfold sub_st.
  rewrite (sub_segs_replace_func _ _ (migrate_replace_func_spec file_path)).
  cbn [snd modified]. rewrite existsb_is_hit_length. reflexivity.
Qed.

Lemma modern_process_content_modified (file_path content : text) (dry : bool) :
  modified (snd (ModernLogger.process_content file_path content dry)) =
  is_in ModernLogger.OLD_INCLUDE content ||
  (0 <? length (finditer ModernLogger.pattern (modern_includes content))).
Proof.
  destruct (modern_process_content_eq file_path content dry) as (notes & _ & ->).
  unfold sub_st.
  rewrite (sub_segs_replace_func _ _ (modern_replace_func_spec file_path)).
  cbn [snd modified]. rewrite existsb_is_hit_length. reflexivity.
Qed.

Lemma modern_process_content_text (file_path content : text) (dry : bool) :
  fst (ModernLogger.process_content file_path content dry) =
  flat_map (render (fun m => ModernLogger.convert_log_call m file_path))
           (scan ModernLogger.pattern 0 (modern_includes content)).
Proof.
  destruct (modern_process_content_eq file_path content dry) as (notes & _ & ->).
  unfold sub_st.
  rewrite (sub_segs_replace_func _ _ (modern_replace_func_spec file_path)).
  reflexivity.
Qed.

(** X1: [process_file] of [migrate_logger.py] returns [True] exactly when the
    file could be read, held the legacy include directive or at least one
    call the pattern matches, and could be written, and the file then holds
    the migrated text.  When there was something to change and the write
    fails, [False] is returned and the file is left as the failed write
    leaves it, emptied or partly written once [open] has succeeded.  When the
    file cannot be read or holds nothing to change, it is not opened for
    writing. *)
Theorem migrate_process_file_outcome :
  forall (file_path : text) (io : file_io),
    match read_result io with
    | None =>
        returned (MigrateLogger.process_file file_path io) = false /\
        written (MigrateLogger.process_file file_path io) = None
    | Some content =>
        let changed :=
          is_in MigrateLogger.OLD_INCLUDE content ||
          (0 <? length (finditer MigrateLogger.pattern (migrate_includes content))) in
        returned (MigrateLogger.process_file file_path io) = changed && write_ok io /\
        written (MigrateLogger.process_file file_path io) =
        if changed
        then if write_ok io
             then Some (MigrateLogger.migrate file_path content)
             else left_by_failed_write io
        else None
    end.
Proof.
  intros file_path io. unfold MigrateLogger.process_file, MigrateLogger.migrate.
  destruct (read_result io) as [content|]; [|split; reflexivity].
  cbv zeta. rewrite <- (migrate_process_content_modified file_path content).
  destruct (MigrateLogger.process_content file_path content) as [out st].
  cbn [fst snd]. destruct (modified st); destruct (write_ok io); split; reflexivity.
Qed.

(** X2: a dry run of [process_file] of [migrate_to_modern_logger.py] never
    writes; it returns [True] exactly when the file could be read and held the
    legacy include directive or a call, which is what a real run returns when
    the file can also be written; and it computes the same text as the real
    run. *)
Theorem modern_dry_run_previews :
  forall (file_path : text) (io : file_io),
    written (ModernLogger.process_file file_path true io) = None /\
    returned (ModernLogger.process_file file_path true io) =
    match read_result io with
    | None => false
    | Some content =>
        is_in ModernLogger.OLD_INCLUDE content ||
        (0 <? length (finditer ModernLogger.pattern (modern_includes content)))
    end /\
    returned (ModernLogger.process_file file_path false io) =
    returned (ModernLogger.process_file file_path true io) && write_ok io /\
    forall content,
      fst (ModernLogger.process_content file_path content true) =
      fst (ModernLogger.process_content file_path content false).
Proof.
  intros file_path io. unfold ModernLogger.process_file.
  destruct (read_result io) as [content|].
  - pose proof (modern_process_content_modified file_path content true) as Ht.
    pose proof (modern_process_content_modified file_path content false) as Hf.
    destruct (ModernLogger.process_content file_path content true) as [out1 st1].
    destruct (ModernLogger.process_content file_path content false) as [out2 st2].
    cbn [snd] in Ht, Hf. cbn [negb]. rewrite andb_false_r, andb_true_r.
    repeat split.
    + exact Ht.
    + cbn [returned]. rewrite Ht, Hf.
      destruct (is_in ModernLogger.OLD_INCLUDE content
                || (0 <? length (finditer ModernLogger.pattern
                                          (modern_includes content))));
        destruct (write_ok io); reflexivity.
    + intros content0. rewrite !modern_process_content_text. reflexivity.
  - repeat split. intros content0.
    rewrite !modern_process_content_text. reflexivity.
Qed.

(* ================================================================== *)
(** * Messages *)
(* ================================================================== *)

Lemma quoted_starts (t : text) : startswith (quoted t) [dq] = true.
Proof. reflexivity. Qed.

Lemma quoted_ends (t : text) : endswith (quoted t) [dq] = true.
Proof.
  unfold quoted. replace ([dq] ++ t ++ [dq]) with (([dq] ++ t) ++ [dq])
    by (rewrite <- app_assoc; reflexivity).
  apply endswith_app.
Qed.

Lemma quoted_slice (t : text) : slice_1_m1 (quoted t) = t.
Proof. unfold slice_1_m1, quoted. simpl. apply removelast_last. Qed.

Lemma quoted_stops (t : text) :
  stops is_space (quoted t) /\ stops is_space (rev (quoted t)).
Proof.
  split; [reflexivity|]. unfold quoted. simpl.
  rewrite rev_app_distr. reflexivity.
Qed.

(** X3: for a message that is one quoted literal,
    [extract_message_from_stream] of [migrate_logger.py] returns the text
    between the quotes with the white space at its ends removed; a tag in
    brackets at the start of the literal is kept, since the pattern that
    removes tags is anchored where the quote stands. *)
Theorem migrate_extract_quoted :
  forall t : text,
    MigrateLogger.extract_message_from_stream (quoted t) = strip t.
Proof.
  intros t. unfold MigrateLogger.extract_message_from_stream.
  assert (E : sub_at_start MigrateLogger.TAG_PATTERN [] (quoted t) = quoted t)
    by reflexivity.
  rewrite E, quoted_starts, quoted_ends, quoted_slice. reflexivity.
Qed.

Lemma tag_pattern_takes (tag ws rest : text) :
  tag <> [] ->
  forallb is_tag_char tag = true ->
  forallb is_space ws = true ->
  stops is_space rest ->
  takes MigrateLogger.TAG_PATTERN (txt "[" ++ tag ++ txt "]" ++ ws) rest [] [].
Proof.
  intros Hne Htag Hws Hrest. unfold MigrateLogger.TAG_PATTERN.
  eapply takes_cat; [apply takes_chr|].
  eapply takes_cat; [apply takes_plus; [exact Hne | exact Htag | reflexivity]|].
  eapply takes_cat; [apply takes_chr|].
  apply takes_star; assumption.
Qed.

(** X4: a message that starts with a tag in brackets (word characters and
    colons), followed by white space, loses both; what follows is then
    unquoted, if it starts and ends with a quote, and stripped. *)
Theorem migrate_extract_drops_tag :
  forall (tag ws rest : text),
    tag <> [] ->
    forallb is_tag_char tag = true ->
    forallb is_space ws = true ->
    stops is_space rest ->
    MigrateLogger.extract_message_from_stream
      (txt "[" ++ tag ++ txt "]" ++ ws ++ rest) =
    unquote_and_strip rest.
Proof.
  intros tag ws rest Hne Htag Hws Hrest.
  unfold MigrateLogger.extract_message_from_stream, unquote_and_strip.
  assert (E : sub_at_start MigrateLogger.TAG_PATTERN []
                (txt "[" ++ tag ++ txt "]" ++ ws ++ rest) = rest).
  { unfold sub_at_start.
    replace (txt "[" ++ tag ++ txt "]" ++ ws ++ rest)
      with ((txt "[" ++ tag ++ txt "]" ++ ws) ++ rest)
      by (repeat rewrite <- app_assoc; reflexivity).
    rewrite (takes_exec _ _ _ _ (tag_pattern_takes tag ws rest Hne Htag Hws Hrest)).
    cbn [group0 app]. apply skipn_consumed. }
  rewrite E. reflexivity.
Qed.

Lemma migrate_extract_drops_tag_witness :
  MigrateLogger.extract_message_from_stream
    (txt "[" ++ txt "App::run" ++ txt "]" ++ txt "  "
         ++ quoted (txt "started ")) =
  txt "started".
Proof.
  rewrite (migrate_extract_drops_tag (txt "App::run") (txt "  ")
                                     (quoted (txt "started "))).
  - vm_compute. reflexivity.
  - discriminate.
  - reflexivity.
  - reflexivity.
  - reflexivity.
Defined.

(** X5: [extract_message_from_stream] of [migrate_to_modern_logger.py]
    returns the inside of a quoted literal, white space around the literal
    apart, when the literal holds no quote of its own; otherwise it returns
    the literal with its quotes. *)
Theorem modern_extract_quoted :
  forall (ws1 t ws2 : text),
    forallb is_space ws1 = true ->
    forallb is_space ws2 = true ->
    ModernLogger.extract_message_from_stream (ws1 ++ quoted t ++ ws2) =
    if quotes t =? 0 then t else quoted t.
Proof.
  intros ws1 t ws2 H1 H2. unfold ModernLogger.extract_message_from_stream.
  destruct (quoted_stops t) as [Hs Hr].
  rewrite (strip_around ws1 (quoted t) ws2 H1 H2 Hs Hr).
  rewrite quoted_starts, quoted_ends, quoted_slice. cbn [andb].
  assert (E : count (quoted t) dq = S (S (quotes t))).
  { unfold quoted, quotes. rewrite !count_app.
    change (count [dq] dq) with 1. lia. }
  rewrite E. destruct (quotes t); reflexivity.
Qed.

Lemma modern_extract_quoted_witness :
  ModernLogger.extract_message_from_stream
    (txt " " ++ quoted (txt "connection lost") ++ txt "  ") =
  txt "connection lost".
Proof.
  rewrite (modern_extract_quoted (txt " ") (txt "connection lost") (txt "  "));
    reflexivity.
Defined.

(* ================================================================== *)
(** * Converting a call with a literal message *)
(* ================================================================== *)

(** Brings both sides of an equation between texts to one shape. *)
Ltac flatten_text :=
  repeat (progress (simpl; repeat rewrite <- app_assoc)).

Lemma migrate_severity_words (severity macro : text) :
  dict_get MigrateLogger.SEVERITY_MAPPING severity = Some macro ->
  severity <> [] /\ forallb is_word severity = true.
Proof.
  unfold MigrateLogger.SEVERITY_MAPPING, dict_get.
  repeat match goal with
         | |- (if teqb ?k severity then _ else _) = _ -> _ =>
             destruct (teqb k severity) eqn:E;
             [apply teqb_eq in E; subst severity; intros _;
              split; [discriminate | reflexivity] | clear E]
         end.
  discriminate.
Qed.

Lemma migrate_free_text (file_path content : text) :
  free_of MigrateLogger.OLD_INCLUDE content ->
  MigrateLogger.migrate file_path content =
  flat_map (render (fun m => MigrateLogger.convert_log_call m file_path))
           (scan MigrateLogger.pattern 0 content).
Proof.
  intros Hf. unfold MigrateLogger.migrate.
  rewrite migrate_process_content_eq. unfold migrate_includes.
  unfold free_of in Hf. rewrite Hf. unfold sub_st.
  rewrite (sub_segs_replace_func _ _ (migrate_replace_func_spec file_path)).
  reflexivity.
Qed.

(** X6: in a file without the legacy include directive, a call with a
    recognized severity and one quoted literal without semicolon as message,
    written as the scripts' comments write it, becomes the mapped macro
    applied to the category and to the literal with the white space at its
    ends removed, followed by one terminator; the text after the call is
    migrated as it would be on its own. *)
Theorem migrate_literal_call :
  forall (file_path severity macro t rest : text),
    dict_get MigrateLogger.SEVERITY_MAPPING severity = Some macro ->
    forallb (is_not ";") t = true ->
    free_of MigrateLogger.OLD_INCLUDE (legacy_call severity (quoted t) ++ rest) ->
    MigrateLogger.migrate file_path (legacy_call severity (quoted t) ++ rest) =
    macro ++ txt "("
          ++ MigrateLogger.determine_category file_path (quoted t)
          ++ txt ", " ++ quoted (strip t) ++ txt ");"
          ++ MigrateLogger.migrate file_path rest.
Proof.
  intros file_path severity macro t rest Hsev Ht Hfree.
  destruct (migrate_severity_words _ _ Hsev) as [Hne Hword].
  rewrite (migrate_free_text _ _ Hfree).
  rewrite (migrate_free_text _ _ (free_of_suffix _ _ _ Hfree)).
  assert (Hcont : forallb (is_not ";") (dq :: t ++ [dq]) = true).
  { simpl. rewrite forallb_app, Ht. reflexivity. }
  pose proof (migrate_pattern_on_call severity (txt " ") (txt " ") dq
                (t ++ [dq]) rest Hne Hword eq_refl eq_refl eq_refl Hcont) as He.
  assert (Es : legacy_call severity (quoted t) ++ rest =
               txt "OPENAUTO_LOG(" ++ severity ++ txt ")" ++ txt " " ++ txt "<<"
                   ++ txt " " ++ (dq :: t ++ [dq]) ++ txt ";" ++ rest).
  { unfold legacy_call, quoted. flatten_text. reflexivity. }
  rewrite Es.
  erewrite scan_hit; [| exact He | discriminate |
                      cbn [group0]; flatten_text; reflexivity].
  cbn [flat_map render]. unfold MigrateLogger.convert_log_call at 1.
  cbv zeta. cbn [group cap_get captured Nat.eqb].
  rewrite Hsev. cbn [fst].
  change (dq :: t ++ [dq]) with (quoted t).
  rewrite migrate_extract_quoted. unfold quoted.
  flatten_text. reflexivity.
Qed.

Lemma migrate_literal_call_witness :
  MigrateLogger.migrate (txt "src/Camera.cpp")
    (legacy_call (txt "warning") (quoted (txt " lens (1) missing "))
                 ++ txt " return;") =
  txt "LOG_WARN(CAMERA, " ++ quoted (txt "lens (1) missing") ++ txt "); return;".
Proof.
  rewrite (migrate_literal_call (txt "src/Camera.cpp") (txt "warning")
                                (txt "LOG_WARN") (txt " lens (1) missing ")
                                (txt " return;")).
  - vm_compute. reflexivity.
  - reflexivity.
  - reflexivity.
  - vm_compute. reflexivity.
Defined.

(* ================================================================== *)
(** * Categories and severities *)
(* ================================================================== *)

(** X7: [determine_category] looks at the path and at the message only up to
    the case of their letters, in both scripts. *)
Theorem determine_category_ignores_case :
  forall (file_path context : text),
    MigrateLogger.determine_category (lower file_path) (lower context) =
    MigrateLogger.determine_category file_path context /\
    ModernLogger.determine_category (lower file_path) (lower context) =
    ModernLogger.determine_category file_path context.
Proof.
  intros file_path context.
  unfold MigrateLogger.determine_category, ModernLogger.determine_category.
  rewrite !lower_idempotent. split; reflexivity.
Qed.

(** X8: whatever the path and the message, [determine_category] returns
    GENERAL or a category of the table, in both scripts. *)
Theorem determine_category_range :
  forall (file_path context : text),
    In (MigrateLogger.determine_category file_path context)
       (txt "GENERAL" :: map snd MigrateLogger.CATEGORY_MAPPING) /\
    In (ModernLogger.determine_category file_path context)
       (txt "GENERAL" :: map snd ModernLogger.CATEGORY_MAPPING).
Proof.
  intros file_path context. split.
  - apply migrate_category_values.
  - apply modern_category_values.
Qed.

(** X9: no entry of either category table is hidden by an earlier one: a
    path that is just the pattern of an entry gets the category of that
    entry. *)
Theorem category_tables_have_no_hidden_entry :
  (forall pattern category context,
      In (pattern, category) MigrateLogger.CATEGORY_MAPPING ->
      MigrateLogger.determine_category pattern context = category) /\
  (forall pattern category context,
      In (pattern, category) ModernLogger.CATEGORY_MAPPING ->
      ModernLogger.determine_category pattern context = category).
Proof.
  split; intros pattern category context Hin;
    unfold MigrateLogger.determine_category, ModernLogger.determine_category;
    repeat (destruct Hin as [Hin|Hin];
            [inversion Hin; subst pattern category; reflexivity|]);
    destruct Hin.
Qed.

Lemma category_tables_have_no_hidden_entry_witness :
  MigrateLogger.determine_category (txt "Navigation") (txt "Camera") =
  txt "ANDROID_AUTO".
Proof.
  destruct category_tables_have_no_hidden_entry as [Hmigrate _].
  apply (Hmigrate (txt "Navigation") (txt "ANDROID_AUTO") (txt "Camera")).
  vm_compute. do 8 right. left. reflexivity.
Defined.

(** X10: the two scripts recognize the same severities, and the macro of
    [migrate_to_modern_logger.py] is the macro of [migrate_logger.py] with
    [OPENAUTO_] in front. *)
Theorem severity_mappings_agree :
  forall severity : text,
    dict_get ModernLogger.SEVERITY_MAPPING severity =
    option_map (fun macro => txt "OPENAUTO_" ++ macro)
               (dict_get MigrateLogger.SEVERITY_MAPPING severity).
Proof.
  intros severity.
  unfold ModernLogger.SEVERITY_MAPPING, MigrateLogger.SEVERITY_MAPPING, dict_get.
  repeat match goal with
         | |- context [teqb ?k severity] => destruct (teqb k severity)
         end; reflexivity.
Qed.

(* ================================================================== *)
(** * What the rewriters add and what they keep *)
(* ================================================================== *)

(** X11: whatever [convert_log_call] of [migrate_logger.py] returns for a
    call site of a text, converted or left as it was, holds exactly one
    statement terminator. *)
Theorem migrate_replacement_has_one_terminator :
  forall (source : text) (m : mobj) (file_path : text),
    In m (finditer MigrateLogger.pattern source) ->
    terminators (fst (MigrateLogger.convert_log_call m file_path)) = 1.
Proof.
  intros source m file_path Hsite.
  apply (migrate_rewriter_one_terminator source m file_path Hsite).
Qed.

Lemma migrate_replacement_has_one_terminator_witness :
  terminators
    (fst (MigrateLogger.convert_log_call
            (MkMatch scenarioD [(2, quoted (txt "x")); (1, txt "critical")])
            (txt "App.cpp"))) = 1.
Proof.
  apply (migrate_replacement_has_one_terminator scenarioD).
  vm_compute. left. reflexivity.
Defined.

Lemma no_quote_in_names (v : text) :
  In v (txt "GENERAL" :: map snd ModernLogger.CATEGORY_MAPPING
            ++ map snd ModernLogger.SEVERITY_MAPPING) ->
  quotes v = 0.
Proof.
  intros H. apply Nat.eqb_eq. revert H.
  apply (forallb_In_true text (fun v => quotes v =? 0)).
  vm_compute. reflexivity.
Qed.

(** X12: [convert_log_call] of [migrate_to_modern_logger.py] adds no quote:
    for a recognized severity, its replacement holds as many double quotes
    as the argument of the call between [<<] and the semicolon. *)
Theorem modern_rewriter_adds_no_quote :
  forall (m : mobj) (file_path : text),
    unrecognized ModernLogger.SEVERITY_MAPPING (strip (group m 1)) = false ->
    quotes (fst (ModernLogger.convert_log_call m file_path)) =
    quotes (strip (group m 2)).
Proof.
  intros m file_path Hknown.
  unfold ModernLogger.convert_log_call. cbv zeta.
  unfold unrecognized in Hknown.
  destruct (dict_get ModernLogger.SEVERITY_MAPPING (strip (group m 1)))
    as [macro|] eqn:Hd; [|discriminate].
  cbn [fst].
  assert (Hmacro : quotes macro = 0).
  { apply no_quote_in_names. right. apply in_or_app. right.
    apply (dict_get_in _ _ _ Hd). }
  assert (Hcat : quotes (ModernLogger.determine_category
                           file_path (strip (group m 2))) = 0).
  { apply no_quote_in_names.
    destruct (modern_category_values file_path (strip (group m 2))) as [<-|Hin].
    - left. reflexivity.
    - right. apply in_or_app. left. exact Hin. }
  unfold quotes in *. rewrite !count_app, Hmacro, Hcat.
  destruct (startswith (strip (group m 2)) [dq]
            && endswith (strip (group m 2)) [dq]).
  - change (count (txt "(") dq) with 0. change (count (txt ", ") dq) with 0.
    change (count (txt ")") dq) with 0. lia.
  - destruct (is_in (txt "<<") (strip (group m 2))); rewrite !count_app;
      change (count (txt "(") dq) with 0; change (count (txt ", ") dq) with 0;
      change (count (txt ")") dq) with 0;
      change (count (txt ").str()") dq) with 0;
      change (count (txt "(std::stringstream() << ") dq) with 0; lia.
Qed.

Lemma modern_rewriter_adds_no_quote_witness :
  quotes
    (fst (ModernLogger.convert_log_call
            (MkMatch (legacy_call (txt "info") chain_open)
                     [(2, txt " " ++ chain_open); (1, txt "info")])
            (txt "App.cpp"))) = 2.
Proof.
  rewrite (modern_rewriter_adds_no_quote
             (MkMatch (legacy_call (txt "info") chain_open)
                      [(2, txt " " ++ chain_open); (1, txt "info")])
             (txt "App.cpp")).
  - vm_compute. reflexivity.
  - vm_compute. reflexivity.
Defined.

(** X13: every call the pattern of [migrate_logger.py] matches is matched by
    the pattern of [migrate_to_modern_logger.py] at the same place, over the
    same text and with the same severity; the arguments the two extract
    differ by white space at the start at most. *)
Theorem modern_pattern_covers_migrate_pattern :
  forall (s : text) (m : mobj),
    exec MigrateLogger.pattern s = Some m ->
    exists m',
      exec ModernLogger.pattern s = Some m' /\
      group0 m' = group0 m /\
      group m' 1 = group m 1 /\
      strip (group m' 2) = strip (group m 2).
Proof.
  intros s m He.
  destruct (exec_sound _ _ _ He) as (rest & Es & Hm).
  destruct (migrate_pattern_shape _ _ _ Hm)
    as (sev & ws1 & ws2 & content & Hw & Hc & Hne & Hsev & Hws1 & Hws2
        & Hcne & Hcont).
  assert (Hall : forallb (is_not ";") (ws2 ++ content) = true).
  { rewrite forallb_app, Hcont, andb_true_r.
    revert Hws2. apply forallb_weaken. intros x Hx.
    unfold is_not. apply negb_true_iff.
    destruct (Ascii.eqb x ";") eqn:E; [|reflexivity].
    apply Ascii.eqb_eq in E. subst x. vm_compute in Hx. discriminate. }
  destruct (ws2 ++ content) as [|c0 cs] eqn:Earg.
  { destruct ws2; destruct content; simpl in Earg; congruence. }
  pose proof (modern_pattern_on_call [] [] sev [] ws1 c0 cs rest Hne Hsev
                eq_refl eq_refl eq_refl Hws1 Hall) as Hmod.
  rewrite <- Earg in Hmod.
  assert (Eg : txt "OPENAUTO_LOG" ++ [] ++ txt "(" ++ [] ++ sev ++ []
                   ++ txt ")" ++ ws1 ++ txt "<<" ++ (ws2 ++ content) ++ txt ";"
               = group0 m).
  { rewrite Hw. flatten_text. reflexivity. }
  assert (Ein : txt "OPENAUTO_LOG" ++ [] ++ txt "(" ++ [] ++ sev ++ []
                    ++ txt ")" ++ ws1 ++ txt "<<" ++ (ws2 ++ content) ++ txt ";"
                    ++ rest = s).
  { rewrite Es, Hw. flatten_text. reflexivity. }
  rewrite Ein, Eg in Hmod.
  exists (MkMatch (group0 m) [(2, ws2 ++ content); (1, sev)]).
  split; [exact Hmod|split; [reflexivity|split]].
  - unfold group. rewrite Hc. reflexivity.
  - unfold group. rewrite Hc. cbn [captured cap_get Nat.eqb].
    apply strip_lstrip, Hws2.
Qed.

Lemma modern_pattern_covers_migrate_pattern_witness :
  exists m',
    exec ModernLogger.pattern (scenarioA ++ txt " return;") = Some m' /\
    group0 m' = scenarioA /\
    group m' 1 = txt "error" /\
    strip (group m' 2) = quoted (txt "connection lost").
Proof.
  destruct (modern_pattern_covers_migrate_pattern
              (scenarioA ++ txt " return;")
              (MkMatch scenarioA [(2, quoted (txt "connection lost"));
                                  (1, txt "error")]))
    as (m' & He & H0 & H1 & H2).
  - vm_compute. reflexivity.
  - exists m'. repeat split; assumption.
Defined.

(* ================================================================== *)
(** * src/fix_quotes.py as a whole *)
(* ================================================================== *)

Lemma head_requires_nothing_but (r : regex) :
  requires (Cat FixQuotes.HEAD (Cat (Lit doubled_quote) r)) doubled_quote.
Proof.
  apply requires_cat_r, requires_cat_l, requires_lit. reflexivity.
Qed.

Lemma pattern3_requires : requires FixQuotes.PATTERN3 stray_terminator.
Proof.
  intros w c c' Hm. unfold FixQuotes.PATTERN3 in Hm. invert_matches.
  reflexivity.
Qed.

(** X14: a text that holds neither a doubled quote nor a quote and a
    terminator after the end of a call is left as it is by the four
    substitutions of [fix_logger_quotes], which then returns [False] and
    writes nothing. *)
Theorem fix_quotes_leaves_clean_text :
  forall (filepath content : text) (io : file_io),
    free_of doubled_quote content ->
    free_of stray_terminator content ->
    read_result io = Some content ->
    FixQuotes.fix_content content = content /\
    FixQuotes.fix_logger_quotes filepath io = MkOutcome false None [].
Proof.
  intros filepath content io Hd Hs Hread.
  assert (E : FixQuotes.fix_content content = content).
  { unfold FixQuotes.fix_content.
    rewrite (sub_without FixQuotes.PATTERN1 _ doubled_quote content
               (head_requires_nothing_but _) Hd).
    rewrite (sub_without FixQuotes.PATTERN2 _ doubled_quote content
               (head_requires_nothing_but _) Hd).
    rewrite (sub_without FixQuotes.PATTERN3 _ stray_terminator content
               pattern3_requires Hs).
    apply (sub_without FixQuotes.PATTERN4 _ doubled_quote content
             (head_requires_nothing_but _) Hd). }
  split; [exact E|].
  unfold FixQuotes.fix_logger_quotes. rewrite Hread, E, teqb_refl. reflexivity.
Qed.

Lemma fix_quotes_leaves_clean_text_witness :
  FixQuotes.fix_content scenarioE_expected = scenarioE_expected /\
  FixQuotes.fix_logger_quotes (txt "Audio.cpp") (file_with scenarioE_expected) =
  MkOutcome false None [].
Proof.
  apply (fix_quotes_leaves_clean_text (txt "Audio.cpp") scenarioE_expected
                                      (file_with scenarioE_expected));
    vm_compute; reflexivity.
Defined.

Lemma count_other (a c : ascii) : c <> a -> count [a] c = 0.
Proof.
  intros H. unfold count. simpl. destruct (Ascii.eqb c a) eqn:E; [|reflexivity].
  apply Ascii.eqb_eq in E. contradiction.
Qed.

Lemma count_le_length (s : text) (c : ascii) : count s c <= length s.
Proof. unfold count. apply filter_length_le. Qed.

(** Closes an equation between sums of counts of one character. *)
Ltac count_atoms c :=
  cbv [txt String.list_ascii_of_string];
  repeat match goal with
         | |- context [count ?l c] =>
             let n := fresh "n" in generalize (count l c); intro n
         end;
  lia.

Section FixQuotesKeeps.
Variable c : ascii.
Hypothesis not_quote : c <> dq.
Hypothesis not_terminator : c <> ";"%char.

Lemma template1_keeps (m : mobj) :
  matches FixQuotes.PATTERN1 (group0 m) [] (captured m) ->
  count (FixQuotes.TEMPLATE1 m) c = count (group0 m) c /\
  length (FixQuotes.TEMPLATE1 m) <= length (group0 m).
Proof.
  unfold FixQuotes.PATTERN1, FixQuotes.HEAD, FixQuotes.TEMPLATE1, group.
  destruct m as [g0 cs]. cbn [group0 captured]. intros H. invert_matches.
  cbn [cap_get Nat.eqb]. split.
  - rewrite !count_app, !(count_other dq c not_quote).
    change [dq; dq] with ([dq] ++ [dq]).
    rewrite !count_app, !(count_other dq c not_quote). count_atoms c.
  - rewrite !length_app. simpl. lia.
Qed.

Lemma template2_keeps (m : mobj) :
  matches FixQuotes.PATTERN2 (group0 m) [] (captured m) ->
  count (FixQuotes.TEMPLATE2 m) c = count (group0 m) c /\
  length (FixQuotes.TEMPLATE2 m) <= length (group0 m).
Proof.
  unfold FixQuotes.PATTERN2, FixQuotes.HEAD, FixQuotes.TEMPLATE2, group.
  destruct m as [g0 cs]. cbn [group0 captured]. intros H. invert_matches.
  cbn [cap_get Nat.eqb]. split.
  - rewrite !count_app, !(count_other dq c not_quote).
    change [dq; dq] with ([dq] ++ [dq]).
    rewrite !count_app, !(count_other dq c not_quote). count_atoms c.
  - rewrite !length_app. simpl. lia.
Qed.

Lemma template3_keeps (m : mobj) :
  matches FixQuotes.PATTERN3 (group0 m) [] (captured m) ->
  count (FixQuotes.TEMPLATE3 m) c = count (group0 m) c /\
  length (FixQuotes.TEMPLATE3 m) <= length (group0 m).
Proof.
  unfold FixQuotes.PATTERN3, FixQuotes.TEMPLATE3.
  destruct m as [g0 cs]. cbn [group0 captured]. intros H. invert_matches.
  split.
  - rewrite !count_app, !(count_other dq c not_quote),
      (count_other ";" c not_terminator). count_atoms c.
  - simpl. lia.
Qed.

Lemma template4_keeps (m : mobj) :
  matches FixQuotes.PATTERN4 (group0 m) [] (captured m) ->
  count (FixQuotes.TEMPLATE4 m) c = count (group0 m) c /\
  length (FixQuotes.TEMPLATE4 m) <= length (group0 m).
Proof.
  unfold FixQuotes.PATTERN4, FixQuotes.HEAD, FixQuotes.TEMPLATE4, group.
  destruct m as [g0 cs]. cbn [group0 captured]. intros H. invert_matches.
  cbn [cap_get Nat.eqb]. split.
  - rewrite !count_app, !(count_other dq c not_quote).
    change [dq; dq] with ([dq] ++ [dq]).
    rewrite !count_app, !(count_other dq c not_quote). count_atoms c.
  - rewrite !length_app. simpl. lia.
Qed.
End FixQuotesKeeps.

(** X16: the four substitutions of [fix_logger_quotes] only take away double
    quotes and terminators: the repaired text holds every other character as
    often as the text read, and is never longer. *)
Theorem fix_quotes_only_removes_quotes_and_terminators :
  forall (content : text) (c : ascii),
    c <> dq -> c <> ";"%char ->
    count (FixQuotes.fix_content content) c = count content c /\
    length (FixQuotes.fix_content content) <= length content.
Proof.
  intros content c Hq Ht. unfold FixQuotes.fix_content. split.
  - rewrite (sub_count FixQuotes.PATTERN4 _ c); [|simpl; lia|
      intros m Hm; apply (template4_keeps c Hq m Hm)].
    rewrite (sub_count FixQuotes.PATTERN3 _ c); [|simpl; lia|
      intros m Hm; apply (template3_keeps c Hq Ht m Hm)].
    rewrite (sub_count FixQuotes.PATTERN2 _ c); [|simpl; lia|
      intros m Hm; apply (template2_keeps c Hq m Hm)].
    apply (sub_count FixQuotes.PATTERN1 _ c); [simpl; lia|].
    intros m Hm. apply (template1_keeps c Hq m Hm).
  - etransitivity; [apply (sub_length_le FixQuotes.PATTERN4); [simpl; lia|
      intros m Hm; apply (template4_keeps c Hq m Hm)]|].
    etransitivity; [apply (sub_length_le FixQuotes.PATTERN3); [simpl; lia|
      intros m Hm; apply (template3_keeps c Hq Ht m Hm)]|].
    etransitivity; [apply (sub_length_le FixQuotes.PATTERN2); [simpl; lia|
      intros m Hm; apply (template2_keeps c Hq m Hm)]|].
    apply (sub_length_le FixQuotes.PATTERN1); [simpl; lia|].
    intros m Hm. apply (template1_keeps c Hq m Hm).
Qed.

Lemma fix_quotes_only_removes_quotes_and_terminators_witness :
  count (FixQuotes.fix_content scenarioE) ")" = count scenarioE ")" /\
  length (FixQuotes.fix_content scenarioE) <= length scenarioE.
Proof.
  apply (fix_quotes_only_removes_quotes_and_terminators scenarioE ")");
    discriminate.
Defined.

Lemma head_takes (macro category ws s : text) :
  macro <> [] -> forallb is_upper_AZ macro = true ->
  category <> [] -> forallb (is_not ",") category = true ->
  forallb is_space ws = true ->
  stops is_space s ->
  takes FixQuotes.HEAD
        (txt "LOG_" ++ macro ++ txt "(" ++ category ++ txt "," ++ ws) s []
        [(1, txt "LOG_" ++ macro ++ txt "(" ++ category ++ txt "," ++ ws)].
Proof.
  intros Hm Hupper Hc Hcat Hws Hs. unfold FixQuotes.HEAD.
  apply takes_group.
  eapply takes_cat; [apply takes_lit|].
  eapply takes_cat; [apply takes_plus; [exact Hm | exact Hupper | reflexivity]|].
  eapply takes_cat; [apply takes_chr|].
  eapply takes_cat; [apply takes_plus; [exact Hc | exact Hcat | reflexivity]|].
  eapply takes_cat; [apply takes_chr|].
  apply takes_star; assumption.
Qed.

(** X17: the first substitution of [fix_logger_quotes] repairs a doubled
    opening quote: a call [LOG_<LETTERS>(<category>,] whose message opens
    with two quotes, goes on with characters that are no quotes and is closed
    by a quote comes out with one opening quote, and the substitution goes
    on with the text after that closing quote. *)
Theorem fix_quotes_collapses_opening_quote :
  forall (macro category ws body rest : text),
    macro <> [] -> forallb is_upper_AZ macro = true ->
    category <> [] -> forallb (is_not ",") category = true ->
    forallb is_space ws = true ->
    body <> [] -> forallb (is_not dq) body = true ->
    sub FixQuotes.PATTERN1 FixQuotes.TEMPLATE1
        (doubled_call macro category ws body ++ rest) =
    single_call macro category ws body
      ++ sub FixQuotes.PATTERN1 FixQuotes.TEMPLATE1 rest.
Proof.
  intros macro category ws body rest Hm Hupper Hc Hcat Hws Hb Hbody.
  assert (Ht : takes FixQuotes.PATTERN1 (doubled_call macro category ws body)
                     rest []
                     [(2, body);
                      (1, txt "LOG_" ++ macro ++ txt "(" ++ category
                              ++ txt "," ++ ws)]).
  { unfold FixQuotes.PATTERN1, doubled_call.
    replace (txt "LOG_" ++ macro ++ txt "(" ++ category ++ txt "," ++ ws
                 ++ doubled_quote ++ body ++ [dq])
      with ((txt "LOG_" ++ macro ++ txt "(" ++ category ++ txt "," ++ ws)
              ++ doubled_quote ++ body ++ [dq])
      by (repeat rewrite <- app_assoc; reflexivity).
    eapply takes_cat; [apply head_takes; try assumption; reflexivity|].
    eapply takes_cat; [apply takes_lit|].
    eapply takes_cat;
      [apply takes_group, takes_plus; [exact Hb | exact Hbody | reflexivity]|].
    apply takes_chr. }
  assert (Hne : doubled_call macro category ws body <> [])
    by (unfold doubled_call; simpl; discriminate).
  rewrite (sub_head _ _ _ _ _ Hne Ht).
  f_equal. unfold FixQuotes.TEMPLATE1, single_call, group.
  cbn [captured cap_get Nat.eqb]. repeat rewrite <- app_assoc. reflexivity.
Qed.

Lemma fix_quotes_collapses_opening_quote_witness :
  sub FixQuotes.PATTERN1 FixQuotes.TEMPLATE1
      (doubled_call (txt "INFO") (txt "GENERAL") (txt " ") (txt "peer ")
                    ++ txt " << id);") =
  single_call (txt "INFO") (txt "GENERAL") (txt " ") (txt "peer ")
    ++ txt " << id);".
Proof.
  rewrite (fix_quotes_collapses_opening_quote
             (txt "INFO") (txt "GENERAL") (txt " ") (txt "peer ")
             (txt " << id);")); try reflexivity; discriminate.
Defined.

(* ================================================================== *)
(** * src/scripts/fix_logging_syntax.py *)
(* ================================================================== *)

Lemma sub_length_eq (r : regex) (f : mobj -> text) (s : text) :
  0 < min_len r ->
  (forall m, matches r (group0 m) [] (captured m) ->
             length (f m) = length (group0 m)) ->
  length (sub r f s) = length s.
Proof.
  intros Hr Hf. rewrite sub_rendered.
  apply (scan_induction r
           (fun s segs => length (flat_map (rendered f) segs) = length s) Hr).
  - reflexivity.
  - intros x s0 _ IH. simpl. rewrite IH. reflexivity.
  - intros m rest He _ IH. simpl. rewrite !length_app, IH. f_equal.
    apply Hf. destruct (exec_sound _ _ _ He) as (rest' & _ & Hm). exact Hm.
Qed.

Lemma syntax_pattern_shape (m : mobj) :
  matches FixLoggingSyntax.pattern (group0 m) [] (captured m) ->
  group0 m = group m 1 ++ txt ";" ++ group m 2.
Proof.
  unfold FixLoggingSyntax.pattern, group. destruct m as [g0 cs].
  cbn [group0 captured]. intros H. invert_matches.
  cbn [cap_get Nat.eqb]. reflexivity.
Qed.

(** X18: [fix_logging_syntax] only moves terminators: the fixed text has the
    length of the text read and holds every character as often. *)
Theorem fix_logging_syntax_only_moves_terminators :
  forall (content : text) (c : ascii),
    length (FixLoggingSyntax.fixed_content content) = length content /\
    count (FixLoggingSyntax.fixed_content content) c = count content c.
Proof.
  intros content c. unfold FixLoggingSyntax.fixed_content. split.
  - apply sub_length_eq; [simpl; lia|]. intros m Hm.
    rewrite (syntax_pattern_shape m Hm).
    unfold FixLoggingSyntax.fix_match. cbv zeta.
    rewrite !length_app. simpl. lia.
  - apply sub_count; [simpl; lia|]. intros m Hm.
    rewrite (syntax_pattern_shape m Hm).
    unfold FixLoggingSyntax.fix_match. cbv zeta.
    rewrite !count_app. count_atoms c.
Qed.

Lemma syntax_pattern_takes (name category ws first ws2 second rest : text) :
  name <> [] -> forallb is_word name = true ->
  category <> [] -> forallb (is_not ",") category = true ->
  forallb is_space ws = true ->
  forallb (is_not ";") first = true ->
  forallb is_space ws2 = true ->
  forallb (is_not ")") second = true ->
  takes FixLoggingSyntax.pattern
        (broken_call name category ws first ws2 second) rest []
        [(2, ws2 ++ txt "<<" ++ second ++ txt ").str())");
         (1, txt "OPENAUTO_LOG_" ++ name ++ txt "(" ++ category ++ txt ","
                 ++ ws ++ txt "(std::stringstream()" ++ first)].
Proof.
  intros Hn Hname Hc Hcat Hws Hfirst Hws2 Hsecond.
  unfold FixLoggingSyntax.pattern, broken_call.
  replace (txt "OPENAUTO_LOG_" ++ name ++ txt "(" ++ category ++ txt "," ++ ws
               ++ txt "(std::stringstream()" ++ first ++ txt ";"
               ++ ws2 ++ txt "<<" ++ second ++ txt ").str())")
    with ((txt "OPENAUTO_LOG_" ++ name ++ txt "(" ++ category ++ txt "," ++ ws
               ++ txt "(std::stringstream()" ++ first)
            ++ txt ";" ++ (ws2 ++ txt "<<" ++ second ++ txt ").str())"))
    by (repeat rewrite <- app_assoc; reflexivity).
  eapply takes_cat.
  - apply takes_group.
    eapply takes_cat; [apply takes_lit|].
    eapply takes_cat; [apply takes_plus; [exact Hn | exact Hname | reflexivity]|].
    eapply takes_cat; [apply takes_chr|].
    eapply takes_cat; [apply takes_plus; [exact Hc | exact Hcat | reflexivity]|].
    eapply takes_cat; [apply takes_chr|].
    eapply takes_cat; [apply takes_star; [exact Hws | reflexivity]|].
    eapply takes_cat; [apply takes_lit|].
    apply takes_star; [exact Hfirst | reflexivity].
  - eapply takes_cat; [apply takes_chr|].
    apply takes_group.
    eapply takes_cat; [apply takes_star; [exact Hws2 | reflexivity]|].
    eapply takes_cat; [apply takes_lit|].
    eapply takes_cat; [apply takes_star; [exact Hsecond | reflexivity]|].
    apply takes_lit.
Qed.

(** X19: where a call [OPENAUTO_LOG_<name>(<category>, (std::stringstream()]
    is cut by a terminator before a line that goes on with [<<] and ends
    with [).str())], [fix_logging_syntax] takes the terminator out of the
    stream and puts it after the call; the text after the call is fixed as
    it would be on its own. *)
Theorem fix_logging_syntax_moves_terminator :
  forall (name category ws first ws2 second rest : text),
    name <> [] -> forallb is_word name = true ->
    category <> [] -> forallb (is_not ",") category = true ->
    forallb is_space ws = true ->
    forallb (is_not ";") first = true ->
    forallb is_space ws2 = true ->
    forallb (is_not ")") second = true ->
    FixLoggingSyntax.fixed_content
      (broken_call name category ws first ws2 second ++ rest) =
    mended_call name category ws first ws2 second
      ++ FixLoggingSyntax.fixed_content rest.
Proof.
  intros name category ws first ws2 second rest
         Hn Hname Hc Hcat Hws Hfirst Hws2 Hsecond.
  unfold FixLoggingSyntax.fixed_content.
  assert (Hne : broken_call name category ws first ws2 second <> [])
    by (unfold broken_call; simpl; discriminate).
  rewrite (sub_head _ _ _ _ _ Hne
             (syntax_pattern_takes name category ws first ws2 second rest
                Hn Hname Hc Hcat Hws Hfirst Hws2 Hsecond)).
  f_equal. unfold FixLoggingSyntax.fix_match, mended_call, group.
  cbv zeta. cbn [captured cap_get Nat.eqb].
  repeat rewrite <- app_assoc. reflexivity.
Qed.

Lemma fix_logging_syntax_moves_terminator_witness :
  FixLoggingSyntax.fixed_content
    (broken_call (txt "INFO") (txt "GENERAL") (txt " ")
                 (txt " << " ++ quoted (txt "text") ++ txt " << var")
                 ([lf] ++ txt "   ") (txt " more")
       ++ txt " return;") =
  mended_call (txt "INFO") (txt "GENERAL") (txt " ")
              (txt " << " ++ quoted (txt "text") ++ txt " << var")
              ([lf] ++ txt "   ") (txt " more")
    ++ txt " return;".
Proof.
  rewrite (fix_logging_syntax_moves_terminator
             (txt "INFO") (txt "GENERAL") (txt " ")
             (txt " << " ++ quoted (txt "text") ++ txt " << var")
             ([lf] ++ txt "   ") (txt " more") (txt " return;"));
    try reflexivity; discriminate.
Defined.

Lemma syntax_pattern_requires :
  requires FixLoggingSyntax.pattern (txt "(std::stringstream()").
Proof.
  unfold FixLoggingSyntax.pattern.
  apply requires_cat_l, requires_group.
  do 6 apply requires_cat_r.
  apply requires_cat_l, requires_lit. reflexivity.
Qed.

(** X20: a text that nowhere holds [(std::stringstream()] is left as it is,
    and [fix_logging_syntax] returns [False] without writing. *)
Theorem fix_logging_syntax_leaves_other_text :
  forall (file_path content : text) (io : file_io),
    free_of (txt "(std::stringstream()") content ->
    read_result io = Some content ->
    FixLoggingSyntax.fixed_content content = content /\
    FixLoggingSyntax.fix_logging_syntax file_path io =
    FixLoggingSyntax.Returned false None.
Proof.
  intros file_path content io Hf Hread.
  assert (E : FixLoggingSyntax.fixed_content content = content)
    by (apply (sub_without _ _ _ _ syntax_pattern_requires Hf)).
  split; [exact E|].
  unfold FixLoggingSyntax.fix_logging_syntax.
  rewrite Hread. cbv zeta. rewrite E, teqb_refl. reflexivity.
Qed.

Lemma fix_logging_syntax_leaves_other_text_witness :
  FixLoggingSyntax.fixed_content scenarioA_expected = scenarioA_expected /\
  FixLoggingSyntax.fix_logging_syntax (txt "App.cpp")
                                      (file_with scenarioA_expected) =
  FixLoggingSyntax.Returned false None.
Proof.
  apply (fix_logging_syntax_leaves_other_text
           (txt "App.cpp") scenarioA_expected (file_with scenarioA_expected));
    vm_compute; reflexivity.
Defined.

(* ================================================================== *)
(** * src/scripts/fix_app_logging.py *)
(* ================================================================== *)

Lemma requires_last_lit (r : regex) (l x : text) :
  is_in x l = true -> requires (Cat r (Lit l)) x.
Proof. intros H. apply requires_cat_r, requires_lit, H. Qed.

(** X21: every pattern of [fix_app_logging.py] needs the text [).str()]: a
    text that holds it nowhere is written back as it was read. *)
Theorem fix_app_logging_leaves_other_text :
  forall content : text,
    free_of (txt ").str()") content ->
    FixAppLogging.fixed_content content = content.
Proof.
  intros content Hf. unfold FixAppLogging.fixed_content.
  cbv zeta. unfold FixAppLogging.patterns_to_fix. cbn [fold_left fst snd].
  rewrite (sub_without FixAppLogging.pattern _ (txt ").str()") content); [|
    unfold FixAppLogging.pattern; do 5 apply requires_cat_r;
    apply requires_last_lit; reflexivity | exact Hf].
  rewrite (sub_without FixAppLogging.pattern2 _ (txt ").str()") content); [|
    unfold FixAppLogging.pattern2; do 5 apply requires_cat_r;
    apply requires_last_lit; reflexivity | exact Hf].
  rewrite (sub_without _ _ (txt ").str()") content); [|
    apply requires_cat_r, requires_last_lit; reflexivity | exact Hf].
  apply (sub_without _ _ (txt ").str()") content); [|exact Hf].
  apply requires_cat_r, requires_last_lit. reflexivity.
Qed.

Lemma fix_app_logging_leaves_other_text_witness :
  FixAppLogging.fixed_content scenarioA_expected = scenarioA_expected.
Proof.
  apply (fix_app_logging_leaves_other_text scenarioA_expected).
  vm_compute. reflexivity.
Defined.

(* ================================================================== *)
(** * Finding the files and [main] *)
(* ================================================================== *)

Lemma path_join_keeps_suffix (root file e : text) :
  endswith file e = true -> endswith (path_join root file) e = true.
Proof.
  intros H. unfold path_join.
  destruct (startswith file (txt "/")); [exact H|].
  destruct root as [|r0 root]; [exact H|].
  destruct (endswith (r0 :: root) (txt "/")).
  - apply endswith_app_r, H.
  - apply endswith_app_r, endswith_app_r, H.
Qed.

Lemma endswith_any_join (root file : text) (suffixes : list text) :
  endswith_any file suffixes = true ->
  endswith_any (path_join root file) suffixes = true.
Proof.
  unfold endswith_any. rewrite !existsb_exists.
  intros (e & Hin & He). exists e. split; [exact Hin|].
  apply path_join_keeps_suffix, He.
Qed.

Lemma find_files_spec (skip suffixes : list text) (tree : walk) (p : text) :
  In p (flat_map
          (fun entry : text * list text =>
             let (root, files) := entry in
             if any_in skip root then []
             else map (path_join root)
                      (filter (fun file => endswith_any file suffixes) files))
          tree) <->
  exists root files file,
    In (root, files) tree /\ any_in skip root = false /\
    In file files /\ endswith_any file suffixes = true /\
    p = path_join root file.
Proof.
  rewrite in_flat_map. split.
  - intros ([root files] & Hin & Hp).
    destruct (any_in skip root) eqn:Hskip; [destruct Hp|].
    apply in_map_iff in Hp. destruct Hp as (file & <- & Hfile).
    apply filter_In in Hfile. destruct Hfile as [Hfile Hsuf].
    exists root, files, file. auto.
  - intros (root & files & file & Hin & Hskip & Hfile & Hsuf & ->).
    exists (root, files). split; [exact Hin|]. rewrite Hskip.
    apply in_map. apply filter_In. auto.
Qed.

(** X22: [find_cpp_files] returns exactly the files with an accepted suffix
    that [os.walk] lists in a directory whose path contains none of the
    skipped names, each joined to its directory; so every path it returns
    ends with an accepted suffix.  This holds of both migration scripts,
    each with its own lists. *)
Theorem find_cpp_files_sound_and_complete :
  forall (fs : filesystem) (root_dir p : text),
    (In p (MigrateLogger.find_cpp_files fs root_dir) <->
     exists root files file,
       In (root, files) (os_walk fs root_dir) /\
       any_in MigrateLogger.SKIP_DIRS root = false /\
       In file files /\ endswith_any file MigrateLogger.SUFFIXES = true /\
       p = path_join root file) /\
    (In p (MigrateLogger.find_cpp_files fs root_dir) ->
     endswith_any p MigrateLogger.SUFFIXES = true) /\
    (In p (ModernLogger.find_cpp_files fs root_dir) <->
     exists root files file,
       In (root, files) (os_walk fs root_dir) /\
       any_in ModernLogger.SKIP_DIRS root = false /\
       In file files /\ endswith_any file ModernLogger.SUFFIXES = true /\
       p = path_join root file) /\
    (In p (ModernLogger.find_cpp_files fs root_dir) ->
     endswith_any p ModernLogger.SUFFIXES = true).
Proof.
  intros fs root_dir p.
  unfold MigrateLogger.find_cpp_files, ModernLogger.find_cpp_files.
  split; [apply find_files_spec|]. split.
  - intros H. apply find_files_spec in H.
    destruct H as (root & files & file & _ & _ & _ & Hsuf & ->).
    apply endswith_any_join, Hsuf.
  - split; [apply find_files_spec|].
    intros H. apply find_files_spec in H.
    destruct H as (root & files & file & _ & _ & _ & Hsuf & ->).
    apply endswith_any_join, Hsuf.
Qed.

Lemma find_cpp_files_sound_and_complete_witness :
  endswith_any (txt "src/autoapp/App.cpp") MigrateLogger.SUFFIXES = true.
Proof.
  destruct (find_cpp_files_sound_and_complete
              (one_directory (txt "src/autoapp")
                             [(txt "App.cpp", scenarioA);
                              (txt "notes.txt", scenarioD)])
              (txt ".") (txt "src/autoapp/App.cpp")) as (_ & Hsuffix & _).
  apply Hsuffix. vm_compute. left. reflexivity.
Defined.

(** X23: where no directory that [os.walk] lists has [tests] in its path,
    every file [migrate_logger.py] would process is processed by
    [migrate_to_modern_logger.py] too. *)
Theorem modern_finds_what_migrate_finds :
  forall (fs : filesystem) (root_dir : text),
    (forall root files, In (root, files) (os_walk fs root_dir) ->
                        is_in (txt "tests") root = false) ->
    incl (MigrateLogger.find_cpp_files fs root_dir)
         (ModernLogger.find_cpp_files fs root_dir).
Proof.
  intros fs root_dir Htests p Hp.
  unfold MigrateLogger.find_cpp_files in Hp.
  unfold ModernLogger.find_cpp_files.
  apply find_files_spec in Hp. apply find_files_spec.
  destruct Hp as (root & files & file & Hin & Hskip & Hfile & Hsuf & ->).
  exists root, files, file. repeat split; try assumption.
  - unfold any_in, MigrateLogger.SKIP_DIRS in Hskip.
    unfold any_in, ModernLogger.SKIP_DIRS. cbn [existsb] in *.
    rewrite (Htests root files Hin).
    rewrite !orb_false_r in *. exact Hskip.
  - unfold endswith_any, MigrateLogger.SUFFIXES in Hsuf.
    unfold endswith_any, ModernLogger.SUFFIXES. cbn [existsb] in *.
    rewrite !orb_false_r in Hsuf. rewrite !orb_false_r.
    repeat (apply orb_true_iff in Hsuf; destruct Hsuf as [Hsuf|Hsuf]);
      rewrite Hsuf; rewrite ?orb_true_r; reflexivity.
Qed.

Lemma modern_finds_what_migrate_finds_witness :
  incl (MigrateLogger.find_cpp_files
          (one_directory (txt "src") [(txt "App.cpp", scenarioA)]) (txt "."))
       (ModernLogger.find_cpp_files
          (one_directory (txt "src") [(txt "App.cpp", scenarioA)]) (txt ".")).
Proof.
  apply (modern_finds_what_migrate_finds
           (one_directory (txt "src") [(txt "App.cpp", scenarioA)]) (txt ".")).
  intros root files [H|[]]. inversion H; subst. reflexivity.
Defined.

Lemma migrate_returned_would_migrate (file_path : text) (io : file_io) :
  returned (MigrateLogger.process_file file_path io) = true ->
  exists content,
    read_result io = Some content /\
    MigrateLogger.would_migrate content = true.
Proof.
  unfold MigrateLogger.process_file.
  destruct (read_result io) as [content|]; [|discriminate].
  pose proof (migrate_process_content_modified file_path content) as Hmod.
  destruct (MigrateLogger.process_content file_path content) as [out st].
  cbn [snd] in Hmod. intros Hret. exists content. split; [reflexivity|].
  assert (Hm : modified st = true).
  { destruct (modified st); [reflexivity|]. discriminate. }
  rewrite Hm in Hmod. symmetry in Hmod.
  unfold MigrateLogger.would_migrate.
  destruct (is_in MigrateLogger.OLD_INCLUDE content) eqn:Hinc;
    [apply orb_true_r|].
  cbn [orb] in Hmod. unfold migrate_includes in Hmod. rewrite Hinc in Hmod.
  unfold finditer in Hmod.
  destruct (hits (scan MigrateLogger.pattern 0 content)) as [|m ms] eqn:Hh;
    [discriminate|].
  assert (Hin : In m (hits (scan MigrateLogger.pattern 0 content)))
    by (rewrite Hh; left; reflexivity).
  destruct (hits_inside _ _ _ migrate_pattern_min_len Hin) as (a & b & Econtent).
  pose proof (finditer_matches _ _ _ migrate_pattern_min_len Hin) as Hmatch.
  destruct (matches_lit_prefix _ _ _ _ _ Hmatch) as (w' & Ew).
  rewrite orb_false_r, Econtent, Ew.
  apply is_in_inside, is_in_app_l. reflexivity.
Qed.

Lemma modern_returned_would_migrate (file_path : text) (dry : bool)
      (io : file_io) :
  returned (ModernLogger.process_file file_path dry io) = true ->
  exists content,
    read_result io = Some content /\
    ModernLogger.would_migrate content = true.
Proof.
  unfold ModernLogger.process_file.
  destruct (read_result io) as [content|]; [|discriminate].
  pose proof (modern_process_content_modified file_path content dry) as Hmod.
  destruct (ModernLogger.process_content file_path content dry) as [out st].
  cbn [snd] in Hmod. intros Hret. exists content. split; [reflexivity|].
  assert (Hm : modified st = true).
  { destruct (modified st); [reflexivity|].
    destruct dry; cbn in Hret; discriminate. }
  rewrite Hm in Hmod. symmetry in Hmod.
  unfold ModernLogger.would_migrate.
  destruct (is_in ModernLogger.OLD_INCLUDE content) eqn:Hinc;
    [apply orb_true_r|].
  cbn [orb] in Hmod. unfold modern_includes in Hmod. rewrite Hinc in Hmod.
  unfold finditer in Hmod.
  destruct (hits (scan ModernLogger.pattern 0 content)) as [|m ms] eqn:Hh;
    [discriminate|].
  assert (Hin : In m (hits (scan ModernLogger.pattern 0 content)))
    by (rewrite Hh; left; reflexivity).
  destruct (hits_inside _ _ _ modern_pattern_min_len Hin) as (a & b & Econtent).
  pose proof (finditer_matches _ _ _ modern_pattern_min_len Hin) as Hmatch.
  destruct (matches_lit_prefix _ _ _ _ _ Hmatch) as (w' & Ew).
  rewrite orb_false_r, Econtent, Ew.
  apply is_in_inside, is_in_app_l. reflexivity.
Qed.

Lemma modern_dry_never_writes (file_path : text) (io : file_io) :
  written (ModernLogger.process_file file_path true io) = None.
Proof.
  unfold ModernLogger.process_file.
  destruct (read_result io) as [content|]; [|reflexivity].
  destruct (ModernLogger.process_content file_path content true) as [out st].
  cbn [negb]. rewrite andb_false_r. reflexivity.
Qed.

(** The loop of [main] counts the files [migrate_counts] tells. *)
Lemma migrate_loop_count (fs : filesystem) (args : arguments)
      (files : list text) : forall st,
  migrated_count (fold_left (MigrateLogger.main_step fs args) files st) =
  migrated_count st +
  length (filter (migrate_counts fs (args_dry_run args)) files).
Proof.
  induction files as [|f files IH]; intros st; simpl; [lia|].
  rewrite IH. unfold MigrateLogger.main_step, migrate_counts.
  destruct (args_dry_run args).
  - destruct (read_result (open_file fs f)) as [content|].
    + destruct (MigrateLogger.would_migrate content); simpl; lia.
    + simpl. lia.
  - cbv zeta.
    destruct (returned (MigrateLogger.process_file f (open_file fs f)));
      simpl; lia.
Qed.

Lemma modern_loop_count (fs : filesystem) (args : arguments)
      (files : list text) : forall st,
  migrated_count (fold_left (ModernLogger.main_step fs args) files st) =
  migrated_count st +
  length (filter (modern_counts fs (args_dry_run args)) files).
Proof.
  induction files as [|f files IH]; intros st; simpl; [lia|].
  rewrite IH. unfold ModernLogger.main_step, modern_counts.
  destruct (read_result (open_file fs f)) as [content|].
  - destruct (ModernLogger.would_migrate content); cbn [andb]; [|simpl; lia].
    destruct (args_dry_run args); cbn [orb].
    + destruct (args_verbose args); simpl; lia.
    + cbv zeta.
      destruct (returned (ModernLogger.process_file f false (open_file fs f)));
        simpl; lia.
  - destruct (args_verbose args); simpl; lia.
Qed.

Lemma filter_length_mono (A : Type) (p q : A -> bool) (l : list A) :
  (forall x, p x = true -> q x = true) ->
  length (filter p l) <= length (filter q l).
Proof.
  intros H. induction l as [|x l IH]; simpl; [lia|].
  destruct (p x) eqn:Hp.
  - rewrite (H x Hp). simpl. lia.
  - destruct (q x); simpl; lia.
Qed.

(** X24: a dry run of [main] of [migrate_logger.py] never reports fewer files
    than a real run migrates: every file for which [process_file] returns
    [True] can be read and holds [OPENAUTO_LOG] or the legacy include
    directive, which is all the dry run asks for. *)
Theorem migrate_dry_run_never_underreports :
  forall (fs : filesystem) (root_dir : text) (v1 v2 : bool),
    migrated_count (MigrateLogger.main fs (MkArgs root_dir false v1)) <=
    migrated_count (MigrateLogger.main fs (MkArgs root_dir true v2)).
Proof.
  intros fs root_dir v1 v2. unfold MigrateLogger.main. cbn [args_directory].
  destruct (isdir fs root_dir); cbn [negb]; [|simpl; lia].
  cbv zeta. cbn [migrated_count].
  rewrite !migrate_loop_count. cbn [migrated_count args_dry_run].
  apply filter_length_mono. intros p Hp. unfold migrate_counts in *.
  destruct (migrate_returned_would_migrate p (open_file fs p) Hp)
    as (content & -> & Hw).
  exact Hw.
Qed.

(** X25: the test [main] of [migrate_to_modern_logger.py] makes on the
    content of a file before it calls [process_file] loses nothing: a real
    run counts exactly the files for which [process_file] returns [True],
    and a dry run never reports fewer. *)
Theorem modern_main_counts_processed_files :
  forall (fs : filesystem) (root_dir : text) (v1 v2 : bool),
    isdir fs root_dir = true ->
    migrated_count (ModernLogger.main fs (MkArgs root_dir false v1)) =
    length (filter (fun file_path =>
                      returned (ModernLogger.process_file
                                  file_path false (open_file fs file_path)))
                   (ModernLogger.find_cpp_files fs root_dir)) /\
    migrated_count (ModernLogger.main fs (MkArgs root_dir false v1)) <=
    migrated_count (ModernLogger.main fs (MkArgs root_dir true v2)).
Proof.
  intros fs root_dir v1 v2 Hdir. unfold ModernLogger.main.
  cbn [args_directory]. rewrite Hdir. cbn [negb]. cbv zeta.
  cbn [migrated_count]. rewrite !modern_loop_count.
  cbn [migrated_count args_dry_run]. split.
  - simpl. f_equal. apply filter_ext. intros p. unfold modern_counts.
    cbn [orb].
    destruct (returned (ModernLogger.process_file p false (open_file fs p)))
      eqn:Hret.
    + destruct (modern_returned_would_migrate p false (open_file fs p) Hret)
        as (content & -> & ->).
      reflexivity.
    + destruct (read_result (open_file fs p)); [|reflexivity].
      apply andb_false_r.
  - apply filter_length_mono. intros p. unfold modern_counts.
    destruct (read_result (open_file fs p)); [|discriminate].
    cbn [orb]. intros H. apply andb_true_iff in H. destruct H as [-> _].
    reflexivity.
Qed.

Lemma modern_main_counts_processed_files_witness :
  migrated_count
    (ModernLogger.main
       (one_directory (txt "src") [(txt "App.cpp", scenarioA);
                                   (txt "Main.cpp", txt "int main() {}")])
       (MkArgs (txt ".") false false)) = 1.
Proof.
  destruct (modern_main_counts_processed_files
              (one_directory (txt "src") [(txt "App.cpp", scenarioA);
                                          (txt "Main.cpp", txt "int main() {}")])
              (txt ".") false false eq_refl) as [Hcount _].
  rewrite Hcount. vm_compute. reflexivity.
Defined.

Lemma migrate_dry_loop_writes (fs : filesystem) (args : arguments)
      (files : list text) : forall st,
  args_dry_run args = true ->
  writes (fold_left (MigrateLogger.main_step fs args) files st) = writes st.
Proof.
  induction files as [|f files IH]; intros st Hdry; simpl; [reflexivity|].
  rewrite (IH _ Hdry). unfold MigrateLogger.main_step. rewrite Hdry.
  destruct (read_result (open_file fs f)) as [content|]; [|reflexivity].
  destruct (MigrateLogger.would_migrate content); reflexivity.
Qed.

Lemma modern_dry_loop_writes (fs : filesystem) (args : arguments)
      (files : list text) : forall st,
  args_dry_run args = true ->
  writes (fold_left (ModernLogger.main_step fs args) files st) = writes st.
Proof.
  induction files as [|f files IH]; intros st Hdry; simpl; [reflexivity|].
  rewrite (IH _ Hdry). unfold ModernLogger.main_step. rewrite Hdry.
  destruct (read_result (open_file fs f)) as [content|].
  - destruct (ModernLogger.would_migrate content); [|reflexivity].
    destruct (args_verbose args); [|reflexivity].
    cbn [writes record_file record_line].
    rewrite modern_dry_never_writes. reflexivity.
  - destruct (args_verbose args); reflexivity.
Qed.

(** X26: a dry run of [main] writes no file, in both migration scripts,
    verbose or not. *)
Theorem dry_run_writes_nothing :
  forall (fs : filesystem) (root_dir : text) (v : bool),
    writes (MigrateLogger.main fs (MkArgs root_dir true v)) = [] /\
    writes (ModernLogger.main fs (MkArgs root_dir true v)) = [].
Proof.
  intros fs root_dir v. unfold MigrateLogger.main, ModernLogger.main.
  cbn [args_directory]. destruct (isdir fs root_dir); cbn [negb]; [|auto].
  cbv zeta. cbn [writes].
  rewrite migrate_dry_loop_writes, modern_dry_loop_writes; auto.
Qed.

(* ================================================================== *)
(** * Idempotence on ordinary sources (C1) *)
(* ================================================================== *)

(** A character that is not in [x] cuts every occurrence of [x]. *)
Lemma startswith_delim (x a b : text) (d : ascii) :
  count x d = 0 -> x <> [] ->
  startswith (a ++ d :: b) x = startswith a x.
Proof.
  revert a. induction x as [|y x IH]; intros a Hc Hne; [congruence|].
  assert (Hy : Ascii.eqb y d = false).
  { destruct (Ascii.eqb y d) eqn:E; [|reflexivity].
    apply Ascii.eqb_eq in E. subst y.
    unfold count in Hc. simpl in Hc. rewrite eqb_ascii_refl in Hc. discriminate. }
  assert (Hx : count x d = 0).
  { unfold count in *. simpl in Hc. rewrite Ascii.eqb_sym, Hy in Hc. exact Hc. }
  destruct a as [|c a]; simpl.
  - rewrite Hy. reflexivity.
  - destruct x as [|z x]; [reflexivity|].
    rewrite (IH a Hx); [reflexivity | discriminate].
Qed.

Lemma is_in_nil (x : text) : x <> [] -> is_in x [] = false.
Proof. destruct x; [congruence | reflexivity]. Qed.

Lemma is_in_delim (x a b : text) (d : ascii) :
  count x d = 0 -> x <> [] ->
  is_in x (a ++ d :: b) = is_in x a || is_in x b.
Proof.
  intros Hc Hne. induction a as [|c a IH].
  - pose proof (startswith_delim x [] b d Hc Hne) as H. simpl app in H.
    rewrite (is_in_nil x Hne).
    change (is_in x ([] ++ d :: b)) with (startswith (d :: b) x || is_in x b).
    rewrite H. destruct x; [congruence | reflexivity].
  - change ((c :: a) ++ d :: b) with (c :: (a ++ d :: b)).
    change (is_in x (c :: a ++ d :: b))
      with (startswith (c :: a ++ d :: b) x || is_in x (a ++ d :: b)).
    change (is_in x (c :: a)) with (startswith (c :: a) x || is_in x a).
    pose proof (startswith_delim x (c :: a) b d Hc Hne) as H.
    change ((c :: a) ++ d :: b) with (c :: a ++ d :: b) in H.
    rewrite IH, H, orb_assoc. reflexivity.
Qed.

(** ** Occurrences across a substitution *)

Section Occurrences.
Variable x : text.
Hypothesis x_nonempty : x <> [].
Variable f : mobj -> text.

(** An occurrence of [x] that starts in front of the output of a
    substitution started there in front of its input. *)
Lemma clean_agree (segs : list segment) :
  clean x f segs ->
  forall pre, startswith (pre ++ flat_map (rendered f) segs) x = true ->
              startswith (pre ++ original segs) x = true.
Proof.
  induction segs as [|[c|m] segs IH]; intros Hc pre H.
  - exact H.
  - destruct Hc as [_ Hc]. simpl in *.
    replace (pre ++ c :: original segs) with ((pre ++ [c]) ++ original segs)
      by (rewrite <- app_assoc; reflexivity).
    apply (IH Hc). rewrite <- app_assoc. exact H.
  - destruct Hc as (Hfresh & _ & Hc). simpl in *.
    apply startswith_app_l. apply (Hfresh pre _ H).
Qed.

Lemma clean_free (segs : list segment) :
  clean x f segs -> free_of x (flat_map (rendered f) segs).
Proof.
  induction segs as [|[c|m] segs IH]; intros Hc.
  - apply is_in_nil, x_nonempty.
  - pose proof Hc as [Hsw Hc']. unfold free_of. simpl.
    rewrite (IH Hc'), orb_false_r.
    destruct (startswith (c :: flat_map (rendered f) segs) x) eqn:E;
      [|reflexivity].
    pose proof (clean_agree segs Hc' [c] E) as H. simpl in H.
    rewrite Hsw in H. discriminate.
  - destruct Hc as (_ & Hsealed & Hc). simpl. apply Hsealed, IH, Hc.
Qed.
End Occurrences.

(** ** Texts that start with a given head *)

Lemma startswith_compatible (x h z : text) :
  startswith (h ++ z) x = true -> compatible x h = true.
Proof.
  revert h. induction x as [|y x IH]; intros h H; [reflexivity|].
  destruct h as [|b h]; [reflexivity|]. simpl in *.
  apply andb_true_iff in H. destruct H as [H1 H2].
  rewrite H1. apply (IH h H2).
Qed.

Lemma startswith_across (x h z : text) : forall pre,
  startswith (pre ++ h ++ z) x = true ->
  startswith pre x = true \/
  (length pre < length x /\ compatible (skipn (length pre) x) h = true).
Proof.
  intros pre. revert x. induction pre as [|c pre IH]; intros x H.
  - destruct x as [|y x]; [left; reflexivity|]. right.
    split; [simpl; lia|]. apply (startswith_compatible _ _ z H).
  - destruct x as [|y x]; [left; reflexivity|]. simpl in H.
    apply andb_true_iff in H. destruct H as [H1 H2].
    destruct (IH x H2) as [Hl|[Hlen Hcomp]].
    + left. simpl. rewrite H1. exact Hl.
    + right. split; [simpl; lia | exact Hcomp].
Qed.

(** A replacement whose head agrees with no tail of [x] is fresh. *)
Lemma fresh_by_head (x h z : text) :
  forallb (fun k => negb (compatible (skipn k x) h)) (seq 0 (length x)) = true ->
  fresh x (h ++ z).
Proof.
  intros Hall pre o H. rewrite <- app_assoc in H.
  destruct (startswith_across x h (z ++ o) pre H) as [Hl|[Hlen Hcomp]];
    [exact Hl|].
  exfalso.
  assert (Hin : In (length pre) (seq 0 (length x))).
  { apply in_seq. lia. }
  pose proof (forallb_In_true _ _ _ _ Hall Hin) as Hk. simpl in Hk.
  rewrite Hcomp in Hk. discriminate.
Qed.

(** ** Parts of a text *)

Lemma part_of_refl (s : text) : part_of s s.
Proof. exists [], []. rewrite app_nil_r. reflexivity. Qed.

Lemma part_of_trans (u v s : text) : part_of u v -> part_of v s -> part_of u s.
Proof.
  intros (a & b & ->) (a' & b' & ->). exists (a' ++ a), (b ++ b').
  repeat rewrite <- app_assoc. reflexivity.
Qed.

Lemma part_of_free (x u s : text) : part_of u s -> free_of x s -> free_of x u.
Proof.
  intros (a & b & ->) Hf. unfold free_of in *.
  destruct (is_in x u) eqn:E; [|reflexivity].
  rewrite (is_in_inside x u a b E) in Hf. discriminate.
Qed.

Lemma part_of_skipn (n : nat) (s : text) : part_of (skipn n s) s.
Proof.
  exists (firstn n s), []. rewrite app_nil_r, firstn_skipn. reflexivity.
Qed.

Lemma part_of_lstrip (s : text) : part_of (lstrip s) s.
Proof.
  induction s as [|c s IH]; simpl; [apply part_of_refl|].
  destruct (is_space c); [|apply part_of_refl].
  apply (part_of_trans _ _ _ IH). exists [c], []. rewrite app_nil_r. reflexivity.
Qed.

Lemma part_of_rev (u s : text) : part_of u s -> part_of (rev u) (rev s).
Proof.
  intros (a & b & ->). exists (rev b), (rev a).
  rewrite !rev_app_distr, <- app_assoc. reflexivity.
Qed.

Lemma part_of_rstrip (s : text) : part_of (rstrip s) s.
Proof.
  unfold rstrip. rewrite <- (rev_involutive s) at 2.
  apply part_of_rev, part_of_lstrip.
Qed.

Lemma part_of_strip (s : text) : part_of (strip s) s.
Proof.
  unfold strip.
  apply (part_of_trans _ _ _ (part_of_rstrip _) (part_of_lstrip s)).
Qed.

Lemma part_of_slice (s : text) : part_of (slice_1_m1 s) s.
Proof.
  unfold slice_1_m1. apply (part_of_trans _ (tl s)).
  - destruct (tl s) as [|c t] eqn:E; [apply part_of_refl|].
    exists [], [last (c :: t) c].
    apply (@app_removelast_last _ (c :: t) c). discriminate.
  - destruct s as [|c s]; [apply part_of_refl|].
    exists [c], []. simpl. rewrite app_nil_r. reflexivity.
Qed.

(** The message of a converted call is a part of the argument of the call. *)
Lemma part_of_extract_message (content : text) :
  part_of (MigrateLogger.extract_message_from_stream content) content.
Proof.
  unfold MigrateLogger.extract_message_from_stream.
  assert (H : part_of (sub_at_start MigrateLogger.TAG_PATTERN [] content) content).
  { unfold sub_at_start.
    destruct (exec MigrateLogger.TAG_PATTERN content);
      [apply part_of_skipn | apply part_of_refl]. }
  apply (part_of_trans _ _ _ (part_of_strip _)).
  destruct (startswith _ _ && endswith _ _); [|exact H].
  apply (part_of_trans _ _ _ (part_of_slice _) H).
Qed.

(** ** What a converted call brings in *)

Lemma migrate_convert_text (m : mobj) (p : text) :
  unrecognized MigrateLogger.SEVERITY_MAPPING (group m 1) = false ->
  exists macro category,
    In macro (map snd MigrateLogger.SEVERITY_MAPPING) /\
    In category (txt "GENERAL" :: map snd MigrateLogger.CATEGORY_MAPPING) /\
    fst (MigrateLogger.convert_log_call m p) =
    (macro ++ txt "(" ++ category ++ txt ", ")
      ++ dq :: MigrateLogger.extract_message_from_stream (group m 2)
      ++ dq :: ")"%char :: ";"%char :: [].
Proof.
  unfold unrecognized, MigrateLogger.convert_log_call. intros H.
  destruct (dict_get MigrateLogger.SEVERITY_MAPPING (group m 1)) as [macro|] eqn:E;
    [|discriminate].
  exists macro, (MigrateLogger.determine_category p (group m 2)).
  split; [apply (dict_get_in _ _ _ E)|].
  split; [apply migrate_category_values|].
  simpl fst. repeat rewrite <- app_assoc. reflexivity.
Qed.

(** The words the conversion can bring in hold neither the opening of the
    legacy macro nor the legacy include directive, and none of the latter
    starts as a macro name does. *)
Lemma migrate_heads (x : text) (macro category : text) :
  x = LEGACY_OPENING \/ x = MigrateLogger.OLD_INCLUDE ->
  In macro (map snd MigrateLogger.SEVERITY_MAPPING) ->
  In category (txt "GENERAL" :: map snd MigrateLogger.CATEGORY_MAPPING) ->
  free_of x (macro ++ txt "(" ++ category ++ txt ", ") /\
  macro = txt "LOG_" ++ skipn 4 macro.
Proof.
  intros Hx Hm Hc.
  assert (H : forallb (fun mac =>
                forallb (fun cat =>
                  negb (is_in LEGACY_OPENING (mac ++ txt "(" ++ cat ++ txt ", "))
                  && negb (is_in MigrateLogger.OLD_INCLUDE
                                 (mac ++ txt "(" ++ cat ++ txt ", "))
                  && teqb mac (txt "LOG_" ++ skipn 4 mac))
                  (txt "GENERAL" :: map snd MigrateLogger.CATEGORY_MAPPING))
                (map snd MigrateLogger.SEVERITY_MAPPING) = true)
    by (vm_compute; reflexivity).
  pose proof (forallb_In_true _ _ _ _ H Hm) as H1. cbv beta in H1.
  pose proof (forallb_In_true _ _ _ _ H1 Hc) as H2. cbv beta in H2.
  apply andb_true_iff in H2. destruct H2 as [H2 H3].
  apply andb_true_iff in H2. destruct H2 as [H2 H4].
  apply negb_true_iff in H2. apply negb_true_iff in H4.
  apply teqb_eq in H3.
  split; [|exact H3]. destruct Hx as [-> | ->]; assumption.
Qed.

Section ConvertedCall.
Variable x : text.
Hypothesis x_is : x = LEGACY_OPENING \/ x = MigrateLogger.OLD_INCLUDE.
Variable p : text.
Variable m : mobj.
Hypothesis known :
  unrecognized MigrateLogger.SEVERITY_MAPPING (group m 1) = false.

Lemma legacy_word_facts :
  x <> [] /\ count x dq = 0 /\ count x ")" = 0 /\ count x ";" = 0 /\
  forallb (fun k => negb (compatible (skipn k x) (txt "LOG_")))
          (seq 0 (length x)) = true.
Proof.
  destruct x_is as [-> | ->];
    (split; [discriminate | repeat split; vm_compute; reflexivity]).
Qed.

Lemma migrate_convert_fresh :
  fresh x (fst (MigrateLogger.convert_log_call m p)).
Proof.
  destruct (migrate_convert_text m p known) as (macro & category & Hm & Hc & ->).
  destruct (migrate_heads x macro category x_is Hm Hc) as [_ Hmacro].
  rewrite Hmacro. repeat rewrite <- app_assoc.
  apply fresh_by_head. apply legacy_word_facts.
Qed.

Lemma migrate_convert_sealed :
  free_of x (group m 2) ->
  sealed x (fst (MigrateLogger.convert_log_call m p)).
Proof.
  intros Harg o Ho.
  destruct (migrate_convert_text m p known) as (macro & category & Hm & Hc & ->).
  destruct (migrate_heads x macro category x_is Hm Hc) as [Hhead _].
  destruct legacy_word_facts as (Hne & Hq & Hp & Ht & _).
  pose proof (part_of_free x _ _
                (part_of_extract_message (group m 2)) Harg) as Hmsg.
  unfold free_of in *.
  revert Hhead Hmsg.
  generalize (macro ++ txt "(" ++ category ++ txt ", ").
  generalize (MigrateLogger.extract_message_from_stream (group m 2)).
  intros msg head Hhead Hmsg.
  replace ((head ++ dq :: msg ++ [dq; ")"%char; ";"%char]) ++ o)
    with (head ++ dq :: msg ++ dq :: [] ++ ")"%char :: [] ++ ";"%char :: o)
    by (rewrite <- app_assoc; simpl; rewrite <- app_assoc; reflexivity).
  rewrite (is_in_delim x head _ dq Hq Hne), Hhead.
  rewrite (is_in_delim x msg _ dq Hq Hne), Hmsg.
  rewrite (is_in_delim x [] _ ")" Hp Hne), (is_in_nil x Hne).
  rewrite (is_in_delim x [] _ ";" Ht Hne), (is_in_nil x Hne).
  exact Ho.
Qed.
End ConvertedCall.

(** ** The include directive after [str.replace] *)

Lemma exec_lit (old s : text) :
  exec (Lit old) s =
  if startswith s old then Some (MkMatch old []) else None.
Proof.
  unfold exec. cbn [run]. destruct (startswith s old) eqn:E; [|reflexivity].
  pose proof (startswith_split _ _ E) as Es.
  remember (skipn (length old) s) as rest eqn:Hrest. clear Hrest E. subst s.
  rewrite firstn_consumed. reflexivity.
Qed.

(** [str.replace] is the substitution of a literal pattern. *)
Lemma replace_rendered (old new : text) : forall (k : nat) (s : text),
  replace_from old new k s =
  flat_map (rendered (fun _ => new)) (scan (Lit old) k s).
Proof.
  intros k s. revert k. induction s as [|c s IH]; intros k; [reflexivity|].
  destruct k as [|k]; [|apply IH].
  cbn [replace_from scan]. rewrite exec_lit.
  destruct (startswith (c :: s) old).
  - cbn [flat_map rendered group0]. rewrite IH. reflexivity.
  - cbn [flat_map rendered]. rewrite IH. reflexivity.
Qed.

(** No occurrence of a word starts at a character other than its first. *)
Lemma is_in_no_start (y : ascii) (x a b : text) :
  count a y = 0 -> is_in (y :: x) (a ++ b) = is_in (y :: x) b.
Proof.
  induction a as [|c a IH]; intros Hc; [reflexivity|].
  unfold count in Hc. simpl in Hc.
  destruct (Ascii.eqb y c) eqn:E; [discriminate|].
  change (is_in (y :: x) ((c :: a) ++ b))
    with (startswith (c :: a ++ b) (y :: x) || is_in (y :: x) (a ++ b)).
  simpl startswith. rewrite E. simpl. apply IH. exact Hc.
Qed.

Lemma include_fresh_and_sealed :
  fresh MigrateLogger.OLD_INCLUDE MigrateLogger.NEW_INCLUDE /\
  sealed MigrateLogger.OLD_INCLUDE MigrateLogger.NEW_INCLUDE.
Proof.
  split.
  - rewrite <- (app_nil_r MigrateLogger.NEW_INCLUDE).
    apply fresh_by_head. vm_compute. reflexivity.
  - intros o Ho. unfold free_of in *.
    change (MigrateLogger.NEW_INCLUDE ++ o)
      with (txt "#include <mode" ++ "r"%char :: txt "n/Logger.hpp>" ++ o).
    rewrite (is_in_delim MigrateLogger.OLD_INCLUDE (txt "#include <mode") _ "r");
      [| reflexivity | discriminate].
    change (is_in MigrateLogger.OLD_INCLUDE (txt "#include <mode")) with false.
    change MigrateLogger.OLD_INCLUDE
      with ("#"%char :: txt "include <f1x/openauto/Common/Log.hpp>") in *.
    rewrite is_in_no_start; [exact Ho | reflexivity].
Qed.

(** After the replacement no legacy include directive is left. *)
Lemma migrate_includes_free (content : text) :
  free_of MigrateLogger.OLD_INCLUDE (migrate_includes content).
Proof.
  unfold migrate_includes.
  destruct (is_in MigrateLogger.OLD_INCLUDE content) eqn:E; [|exact E].
  unfold replace. rewrite replace_rendered.
  apply clean_free; [discriminate|].
  apply (scan_induction (Lit MigrateLogger.OLD_INCLUDE)
           (fun _ segs => clean MigrateLogger.OLD_INCLUDE
                                (fun _ => MigrateLogger.NEW_INCLUDE) segs)).
  - simpl. lia.
  - exact I.
  - intros c s He IH. split; [|exact IH].
    rewrite scan_original by (simpl; lia).
    rewrite exec_lit in He.
    destruct (startswith (c :: s) MigrateLogger.OLD_INCLUDE);
      [discriminate | reflexivity].
  - intros m rest _ _ IH.
    destruct include_fresh_and_sealed as [Hf Hs]. repeat split; assumption.
Qed.

(** ** The opening of the legacy macro after a run *)

Lemma ordinary_clean_opening (p : text) (segs : list segment) :
  ordinary_segments segs = true ->
  clean LEGACY_OPENING (fun m => fst (MigrateLogger.convert_log_call m p)) segs.
Proof.
  induction segs as [|[c|m] segs IH]; intros H; [exact I| |]; simpl in H.
  - apply andb_true_iff in H. destruct H as [H1 H2].
    apply negb_true_iff in H1. split; [exact H1 | apply IH, H2].
  - apply andb_true_iff in H. destruct H as [H H3].
    apply andb_true_iff in H. destruct H as [H1 H2].
    apply negb_true_iff in H1. apply negb_true_iff in H2.
    split; [|split; [|apply IH, H3]].
    + apply (migrate_convert_fresh LEGACY_OPENING (or_introl eq_refl) p m H1).
    + apply (migrate_convert_sealed LEGACY_OPENING (or_introl eq_refl) p m H1 H2).
Qed.

Lemma ordinary_clean_include (p : text) (segs : list segment) :
  ordinary_segments segs = true ->
  Forall (fun m => group0 m <> [] /\
                   matches MigrateLogger.pattern (group0 m) [] (captured m))
         (hits segs) ->
  free_of MigrateLogger.OLD_INCLUDE (original segs) ->
  clean MigrateLogger.OLD_INCLUDE
        (fun m => fst (MigrateLogger.convert_log_call m p)) segs.
Proof.
  induction segs as [|[c|m] segs IH]; intros H Hm Hf; [exact I| |]; simpl in H.
  - apply andb_true_iff in H. destruct H as [_ H2].
    simpl in Hf. destruct (free_of_cons _ _ _ Hf) as [Hsw Hf'].
    split; [exact Hsw | apply (IH H2 Hm Hf')].
  - apply andb_true_iff in H. destruct H as [H H3].
    apply andb_true_iff in H. destruct H as [H1 _].
    apply negb_true_iff in H1.
    simpl in Hm. inversion Hm as [|m' l [_ Hmatch] Hrest]; subst.
    simpl in Hf.
    split; [|split; [|apply (IH H3 Hrest (free_of_suffix _ _ _ Hf))]].
    + apply (migrate_convert_fresh MigrateLogger.OLD_INCLUDE
               (or_intror eq_refl) p m H1).
    + apply (migrate_convert_sealed MigrateLogger.OLD_INCLUDE
               (or_intror eq_refl) p m H1).
      destruct (migrate_pattern_shape _ _ _ Hmatch)
        as (sev & ws1 & ws2 & arg & Ew & Ec & _).
      unfold group. rewrite Ec. simpl cap_get.
      apply (part_of_free _ arg (group0 m ++ original segs)); [|exact Hf].
      exists (txt "OPENAUTO_LOG(" ++ sev ++ txt ")" ++ ws1 ++ txt "<<" ++ ws2),
             (txt ";" ++ original segs).
      rewrite Ew. repeat rewrite <- app_assoc. reflexivity.
Qed.

Lemma migrate_text (file_path content : text) :
  MigrateLogger.migrate file_path content =
  flat_map (rendered (fun m => fst (MigrateLogger.convert_log_call m file_path)))
           (scan MigrateLogger.pattern 0 (migrate_includes content)).
Proof.
  unfold MigrateLogger.migrate. rewrite migrate_process_content_eq.
  unfold sub_st.
  rewrite (sub_segs_replace_func _ _ (migrate_replace_func_spec file_path)).
  reflexivity.
Qed.

(** A run on an ordinary source leaves a settled text. *)
Lemma migrate_ordinary_settled (file_path content : text) :
  ordinary content = true ->
  settled (MigrateLogger.migrate file_path content).
Proof.
  unfold ordinary. intros H. rewrite migrate_text.
  assert (Hopen : free_of LEGACY_OPENING
            (flat_map (rendered (fun m =>
                         fst (MigrateLogger.convert_log_call m file_path)))
                      (scan MigrateLogger.pattern 0 (migrate_includes content)))).
  { apply clean_free; [discriminate|]. apply ordinary_clean_opening, H. }
  split.
  - apply clean_free; [discriminate|].
    apply ordinary_clean_include; [exact H | |].
    + apply scan_hits_match, migrate_pattern_min_len.
    + rewrite scan_original by apply migrate_pattern_min_len.
      apply migrate_includes_free.
  - assert (Hreq : requires MigrateLogger.pattern LEGACY_OPENING).
    { apply requires_cat_l, requires_lit. reflexivity. }
    unfold finditer.
    rewrite (scan_without MigrateLogger.pattern LEGACY_OPENING _ Hreq Hopen).
    intros m Hm. exfalso. revert Hm. clear.
    generalize (flat_map (rendered (fun m0 =>
                  fst (MigrateLogger.convert_log_call m0 file_path)))
                  (scan MigrateLogger.pattern 0 (migrate_includes content))).
    intros l. induction l as [|c l IH]; simpl; auto.
Qed.


